(** * LSDynaToRaw: keyfile tokenizer, block parser, part extraction and
      renumbering.

    A shallow embedding of [LSDynaToRaw/LSDynaToRaw.cpp].  A definition
    that transcribes a function, a member or a type of the source has its
    name; the comment of every other definition says what it stands for.

    Conventions of the embedding.
    - [int] values (ids, line numbers, parser and lexer states) are [Z].
      The only arithmetic the program performs on them is [+ 1] on counters
      bounded by the number of lines or of stored records, so no wrap-around
      is reachable below 2^31 records or lines.
    - [char] is the signed 8-bit character of the MSVC target (the file uses
      [strcmpi]): [to_char] converts the [int] that [peek] returns, so both
      a real end of stream and the byte 0xFF compare equal to [EOF].
    - [std::isspace(c, loc)] and [std::isdigit(c, loc)] are those of the
      classic locale; the input format is ASCII.
    - The stream is the text that remains to be read.
    - [std::map<int, T>] is [gmap Z T]; [operator[]] on a map inserts a
      value-initialised entry when the key is absent ([map_index]).
    - [std::vector<T>] is [list T]; [at] throws [out_of_range].
    - A loop that the source does not bound ([Parse], the skipping loops of
      [AcceptNode] and [AcceptPart]) takes fuel, and ends in [OutOfFuel]
      when the fuel is used up; the loops over the stream and over vectors
      are structural.
    - Output to [cout] is not modelled. *)

From Stdlib Require Import ZArith String Ascii.
From stdpp Require Import gmap list strings sorting.

Local Open Scope Z_scope.

(** ** Characters and the input stream *)

Definition chr (a : ascii) : Z := Z.of_N (N_of_ascii a).

Definition EOF : Z := -1.

(** Conversion [int -> char] for a signed 8-bit [char]. *)
Definition to_char (i : Z) : Z := if 127 <? i then i - 256 else i.

(** [std::istream::peek]: the next character as an [int], or [EOF]. *)
Definition peek (s : string) : Z :=
  match s with
  | EmptyString => EOF
  | String a _ => chr a
  end.

(** [std::istream::ignore()]: drop one character, nothing at end of stream. *)
Definition ignore (s : string) : string :=
  match s with
  | EmptyString => EmptyString
  | String _ s' => s'
  end.

(** [S.symbol += stream.get()]: the character appended to the symbol and the
    rest of the stream.  At end of stream [get] returns [EOF], which the
    conversion to [char] turns into the byte 0xFF. *)
Definition get (s : string) : string * string :=
  match s with
  | EmptyString => (String (ascii_of_N 255) EmptyString, EmptyString)
  | String a s' => (String a EmptyString, s')
  end.

Definition isdigit (c : Z) : bool := (48 <=? c) && (c <=? 57).

Definition isspace (c : Z) : bool := (c =? 32) || ((9 <=? c) && (c <=? 13)).

Definition NL : Z := 10.

(** The three loop conditions of the lexer, as predicates on the pending
    [char]. *)
Definition digit_cond (c : Z) : bool :=
  negb (c =? NL) && isdigit c && negb (c =? EOF).

Definition space_cond (c : Z) : bool :=
  negb (c =? NL) && isspace c && negb (c =? EOF).

Definition word_cond (c : Z) : bool :=
  negb (c =? NL) && negb (isspace c) && negb (c =? EOF).

(** [while ((c = stream.peek()) ... ) S.symbol += stream.get();]
    At end of stream [c] is [EOF], which fails each of the conditions. *)
Fixpoint read_while (p : Z -> bool) (s : string) : string * string :=
  match s with
  | EmptyString => (EmptyString, EmptyString)
  | String a s' =>
      if p (to_char (chr a))
      then let (w, r) := read_while p s' in (String a w, r)
      else (EmptyString, s)
  end.

(** ** Lexer symbols *)

Inductive SymbolType :=
| WHITESPACE | NEWLINE | COMMENT | COMMA | ASTERISK | WORD | NUMBER
| END_OF_FILE.

#[global] Instance SymbolType_eq_dec : EqDecision SymbolType.
Proof. solve_decision. Defined.

Record LexerSymbol := mkSymbol { type : SymbolType; symbol : string }.

#[global] Instance LexerSymbol_eq_dec : EqDecision LexerSymbol.
Proof. solve_decision. Defined.

(** ** KeyFileLexer *)

(** [currentSymbol] is [None] while it holds a default-constructed
    [LexerSymbol], whose [type] is indeterminate. *)
Record KeyFileLexer := mkLexer {
  stream : string;
  state : Z;
  currentSymbol : option LexerSymbol;
  current_line : Z
}.

(** The constructor: [state(0)], [current_line(1)]. *)
Definition new_KeyFileLexer (contents : string) : KeyFileLexer :=
  {| stream := contents; state := 0; currentSymbol := None;
     current_line := 1 |}.

Definition set_stream (lx : KeyFileLexer) (s : string) : KeyFileLexer :=
  {| stream := s; state := state lx; currentSymbol := currentSymbol lx;
     current_line := current_line lx |}.

Definition set_state (lx : KeyFileLexer) (st : Z) : KeyFileLexer :=
  {| stream := stream lx; state := st; currentSymbol := currentSymbol lx;
     current_line := current_line lx |}.

Definition set_currentSymbol (lx : KeyFileLexer) (sy : option LexerSymbol)
  : KeyFileLexer :=
  {| stream := stream lx; state := state lx; currentSymbol := sy;
     current_line := current_line lx |}.

Definition incr_line (lx : KeyFileLexer) : KeyFileLexer :=
  {| stream := stream lx; state := state lx;
     currentSymbol := currentSymbol lx;
     current_line := current_line lx + 1 |}.

(** The first loop of [IgnoreComment]: skip up to a newline or [EOF]. *)
Fixpoint skip_to_eol (s : string) : string :=
  match s with
  | EmptyString => EmptyString
  | String a s' =>
      let c := to_char (chr a) in
      if negb (c =? NL) && negb (c =? EOF) then skip_to_eol s' else s
  end.

(** [IgnoreComment]: the condition [if (c = '\n')] is an assignment and
    always holds, so one more character is dropped in every case. *)
Definition IgnoreComment (lx : KeyFileLexer) : Z * KeyFileLexer :=
  let s := ignore (skip_to_eol (stream lx)) in
  (to_char (peek s), set_stream lx s).

(** [while (c == '$') { c = IgnoreComment(); current_line += 1; }]
    Each round drops at least the ['$'], so the length of the stream bounds
    the number of rounds ([comment_loop_done]). *)
Fixpoint comment_loop (fuel : nat) (c : Z) (lx : KeyFileLexer)
  : Z * KeyFileLexer :=
  match fuel with
  | O => (c, lx)
  | S fuel' =>
      if c =? chr "$"
      then let (c', lx') := IgnoreComment lx in
           comment_loop fuel' c' (incr_line lx')
      else (c, lx)
  end.

Definition AcceptAsterisk (lx : KeyFileLexer) : LexerSymbol * KeyFileLexer :=
  (mkSymbol ASTERISK "*", set_state (set_stream lx (ignore (stream lx))) 1).

Definition AcceptNewline (lx : KeyFileLexer) : LexerSymbol * KeyFileLexer :=
  (mkSymbol NEWLINE (String (ascii_of_N 10) EmptyString),
   set_state (set_stream lx (ignore (stream lx))) 0).

Definition AcceptWhitespace (lx : KeyFileLexer)
  : LexerSymbol * KeyFileLexer :=
  let (c0, s1) := get (stream lx) in
  let (w, s2) := read_while space_cond s1 in
  (mkSymbol WHITESPACE (c0 +:+ w), set_state (set_stream lx s2) 1).

Definition AcceptWord (lx : KeyFileLexer) : LexerSymbol * KeyFileLexer :=
  let (c0, s1) := get (stream lx) in
  let (w, s2) := read_while word_cond s1 in
  (mkSymbol WORD (c0 +:+ w), set_state (set_stream lx s2) 1).

(** One optional character: [if (<test on peek>) S.symbol += stream.get();] *)
Definition get_if (b : bool) (s : string) : string * string :=
  if b then get s else (EmptyString, s).

(** [AcceptNumber] leaves [state] as it is. *)
Definition AcceptNumber (lx : KeyFileLexer) : LexerSymbol * KeyFileLexer :=
  let (c0, s1) := get (stream lx) in
  (* First digits *)
  let (d1, s2) := read_while digit_cond s1 in
  (* We may encounter a decimal place *)
  let (dot, s3) := get_if (peek s2 =? chr ".") s2 in
  (* Digits after decimal place *)
  let (d2, s4) := read_while digit_cond s3 in
  (* Possible exponent *)
  let (ex, s5) :=
    get_if ((to_char (peek s4) =? chr "e") || (to_char (peek s4) =? chr "E"))
           s4 in
  (* possible negative sign or positive sign *)
  let (sg, s6) :=
    get_if ((to_char (peek s5) =? chr "-") || (to_char (peek s5) =? chr "+"))
           s5 in
  (* Exponent *)
  let (d3, s7) := read_while digit_cond s6 in
  (mkSymbol NUMBER (c0 +:+ d1 +:+ dot +:+ d2 +:+ ex +:+ sg +:+ d3),
   set_stream lx s7).

Definition is_blank (c : Z) : bool :=
  (c =? chr " ") || (c =? 9) || (c =? 12) || (c =? 11).

Definition starts_number (c : Z) : bool :=
  ((chr "0" <=? c) && (c <=? chr "9")) || (c =? chr "-").

(** [NextSymbol].  The result is [None] when the symbol returned is the
    default-constructed [S]: no case of [switch (state)] ran, and the [type]
    of [S] is indeterminate. *)
Definition NextSymbol (lx : KeyFileLexer)
  : option LexerSymbol * KeyFileLexer :=
  let c := to_char (peek (stream lx)) in
  let '(sy, lx') :=
    if state lx =? 0 then
      let (c, lx) := comment_loop (String.length (stream lx)) c lx in
      if c =? chr "*" then
        let (sy, lx) := AcceptAsterisk lx in (Some sy, lx)
      else if c =? NL then
        let (sy, lx) := AcceptNewline lx in (Some sy, incr_line lx)
      else if is_blank c then
        let (sy, lx) := AcceptWhitespace lx in (Some sy, lx)
      else if c =? chr "," then
        (Some (mkSymbol COMMA ","), lx)
      else if starts_number c then
        let (sy, lx) := AcceptNumber lx in (Some sy, lx)
      else if c =? EOF then
        (Some (mkSymbol END_OF_FILE EmptyString), set_state lx (-1))
      else
        let (sy, lx) := AcceptWord lx in (Some sy, lx)
    else if state lx =? 1 then
      if c =? NL then
        let (sy, lx) := AcceptNewline lx in (Some sy, incr_line lx)
      else if is_blank c then
        let (sy, lx) := AcceptWhitespace lx in (Some sy, lx)
      else if starts_number c then
        let (sy, lx) := AcceptNumber lx in (Some sy, lx)
      else if c =? EOF then
        (Some (mkSymbol END_OF_FILE EmptyString), set_state lx (-1))
      else
        let (sy, lx) := AcceptWord lx in (Some sy, lx)
    else (None, lx)
  in (sy, set_currentSymbol lx' sy).

(** The first [n] symbols that repeated calls of [NextSymbol] return. *)
Fixpoint tokens (n : nat) (lx : KeyFileLexer) : list (option LexerSymbol) :=
  match n with
  | O => []
  | S n' => let (sy, lx') := NextSymbol lx in sy :: tokens n' lx'
  end.


(** ** Exceptions, results and the state monad of the methods *)

(** The exceptions the program throws.
    - [SyntaxError line]: [std::runtime_error] with the text
      ["Line <line>: Could not parse file: element list appears to be
      malformed."]
    - [DuplicateIdError]: [std::runtime_error] with the text
      ["Found two elements with the same element id"]
    - [out_of_range]: thrown by [vector::at]
    - [bad_lexical_cast]: thrown by [boost::lexical_cast] *)
Inductive exn :=
| SyntaxError (line : Z)
| DuplicateIdError
| out_of_range
| bad_lexical_cast.

#[global] Instance exn_eq_dec : EqDecision exn.
Proof. solve_decision. Defined.

(** How a call ends: it returns, it throws, it reads an indeterminate value
    (undefined behaviour), or the model of one of its unbounded loops has
    used up its fuel. *)
Inductive result (A : Type) :=
| Normal (a : A)
| Throw (e : exn)
| Undefined
| OutOfFuel.

Arguments Normal {A} a.
Arguments Throw {A} e.
Arguments Undefined {A}.
Arguments OutOfFuel {A}.

(** A method over mutable state [St]: the state survives a [throw]. *)
Definition M (St A : Type) : Type := St -> result A * St.

Definition ret {St A} (a : A) : M St A := fun s => (Normal a, s).

Definition bind {St A B} (m : M St A) (k : A -> M St B) : M St B :=
  fun s =>
    match m s with
    | (Normal a, s') => k a s'
    | (Throw e, s') => (Throw e, s')
    | (Undefined, s') => (Undefined, s')
    | (OutOfFuel, s') => (OutOfFuel, s')
    end.

Definition throw {St A} (e : exn) : M St A := fun s => (Throw e, s).

Definition lift {St A} (r : result A) : M St A := fun s => (r, s).

Definition gets {St A} (f : St -> A) : M St A := fun s => (Normal (f s), s).

Definition modify {St} (f : St -> St) : M St unit :=
  fun s => (Normal tt, f s).

Notation "x <- e ;; k" := (bind e (fun x => k))
  (at level 100, e at next level, right associativity).
Notation "e >> k" := (bind e (fun _ => k))
  (at level 100, right associativity).

(** [for (int j = i; j < i + n; ++j) body(j);] *)
Fixpoint for_loop {St} (i n : nat) (body : nat -> M St unit) : M St unit :=
  match n with
  | O => ret tt
  | S n' => body i >> for_loop (S i) n' body
  end.

(** [std::vector::at] with an [int] index: a negative index converts to a
    huge [size_t] and is out of range. *)
Definition vector_at {A} (v : list A) (k : Z) : result A :=
  if k <? 0 then Throw out_of_range
  else match v !! Z.to_nat k with
       | Some a => Normal a
       | None => Throw out_of_range
       end.

(** [std::vector::back]; undefined on an empty vector. *)
Definition back {A} (v : list A) : result A :=
  match last v with
  | Some a => Normal a
  | None => Undefined
  end.

(** [std::map::operator[]]: the value at [k], after inserting the
    value-initialised [dflt] when [k] is absent. *)
Definition map_index {V} (dflt : V) (m : gmap Z V) (k : Z) : V * gmap Z V :=
  match m !! k with
  | Some v => (v, m)
  | None => (dflt, <[k := dflt]> m)
  end.

(** ** The conversions of the boost and C++ libraries

    [boost::lexical_cast] and the arithmetic of [double] are library code.
    The embedding takes them as an interface; every theorem holds for every
    implementation of it. *)
Class Boost := {
  double : Type;
  (** a value-initialised [double] *)
  double_zero : double;
  (** [boost::lexical_cast<int>]; [None] when it throws [bad_lexical_cast] *)
  lexical_cast_int : string -> option Z;
  (** [boost::lexical_cast<double>] *)
  lexical_cast_double : string -> option double;
  (** the implicit conversion [double -> int] *)
  double_to_int : double -> Z
}.

(** ** The mesh model *)

Section Mesh.
Context `{B : Boost}.

(** [typedef std::tuple<double, double, double> Node;] *)
Definition Node : Type := double * double * double.

(** [typedef std::tuple<int, ..., int> Element;] with [get<0>] .. [get<7>] *)
Record Element := mkElement {
  get0 : Z; get1 : Z; get2 : Z; get3 : Z;
  get4 : Z; get5 : Z; get6 : Z; get7 : Z
}.

(** [nids] is declared [vector<double>] but only ever receives [int]
    values, which [double] holds exactly. *)
Record Nodes := mkNodes {
  nids : list Z;
  x : list double;
  y : list double;
  z : list double
}.

Record Elements := mkElements {
  eids : list Z;
  pids : list Z;
  n1 : list Z; n2 : list Z; n3 : list Z; n4 : list Z;
  n5 : list Z; n6 : list Z; n7 : list Z; n8 : list Z
}.

Definition no_Nodes : Nodes := mkNodes [] [] [] [].

Definition no_Elements : Elements := mkElements [] [] [] [] [] [] [] [] [] [].

(** [Nodes::AddNode(int id, Node const &x_)] *)
Definition AddNode (id : Z) (x_ : Node) (n : Nodes) : Nodes :=
  {| nids := nids n ++ [id];
     x := x n ++ [x_.1.1];
     y := y n ++ [x_.1.2];
     z := z n ++ [x_.2] |}.

(** The ten [push_back]s of a row. *)
Definition push_element (eid_ pid_ : Z) (e_ : Element) (e : Elements)
  : Elements :=
  {| eids := eids e ++ [eid_];
     pids := pids e ++ [pid_];
     n1 := n1 e ++ [get0 e_]; n2 := n2 e ++ [get1 e_];
     n3 := n3 e ++ [get2 e_]; n4 := n4 e ++ [get3 e_];
     n5 := n5 e ++ [get4 e_]; n6 := n6 e ++ [get5 e_];
     n7 := n7 e ++ [get6 e_]; n8 := n8 e ++ [get7 e_] |}.

(** [Elements::AddElement] *)
Definition AddElement (eid_ pid_ : Z) (e_ : Element) (e : Elements)
  : result Elements :=
  (* ensure the element id is unique *)
  if bool_decide (eid_ ∈ eids e) then Throw DuplicateIdError
  else Normal (push_element eid_ pid_ e_ e).

Definition rbind {A C} (r : result A) (k : A -> result C) : result C :=
  match r with
  | Normal a => k a
  | Throw e => Throw e
  | Undefined => Undefined
  | OutOfFuel => OutOfFuel
  end.

(** [Elements::GetElement(int k)] *)
Definition GetElement (e : Elements) (k : Z) : result Element :=
  rbind (vector_at (n1 e) k) (fun a1 =>
  rbind (vector_at (n2 e) k) (fun a2 =>
  rbind (vector_at (n3 e) k) (fun a3 =>
  rbind (vector_at (n4 e) k) (fun a4 =>
  rbind (vector_at (n5 e) k) (fun a5 =>
  rbind (vector_at (n6 e) k) (fun a6 =>
  rbind (vector_at (n7 e) k) (fun a7 =>
  rbind (vector_at (n8 e) k) (fun a8 =>
  Normal (mkElement a1 a2 a3 a4 a5 a6 a7 a8))))))))).

(** [Elements::GetElementID(int k)] *)
Definition GetElementID (e : Elements) (k : Z) : result Z :=
  vector_at (eids e) k.

(** [Elements::GetPartID(int k)] *)
Definition GetPartID (e : Elements) (k : Z) : result Z :=
  vector_at (pids e) k.

(** [Nodes::GetNode(int k)] *)
Definition GetNode (n : Nodes) (k : Z) : result Node :=
  rbind (vector_at (x n) k) (fun vx =>
  rbind (vector_at (y n) k) (fun vy =>
  rbind (vector_at (z n) k) (fun vz =>
  Normal (vx, vy, vz)))).

(** [Nodes::GetNodeID(int k)] *)
Definition GetNodeID (n : Nodes) (k : Z) : result Z :=
  vector_at (nids n) k.

Record FiniteElementObject := mkFEO {
  nodes : Nodes;
  elements : Elements;
  element_index : gmap Z Z;
  (** maps node ids to vector positions in the nodes list *)
  node_index : gmap Z Z
}.

Definition no_FiniteElementObject : FiniteElementObject :=
  mkFEO no_Nodes no_Elements ∅ ∅.

(** [std::map::at], which throws when the key is absent. *)
Definition map_at (m : gmap Z Z) (k : Z) : result Z :=
  match m !! k with
  | Some v => Normal v
  | None => Throw out_of_range
  end.

(** [FiniteElementObject::GetElement(int eid)] *)
Definition FiniteElementObject_GetElement (o : FiniteElementObject)
    (eid : Z) : result Element :=
  rbind (map_at (element_index o) eid) (GetElement (elements o)).

(** [FiniteElementObject::GetNode(int nid)] *)
Definition FiniteElementObject_GetNode (o : FiniteElementObject) (nid : Z)
  : result Node :=
  rbind (map_at (node_index o) nid) (GetNode (nodes o)).

End Mesh.

(** ** KeyFile: the block parser *)

(** [strcmpi] compares C strings, which end at the first NUL, ignoring the
    case of ASCII letters. *)
Definition tolower (a : ascii) : ascii :=
  let n := N_of_ascii a in
  if ((65 <=? n) && (n <=? 90))%N then ascii_of_N (n + 32) else a.

Fixpoint c_str_lower (s : string) : string :=
  match s with
  | EmptyString => EmptyString
  | String a s' =>
      if (N_of_ascii a =? 0)%N then EmptyString
      else String (tolower a) (c_str_lower s')
  end.

(** [!strcmpi(a, b)] *)
Definition strcmpi_equal (a b : string) : bool :=
  String.eqb (c_str_lower a) (c_str_lower b).

Section KeyFile.
Context `{B : Boost}.

(** [lexer] is the [unique_ptr] that [Parse] sets and resets; [infile] and
    the file system are outside the model: [Parse] receives the contents of
    the file. *)
Record KeyFile := mkKeyFile {
  lexer : option KeyFileLexer;
  obj : FiniteElementObject;
  part_names : gmap Z string;
  parts : gmap Z Elements
}.

(** [KeyFile()] *)
Definition new_KeyFile : KeyFile :=
  mkKeyFile None no_FiniteElementObject ∅ ∅.

Definition set_lexer (l : option KeyFileLexer) (kf : KeyFile) : KeyFile :=
  mkKeyFile l (obj kf) (part_names kf) (parts kf).

Definition set_obj (o : FiniteElementObject) (kf : KeyFile) : KeyFile :=
  mkKeyFile (lexer kf) o (part_names kf) (parts kf).

Definition set_part_names (n : gmap Z string) (kf : KeyFile) : KeyFile :=
  mkKeyFile (lexer kf) (obj kf) n (parts kf).

Definition set_parts (p : gmap Z Elements) (kf : KeyFile) : KeyFile :=
  mkKeyFile (lexer kf) (obj kf) (part_names kf) p.

(** [lexer->NextSymbol()] *)
Definition lexer_NextSymbol : M KeyFile LexerSymbol :=
  fun kf =>
    match lexer kf with
    | None => (Undefined, kf)
    | Some lx =>
        let (sy, lx') := NextSymbol lx in
        (match sy with Some s => Normal s | None => Undefined end,
         set_lexer (Some lx') kf)
    end.

(** [lexer->GetCurrentSymbol()] *)
Definition lexer_GetCurrentSymbol : M KeyFile LexerSymbol :=
  fun kf =>
    match lexer kf with
    | Some lx =>
        (match currentSymbol lx with Some s => Normal s | None => Undefined end,
         kf)
    | None => (Undefined, kf)
    end.

(** [lexer->GetCurrentLine()] *)
Definition lexer_GetCurrentLine : M KeyFile Z :=
  fun kf =>
    match lexer kf with
    | Some lx => (Normal (current_line lx), kf)
    | None => (Undefined, kf)
    end.

Definition cast_int (s : string) : M KeyFile Z :=
  match lexical_cast_int s with
  | Some v => ret v
  | None => throw bad_lexical_cast
  end.

Definition cast_double (s : string) : M KeyFile double :=
  match lexical_cast_double s with
  | Some v => ret v
  | None => throw bad_lexical_cast
  end.

Definition is_separator (sy : LexerSymbol) : bool :=
  bool_decide (type sy = WHITESPACE) || bool_decide (type sy = COMMA).

(** [throw std::runtime_error("Line " + GetCurrentLine() + ": Could not
    parse file: element list appears to be malformed.")] *)
Definition throw_malformed {A} : M KeyFile A :=
  line <- lexer_GetCurrentLine ;; throw (SyntaxError line).

(** [S = lexer->NextSymbol(); if (!(S.type == WHITESPACE || S.type ==
    COMMA)) throw ...] *)
Definition expect_separator : M KeyFile unit :=
  sy <- lexer_NextSymbol ;;
  if is_separator sy then ret tt else throw_malformed.

(** [while ((S = lexer->NextSymbol()).type != t) {}], which returns the
    symbol of type [t]. *)
Fixpoint skip_until (fuel : nat) (t : SymbolType) : M KeyFile LexerSymbol :=
  match fuel with
  | O => lift OutOfFuel
  | S fuel' =>
      sy <- lexer_NextSymbol ;;
      if bool_decide (type sy = t) then ret sy else skip_until fuel' t
  end.

(** The first loop of [AcceptPart], which appends every symbol before the
    next newline to the name. *)
Fixpoint read_part_name (fuel : nat) (part_name : string)
  : M KeyFile string :=
  match fuel with
  | O => lift OutOfFuel
  | S fuel' =>
      sy <- lexer_NextSymbol ;;
      if bool_decide (type sy = NEWLINE) then ret part_name
      else read_part_name fuel' (part_name +:+ symbol sy)
  end.

(** [KeyFile::AcceptPart] *)
Definition AcceptPart (fuel : nat) : M KeyFile unit :=
  cur <- lexer_GetCurrentSymbol ;;
  part_name <- read_part_name fuel (symbol cur) ;;
  (* the next number that we see is the part ID *)
  sy <- skip_until fuel NUMBER ;;
  pid <- cast_int (symbol sy) ;;
  modify (fun kf => set_part_names (<[pid := part_name]> (part_names kf)) kf).

(** The end of [AcceptNode]:
    [obj.nodes.AddNode(nid, make_tuple(x, y, z));
     obj.node_index[nid] = (int)obj.nodes.nids.size() - 1;] *)
Definition store_node (nid : Z) (n : Node) (kf : KeyFile) : KeyFile :=
  let nodes' := AddNode nid n (nodes (obj kf)) in
  set_obj (mkFEO nodes' (elements (obj kf)) (element_index (obj kf))
             (<[nid := Z.of_nat (length (nids nodes')) - 1]>
                (node_index (obj kf)))) kf.

(** [KeyFile::AcceptNode] *)
Definition AcceptNode (fuel : nat) : M KeyFile unit :=
  cur <- lexer_GetCurrentSymbol ;;
  nid <- cast_int (symbol cur) ;;
  expect_separator >>
  sy <- lexer_NextSymbol ;;
  vx <- cast_double (symbol sy) ;;
  expect_separator >>
  sy <- lexer_NextSymbol ;;
  vy <- cast_double (symbol sy) ;;
  expect_separator >>
  sy <- lexer_NextSymbol ;;
  vz <- cast_double (symbol sy) ;;
  skip_until fuel NEWLINE >>
  (* Now add the node *)
  modify (store_node nid (vx, vy, vz)).

(** [S = lexer->NextSymbol(); if (S.type != NUMBER) throw ...] *)
Definition expect_number : M KeyFile LexerSymbol :=
  sy <- lexer_NextSymbol ;;
  if bool_decide (type sy = NUMBER) then ret sy else throw_malformed.

(** The loop of [AcceptElement] that reads the connectivity fields; the
    result lists [nids[8 - n]] .. [nids[7]]. *)
Fixpoint read_connectivity (n : nat) : M KeyFile (list Z) :=
  match n with
  | O => ret []
  | S n' =>
      expect_separator >>
      sy <- expect_number ;;
      d <- cast_double (symbol sy) ;;
      rest <- read_connectivity n' ;;
      ret (double_to_int d :: rest)
  end.

(** [make_tuple(nids[0], ..., nids[7])]; the array is zero-filled. *)
Definition make_Element (l : list Z) : Element :=
  mkElement (nth 0 l 0) (nth 1 l 0) (nth 2 l 0) (nth 3 l 0)
            (nth 4 l 0) (nth 5 l 0) (nth 6 l 0) (nth 7 l 0).

(** What [AcceptElement] reads before it stores anything. *)
Definition read_element_record : M KeyFile (Z * Z * Element) :=
  cur <- lexer_GetCurrentSymbol ;;
  eid <- cast_int (symbol cur) ;;
  expect_separator >>
  sy <- expect_number ;;
  pid <- cast_int (symbol sy) ;;
  (* Read in 8 nodes *)
  l <- read_connectivity 8 ;;
  ret (eid, pid, make_Element l).

(** [obj.elements.AddElement(eid, pid, e)] *)
Definition obj_AddElement (eid pid : Z) (e : Element) : M KeyFile unit :=
  fun kf =>
    match AddElement eid pid e (elements (obj kf)) with
    | Normal els =>
        (Normal tt,
         set_obj (mkFEO (nodes (obj kf)) els (element_index (obj kf))
                    (node_index (obj kf))) kf)
    | Throw ex => (Throw ex, kf)
    | Undefined => (Undefined, kf)
    | OutOfFuel => (OutOfFuel, kf)
    end.

(** [obj.element_index[eid] = (int)obj.elements.eids.size() - 1;] *)
Definition index_element (eid : Z) (kf : KeyFile) : KeyFile :=
  set_obj (mkFEO (nodes (obj kf)) (elements (obj kf))
             (<[eid := Z.of_nat (length (eids (elements (obj kf)))) - 1]>
                (element_index (obj kf)))
             (node_index (obj kf))) kf.

(** [parts[pid].AddElement(eid, pid, e)]: [operator[]] first enters an
    empty [Elements] for a new part id. *)
Definition parts_AddElement (eid pid : Z) (e : Element) : M KeyFile unit :=
  fun kf =>
    let (els, parts') := map_index no_Elements (parts kf) pid in
    match AddElement eid pid e els with
    | Normal els' => (Normal tt, set_parts (<[pid := els']> parts') kf)
    | Throw ex => (Throw ex, set_parts parts' kf)
    | Undefined => (Undefined, set_parts parts' kf)
    | OutOfFuel => (OutOfFuel, set_parts parts' kf)
    end.

(** [KeyFile::AcceptElement] *)
Definition AcceptElement : M KeyFile unit :=
  r <- read_element_record ;;
  let '(eid, pid, e) := r in
  (* Now add the element *)
  obj_AddElement eid pid e >>
  modify (index_element eid) >>
  parts_AddElement eid pid e.

(** The keyword dispatch of parser state 1. *)
Definition keyword_state (sy : LexerSymbol) : Z :=
  if bool_decide (type sy = WORD) && strcmpi_equal (symbol sy) "NODE"
  then 2
  else if bool_decide (type sy = WORD)
          && strcmpi_equal (symbol sy) "ELEMENT_SOLID" then 3
  else if bool_decide (type sy = WORD)
          && strcmpi_equal (symbol sy) "ELEMENT_SHELL" then 3
  else if bool_decide (type sy = WORD)
          && strcmpi_equal (symbol sy) "ELEMENT_BEAM" then 3
  else if bool_decide (type sy = WORD)
          && strcmpi_equal (symbol sy) "PART" then 4
  else if bool_decide (type sy = WORD)
          && strcmpi_equal (symbol sy) "PART_INERTIA" then 4
  else 0.

(** The body of [switch (state)] in [Parse]: the next parser state. *)
Definition Parse_step (fuel : nat) (sy : LexerSymbol) (st : Z) : M KeyFile Z :=
  if st =? 0 then
    ret (if bool_decide (type sy = ASTERISK) then 1 else st)
  else if st =? 1 then
    ret (keyword_state sy)
  else if st =? 2 then (* NODE *)
    match type sy with
    | WHITESPACE => ret st
    | NUMBER => AcceptNode fuel >> ret st
    | NEWLINE => ret st
    | ASTERISK => ret 1
    | _ => ret 0
    end
  else if st =? 3 then (* ELEMENT_SOLID or ELEMENT_BEAM or ELEMENT_SHELL *)
    match type sy with
    | WHITESPACE => ret st
    | NUMBER => AcceptElement >> ret st
    | NEWLINE => ret st
    | ASTERISK => ret 1
    | _ => ret 0
    end
  else if st =? 4 then (* PART *)
    match type sy with
    | WHITESPACE => ret st
    | NEWLINE => ret st
    | ASTERISK => ret 1
    | WORD => AcceptPart fuel >> ret st
    | _ => ret 0
    end
  else ret st.

(** [while (S.type != LexerSymbol::END_OF_FILE) { switch ...;
    S = lexer->NextSymbol(); }] *)
Fixpoint Parse_loop (fuel : nat) (sy : LexerSymbol) (st : Z) : M KeyFile unit :=
  if bool_decide (type sy = END_OF_FILE) then ret tt
  else
    match fuel with
    | O => lift OutOfFuel
    | S fuel' =>
        st' <- Parse_step fuel' sy st ;;
        sy' <- lexer_NextSymbol ;;
        Parse_loop fuel' sy' st'
    end.

(** The summary that [Parse] prints reads [part_names[pid]] for every part
    with elements, which enters an empty name for a part without one. *)
Definition name_parts (kf : KeyFile) : KeyFile :=
  set_part_names
    (foldr (fun pid names => (map_index EmptyString names pid).2)
           (part_names kf) (map fst (map_to_list (parts kf)))) kf.

(** [KeyFile::Parse], on the contents of [infile]. *)
Definition Parse (fuel : nat) (contents : string) : M KeyFile unit :=
  modify (set_lexer (Some (new_KeyFileLexer contents))) >>
  sy <- lexer_NextSymbol ;;
  Parse_loop fuel sy 0 >>
  modify name_parts >>
  modify (set_lexer None).

(** [KeyFile::Append], for a file that exists and is regular. *)
Definition Append (fuel : nat) (contents : string) : M KeyFile unit :=
  Parse fuel contents.

End KeyFile.

(** ** Part extraction and renumbering *)

Section Transform.
Context `{B : Boost}.

Definition set_nodes (n : Nodes) (o : FiniteElementObject)
  : FiniteElementObject :=
  mkFEO n (elements o) (element_index o) (node_index o).

Definition set_elements (e : Elements) (o : FiniteElementObject)
  : FiniteElementObject :=
  mkFEO (nodes o) e (element_index o) (node_index o).

Definition set_element_index (m : gmap Z Z) (o : FiniteElementObject)
  : FiniteElementObject :=
  mkFEO (nodes o) (elements o) m (node_index o).

Definition set_node_index (m : gmap Z Z) (o : FiniteElementObject)
  : FiniteElementObject :=
  mkFEO (nodes o) (elements o) (element_index o) m.

(** The mutable variables of [IsolatePart]: the argument [objects], which
    is a reference, and the local [part]. *)
Record IsolatePart_vars := mkVars {
  objects : FiniteElementObject;
  part : FiniteElementObject
}.

Definition set_part (p : FiniteElementObject) (v : IsolatePart_vars)
  : IsolatePart_vars := mkVars (objects v) p.

(** [int old_index = objects.node_index[nid];] *)
Definition objects_node_index (nid : Z) : M IsolatePart_vars Z :=
  fun v =>
    let (k, m) := map_index 0 (node_index (objects v)) nid in
    (Normal k, mkVars (set_node_index m (objects v)) (part v)).

(** One of the eight blocks
    [if (part.node_index.count(part.elements.nK.back()) == 0
         && part.elements.nK.back() != 0) { ... }]
    of [IsolatePart], for the slot vector [nK]. *)
Definition copy_node (nK : Elements -> list Z) : M IsolatePart_vars unit :=
  (* copy only the nodes that aren't already in the set, and don't copy the
     node with index zero *)
  p <- gets part ;;
  b <- lift (back (nK (elements p))) ;;
  if bool_decide (node_index p !! b = None) && negb (b =? 0) then
    let nid := b in
    modify (fun v => set_part
      (set_nodes (mkNodes (nids (nodes (part v)) ++ [nid])
                          (x (nodes (part v))) (y (nodes (part v)))
                          (z (nodes (part v)))) (part v)) v) >>
    old_index <- objects_node_index nid ;;
    o <- gets objects ;;
    vx <- lift (vector_at (x (nodes o)) old_index) ;;
    modify (fun v => set_part
      (set_nodes (mkNodes (nids (nodes (part v)))
                          (x (nodes (part v)) ++ [vx]) (y (nodes (part v)))
                          (z (nodes (part v)))) (part v)) v) >>
    vy <- lift (vector_at (y (nodes o)) old_index) ;;
    modify (fun v => set_part
      (set_nodes (mkNodes (nids (nodes (part v)))
                          (x (nodes (part v))) (y (nodes (part v)) ++ [vy])
                          (z (nodes (part v)))) (part v)) v) >>
    vz <- lift (vector_at (z (nodes o)) old_index) ;;
    modify (fun v => set_part
      (set_nodes (mkNodes (nids (nodes (part v)))
                          (x (nodes (part v))) (y (nodes (part v)))
                          (z (nodes (part v)) ++ [vz])) (part v)) v) >>
    modify (fun v => set_part
      (set_node_index
         (<[nid := Z.of_nat (length (x (nodes (part v)))) - 1]>
            (node_index (part v))) (part v)) v)
  else ret tt.

(** [part.elements.<col>.push_back(objects.elements.<col>.at(i));] for the
    ten columns, in the order of the source. *)
Definition copy_row (i : Z) : M IsolatePart_vars unit :=
  o <- gets objects ;;
  eid <- lift (vector_at (eids (elements o)) i) ;;
  pid <- lift (vector_at (pids (elements o)) i) ;;
  a1 <- lift (vector_at (n1 (elements o)) i) ;;
  a2 <- lift (vector_at (n2 (elements o)) i) ;;
  a3 <- lift (vector_at (n3 (elements o)) i) ;;
  a4 <- lift (vector_at (n4 (elements o)) i) ;;
  a5 <- lift (vector_at (n5 (elements o)) i) ;;
  a6 <- lift (vector_at (n6 (elements o)) i) ;;
  a7 <- lift (vector_at (n7 (elements o)) i) ;;
  a8 <- lift (vector_at (n8 (elements o)) i) ;;
  modify (fun v => set_part
    (set_elements
       (push_element eid pid (mkElement a1 a2 a3 a4 a5 a6 a7 a8)
                     (elements (part v))) (part v)) v).

(** The body of the loop of [IsolatePart]. *)
Definition IsolatePart_body (pid : Z) (i : nat) : M IsolatePart_vars unit :=
  o <- gets objects ;;
  p <- lift (vector_at (pids (elements o)) (Z.of_nat i)) ;;
  (* if the part id matches, copy to the output *)
  if p =? pid then
    copy_row (Z.of_nat i) >>
    eid <- lift (vector_at (eids (elements o)) (Z.of_nat i)) ;;
    modify (fun v => set_part
      (set_element_index
         (<[eid := Z.of_nat (length (eids (elements (part v)))) - 1]>
            (element_index (part v))) (part v)) v) >>
    copy_node n1 >> copy_node n2 >> copy_node n3 >> copy_node n4 >>
    copy_node n5 >> copy_node n6 >> copy_node n7 >> copy_node n8
  else ret tt.

(** [IsolatePart(parts, objects, pid)]: the part returned and [objects] as
    the call leaves it.  The argument [parts] is not used by the source. *)
Definition IsolatePart (parts : gmap Z Elements)
    (objects0 : FiniteElementObject) (pid : Z)
  : result FiniteElementObject * FiniteElementObject :=
  let (r, v) :=
    for_loop 0 (length (eids (elements objects0))) (IsolatePart_body pid)
             (mkVars objects0 no_FiniteElementObject) in
  (rbind r (fun _ => Normal (part v)), objects v).

(** The mutable locals of [Renumber_Nodes]. *)
Record Renumber_vars := mkRVars {
  node_remap : gmap Z Z;
  R : FiniteElementObject
}.

Definition set_R (r : FiniteElementObject) (v : Renumber_vars)
  : Renumber_vars := mkRVars (node_remap v) r.

(** [node_remap[k]], which enters [0] for an absent key. *)
Definition node_remap_index (k : Z) : M Renumber_vars Z :=
  fun v =>
    let (n, m) := map_index 0 (node_remap v) k in
    (Normal n, mkRVars m (R v)).

(** The body of the loop over the nodes. *)
Definition Renumber_node (part : FiniteElementObject) (j : nat)
  : M Renumber_vars unit :=
  nid <- lift (vector_at (nids (nodes part)) (Z.of_nat j)) ;;
  modify (fun v =>
    mkRVars (<[nid := Z.of_nat j + 1]> (node_remap v)) (R v)) >>
  modify (fun v => set_R
    (set_nodes (mkNodes (<[j := Z.of_nat j + 1]> (nids (nodes (R v))))
                        (x (nodes (R v))) (y (nodes (R v)))
                        (z (nodes (R v)))) (R v)) v) >>
  vx <- lift (vector_at (x (nodes part)) (Z.of_nat j)) ;;
  modify (fun v => set_R
    (set_nodes (mkNodes (nids (nodes (R v)))
                        (<[j := vx]> (x (nodes (R v)))) (y (nodes (R v)))
                        (z (nodes (R v)))) (R v)) v) >>
  vy <- lift (vector_at (y (nodes part)) (Z.of_nat j)) ;;
  modify (fun v => set_R
    (set_nodes (mkNodes (nids (nodes (R v)))
                        (x (nodes (R v))) (<[j := vy]> (y (nodes (R v))))
                        (z (nodes (R v)))) (R v)) v) >>
  vz <- lift (vector_at (z (nodes part)) (Z.of_nat j)) ;;
  modify (fun v => set_R
    (set_nodes (mkNodes (nids (nodes (R v)))
                        (x (nodes (R v))) (y (nodes (R v)))
                        (<[j := vz]> (z (nodes (R v))))) (R v)) v) >>
  modify (fun v => set_R
    (set_node_index (<[Z.of_nat j + 1 := Z.of_nat j]> (node_index (R v)))
                    (R v)) v).

(** The body of the loop over the elements. *)
Definition Renumber_element (part : FiniteElementObject) (j : nat)
  : M Renumber_vars unit :=
  ej <- lift (GetElement (elements part) (Z.of_nat j)) ;;
  a1 <- node_remap_index (get0 ej) ;;
  a2 <- node_remap_index (get1 ej) ;;
  a3 <- node_remap_index (get2 ej) ;;
  a4 <- node_remap_index (get3 ej) ;;
  a5 <- node_remap_index (get4 ej) ;;
  a6 <- node_remap_index (get5 ej) ;;
  a7 <- node_remap_index (get6 ej) ;;
  a8 <- node_remap_index (get7 ej) ;;
  let ej_new := mkElement a1 a2 a3 a4 a5 a6 a7 a8 in
  eid <- lift (GetElementID (elements part) (Z.of_nat j)) ;;
  pid <- lift (GetPartID (elements part) (Z.of_nat j)) ;;
  v <- gets R ;;
  (* renumber elements in order of appearance *)
  els <- lift (AddElement (Z.of_nat j + 1) pid ej_new (elements v)) ;;
  modify (fun v => set_R (set_elements els (R v)) v).

(** [Renumber_Nodes]: [node_remap[0] = 0], the four [resize]s, which
    value-initialise the new entries, and the two loops. *)
Definition Renumber_Nodes (part : FiniteElementObject)
  : result FiniteElementObject :=
  let init :=
    mkRVars (<[0 := 0]> ∅)
      (set_nodes
         (mkNodes (replicate (length (nids (nodes part))) 0)
                  (replicate (length (x (nodes part))) double_zero)
                  (replicate (length (y (nodes part))) double_zero)
                  (replicate (length (z (nodes part))) double_zero))
         no_FiniteElementObject) in
  let (r, v) :=
    (for_loop 0 (length (nids (nodes part))) (Renumber_node part) >>
     for_loop 0 (length (eids (elements part))) (Renumber_element part))
      init in
  rbind r (fun _ => Normal (R v)).

End Transform.

(** ** An implementation of the conversions, to run the model

    Numbers are kept as exact decimals [m * 10^e]: [lexical_cast] accepts an
    optional sign, digits with an optional decimal point and, for [double],
    an optional exponent; anything else throws.  Rounding to binary, the
    infinities and NaN are left out, none of which the examples need. *)
Module Decimal.

Fixpoint digits_value (s : string) (acc : Z) : option Z :=
  match s with
  | EmptyString => Some acc
  | String a s' =>
      if isdigit (chr a) then digits_value s' (10 * acc + (chr a - 48))
      else None
  end.

(** A non-empty run of digits. *)
Definition number_value (s : string) : option Z :=
  match s with
  | EmptyString => None
  | _ => digits_value s 0
  end.

(** An optional sign, then [f] on the rest. *)
Definition signed (f : string -> option Z) (s : string) : option Z :=
  match s with
  | String a s' =>
      if chr a =? chr "-" then Z.opp <$> f s'
      else if chr a =? chr "+" then f s'
      else f s
  | EmptyString => f s
  end.

Definition cast_int (s : string) : option Z :=
  match signed number_value s with
  | Some v => if (- 2 ^ 31 <=? v) && (v <? 2 ^ 31) then Some v else None
  | None => None
  end.

(** Splits [s] at the first character that satisfies [p]. *)
Fixpoint split_at (p : Z -> bool) (s : string) : string * option string :=
  match s with
  | EmptyString => (EmptyString, None)
  | String a s' =>
      if p (chr a) then (EmptyString, Some s')
      else let (l, r) := split_at p s' in (String a l, r)
  end.

(** The digits of a mantissa [<int>[.<frac>]], not both empty: its value
    without the point, and the number of digits after the point. *)
Definition mantissa (s : string) : option (Z * Z) :=
  let (ip, fp) := split_at (fun c => c =? chr ".") s in
  let fp := default EmptyString fp in
  match ip +:+ fp with
  | EmptyString => None
  | ds => (fun v => (v, Z.of_nat (String.length fp))) <$> digits_value ds 0
  end.

Definition cast_double (s : string) : option (Z * Z) :=
  let neg := match s with
             | String a _ => chr a =? chr "-"
             | EmptyString => false
             end in
  let body := match s with
              | String a s' =>
                  if (chr a =? chr "-") || (chr a =? chr "+") then s' else s
              | EmptyString => s
              end in
  let (ms, es) := split_at (fun c => (c =? chr "e") || (c =? chr "E")) body in
  match mantissa ms, match es with
                     | None => Some 0
                     | Some e => signed number_value e
                     end with
  | Some (m, k), Some e => Some (if neg then - m else m, e - k)
  | _, _ => None
  end.

(** Truncation toward zero. *)
Definition to_int (d : Z * Z) : Z :=
  let (m, e) := d in
  if 0 <=? e then m * 10 ^ e else Z.quot m (10 ^ (- e)).

Definition boost : Boost :=
  {| double := Z * Z;
     double_zero := (0, 0);
     lexical_cast_int := cast_int;
     lexical_cast_double := cast_double;
     double_to_int := to_int |}.

End Decimal.

Definition nl : string := String (ascii_of_N 10) EmptyString.

(** ** Inputs of the examples *)

(** ["1,2.5,-3.2E-01\n"] *)
Definition input_commas : string := "1,2.5,-3.2E-01" +:+ nl.

(** ["*NODE\n1 0.0\n"]: a node record without its y and z. *)
Definition input_truncated_node : string :=
  "*NODE" +:+ nl +:+ "1 0.0" +:+ nl.

(** ["1-2\n"] *)
Definition input_minus : string := "1-2" +:+ nl.

(** ["*NODE\n1 0.0 0.0 0.0\n2 0.0\n"]: a good node record, then a
    truncated one. *)
Definition input_second_node_truncated : string :=
  "*NODE" +:+ nl +:+ "1 0.0 0.0 0.0" +:+ nl +:+ "2 0.0" +:+ nl.

(** A mesh of two nodes and one element of part 5, with blank-separated
    fields. *)
Definition input_mesh : string :=
  "*NODE" +:+ nl +:+ "1 0.0 0.0 0.0" +:+ nl +:+ "2 1.0 0.0 0.0" +:+ nl +:+
  "*ELEMENT_SHELL" +:+ nl +:+ "10 5 1 2 0 0 0 0 0 0" +:+ nl +:+
  "*PART" +:+ nl +:+ "Plate" +:+ nl +:+ "5" +:+ nl.

(** A second file, whose element uses the id 10 again. *)
Definition input_same_element_id : string :=
  "*ELEMENT_SHELL" +:+ nl +:+ "10 6 2 1 0 0 0 0 0 0" +:+ nl.

(** The KeyFile after [input_mesh], while the second file is parsed: the
    lexer has returned the id of the element record. *)
Definition kf_at_second_element : KeyFile (B := Decimal.boost) :=
  set_lexer
    (Some (mkLexer (" 6 2 1 0 0 0 0 0 0" +:+ nl) 0
                   (Some (mkSymbol NUMBER "10")) 2))
    (Parse (B := Decimal.boost) 40 input_mesh new_KeyFile).2.

(** A run of decimal digits. *)
Fixpoint all_digits (s : string) : bool :=
  match s with
  | EmptyString => true
  | String a s' => isdigit (chr a) && all_digits s'
  end.

Definition comma_symbol : LexerSymbol := mkSymbol COMMA ",".

(** The token sequence that the specification gives for
    ["1,2.5,-3.2E-01\n"]. *)
Definition claimed_tokens : list (option LexerSymbol) :=
  [Some (mkSymbol NUMBER "1"); Some comma_symbol;
   Some (mkSymbol NUMBER "2.5"); Some comma_symbol;
   Some (mkSymbol NUMBER "-3.2E-01"); Some (mkSymbol NEWLINE nl)].

(** ** Documents: the data model that the transforms are specified on *)

Section Documents.
Context `{B : Boost}.

(** A row of the element table: id, part id and connectivity. *)
Definition Row : Type := Z * Z * Element.

Definition row_eid (r : Row) : Z := r.1.1.
Definition row_pid (r : Row) : Z := r.1.2.

(** The eight connectivity slots. *)
Definition slots (e : Element) : list Z :=
  [get0 e; get1 e; get2 e; get3 e; get4 e; get5 e; get6 e; get7 e].

Definition row_at (e : Elements) (i : nat) : option Row :=
  eid ← eids e !! i; pid ← pids e !! i;
  a1 ← n1 e !! i; a2 ← n2 e !! i; a3 ← n3 e !! i; a4 ← n4 e !! i;
  a5 ← n5 e !! i; a6 ← n6 e !! i; a7 ← n7 e !! i; a8 ← n8 e !! i;
  Some (eid, pid, mkElement a1 a2 a3 a4 a5 a6 a7 a8).

(** The element table, row by row. *)
Definition rows (e : Elements) : list Row :=
  omap (row_at e) (seq 0 (length (eids e))).

(** The ten column vectors of a list of rows. *)
Definition columns (l : list Row) : Elements :=
  mkElements (row_eid <$> l) (row_pid <$> l)
    ((fun r => get0 r.2) <$> l) ((fun r => get1 r.2) <$> l)
    ((fun r => get2 r.2) <$> l) ((fun r => get3 r.2) <$> l)
    ((fun r => get4 r.2) <$> l) ((fun r => get5 r.2) <$> l)
    ((fun r => get6 r.2) <$> l) ((fun r => get7 r.2) <$> l).

(** Every slot value of the rows, in the order in which [IsolatePart]
    looks at them. *)
Definition references (l : list Row) : list Z :=
  l ≫= (fun r => slots r.2).

(** The ten vectors of the element table have one length. *)
Definition parallel_elements (e : Elements) : bool :=
  forallb (fun l => Nat.eqb (length l) (length (eids e)))
    [pids e; n1 e; n2 e; n3 e; n4 e; n5 e; n6 e; n7 e; n8 e].

(** The four vectors of the node table have one length. *)
Definition parallel_nodes (n : Nodes) : bool :=
  Nat.eqb (length (x n)) (length (nids n)) &&
  Nat.eqb (length (y n)) (length (nids n)) &&
  Nat.eqb (length (z n)) (length (nids n)).

(** The node [nid] is stored in [D]: the index maps it to a position of the
    node table that holds this id and its coordinates. *)
Definition node_present (D : FiniteElementObject) (nid : Z) : bool :=
  match node_index D !! nid with
  | Some k =>
      (0 <=? k) &&
      bool_decide (nids (nodes D) !! Z.to_nat k = Some nid) &&
      bool_decide (is_Some (x (nodes D) !! Z.to_nat k)) &&
      bool_decide (is_Some (y (nodes D) !! Z.to_nat k)) &&
      bool_decide (is_Some (z (nodes D) !! Z.to_nat k))
  | None => false
  end.

(** Referential integrity: every nonzero slot names a node stored in [D]. *)
Definition referential_integrity (D : FiniteElementObject) : bool :=
  forallb (fun v => (v =? 0) || node_present D v)
          (references (rows (elements D))).

(** A reference to a node id that the node table of [D] does not know. *)
Definition dangling (D : FiniteElementObject) (v : Z) : bool :=
  negb (v =? 0) && bool_decide (node_index D !! v = None) &&
  bool_decide (v ∉ nids (nodes D)).

(** The position that [IsolatePart] reads the coordinates of [nid] from:
    the value of [objects.node_index[nid]]. *)
Definition position (D : FiniteElementObject) (nid : Z) : Z :=
  default 0 (node_index D !! nid).

(** [IsolatePart] can copy the node that a slot names: the slot is unused,
    or the position it reads exists. *)
Definition copyable (D : FiniteElementObject) (v : Z) : bool :=
  (v =? 0) ||
  ((0 <=? position D v) &&
   bool_decide (is_Some (x (nodes D) !! Z.to_nat (position D v))) &&
   bool_decide (is_Some (y (nodes D) !! Z.to_nat (position D v))) &&
   bool_decide (is_Some (z (nodes D) !! Z.to_nat (position D v)))).

(** The ids that [IsolatePart] appends to the node list when it meets the
    references [ids] with the nodes [seen] already copied: the first
    reference to a nonzero id wins. *)
Definition first_refs (seen ids : list Z) : list Z :=
  foldl (fun acc v =>
           if bool_decide (v ∈ acc) || (v =? 0) then acc else acc ++ [v])
        seen ids.

(** [objects.node_index] after the reads [objects.node_index[nid]] for the
    ids of [l]. *)
Definition touched (m : gmap Z Z) (l : list Z) : gmap Z Z :=
  foldl (fun m nid => (map_index 0 m nid).2) m l.

(** [node_remap] after [j] rounds of the first loop of [Renumber_Nodes]. *)
Fixpoint remap_upto (ids : list Z) (j : nat) : gmap Z Z :=
  match j with
  | O => <[0 := 0]> ∅
  | S j' =>
      match ids !! j' with
      | Some nid => <[nid := Z.of_nat j' + 1]> (remap_upto ids j')
      | None => remap_upto ids j'
      end
  end.

(** [R.node_index] after [j] rounds of that loop. *)
Fixpoint index_upto (j : nat) : gmap Z Z :=
  match j with
  | O => ∅
  | S j' => <[Z.of_nat j' + 1 := Z.of_nat j']> (index_upto j')
  end.

(** The new id of the old node id [v]: the value of [node_remap[v]] after
    the first loop. *)
Definition new_id (ids : list Z) (v : Z) : Z :=
  default 0 (remap_upto ids (length ids) !! v).

(** [1; 2; ...; n] *)
Definition dense (n : nat) : list Z := Z.of_nat <$> seq 1 n.

(** A vector of the size of [l] that holds the first [n] entries of [l] and
    value-initialised entries after them. *)
Definition refilled {A} (d : A) (n : nat) (l : list A) : list A :=
  take n l ++ replicate (length l - n) d.

(** The vectors that [Renumber_Nodes] reads are long enough for its
    loops. *)
Definition long_enough (P : FiniteElementObject) : bool :=
  forallb (fun k => Nat.leb (length (nids (nodes P))) k)
    [length (x (nodes P)); length (y (nodes P)); length (z (nodes P))] &&
  forallb (fun l => Nat.leb (length (eids (elements P))) (length l))
    [pids (elements P); n1 (elements P); n2 (elements P); n3 (elements P);
     n4 (elements P); n5 (elements P); n6 (elements P); n7 (elements P);
     n8 (elements P)].

(** What [Renumber_Nodes] returns, in closed form. *)
Definition Renumbered (P : FiniteElementObject) : FiniteElementObject :=
  let N := length (nids (nodes P)) in
  let M := length (eids (elements P)) in
  let f := new_id (nids (nodes P)) in
  mkFEO
    (mkNodes (dense N)
       (refilled double_zero N (x (nodes P)))
       (refilled double_zero N (y (nodes P)))
       (refilled double_zero N (z (nodes P))))
    (mkElements (dense M) (take M (pids (elements P)))
       (f <$> take M (n1 (elements P))) (f <$> take M (n2 (elements P)))
       (f <$> take M (n3 (elements P))) (f <$> take M (n4 (elements P)))
       (f <$> take M (n5 (elements P))) (f <$> take M (n6 (elements P)))
       (f <$> take M (n7 (elements P))) (f <$> take M (n8 (elements P))))
    ∅ (index_upto N).

(** Every nonzero slot of [P] names a node of [P]. *)
Definition references_nodes (P : FiniteElementObject) : bool :=
  forallb (fun v => (v =? 0) || bool_decide (v ∈ nids (nodes P)))
          (references (rows (elements P))).

(** The locals of [Renumber_Nodes] after [j] rounds of its first loop. *)
Definition node_loop_vars (P : FiniteElementObject) (j : nat)
  : Renumber_vars :=
  let N := length (nids (nodes P)) in
  mkRVars (remap_upto (nids (nodes P)) j)
    (mkFEO
       (mkNodes (dense j ++ replicate (N - j) 0)
          (refilled double_zero j (x (nodes P)))
          (refilled double_zero j (y (nodes P)))
          (refilled double_zero j (z (nodes P))))
       no_Elements ∅ (index_upto j)).

(** [R] after the first loop and [j] rounds of the second. *)
Definition element_loop_R (P : FiniteElementObject) (j : nat)
  : FiniteElementObject :=
  let N := length (nids (nodes P)) in
  let f := new_id (nids (nodes P)) in
  mkFEO
    (mkNodes (dense N)
       (refilled double_zero N (x (nodes P)))
       (refilled double_zero N (y (nodes P)))
       (refilled double_zero N (z (nodes P))))
    (mkElements (dense j) (take j (pids (elements P)))
       (f <$> take j (n1 (elements P))) (f <$> take j (n2 (elements P)))
       (f <$> take j (n3 (elements P))) (f <$> take j (n4 (elements P)))
       (f <$> take j (n5 (elements P))) (f <$> take j (n6 (elements P)))
       (f <$> take j (n7 (elements P))) (f <$> take j (n8 (elements P))))
    ∅ (index_upto N).


(** The values [vals] are those that the column [col] of the node table of
    [D] holds at the positions of the ids [ids]. *)
Definition copied_from (D : FiniteElementObject) (col : Nodes -> list double)
    (ids : list Z) (vals : list double) : Prop :=
  Forall2 (fun nid v => col (nodes D) !! Z.to_nat (position D nid) = Some v)
          ids vals.

(** The node table of [part] holds copies of nodes of [D], and its index
    maps exactly the ids of its node list, each to its position. *)
Definition nodes_copied (D part : FiniteElementObject) : Prop :=
  copied_from D x (nids (nodes part)) (x (nodes part)) /\
  copied_from D y (nids (nodes part)) (y (nodes part)) /\
  copied_from D z (nids (nodes part)) (z (nodes part)) /\
  (forall i nid, nids (nodes part) !! i = Some nid ->
                 node_index part !! nid = Some (Z.of_nat i)) /\
  (forall nid, nid ∉ nids (nodes part) -> node_index part !! nid = None).

(** The state of [IsolatePart] on [D] once it has looked at the references
    [ids]. *)
Definition IsolatePart_inv (D : FiniteElementObject) (ids : list Z)
    (v : IsolatePart_vars) : Prop :=
  nodes (objects v) = nodes D /\
  elements (objects v) = elements D /\
  element_index (objects v) = element_index D /\
  node_index (objects v)
    = touched (node_index D) (nids (nodes (part v))) /\
  nids (nodes (part v)) = first_refs [] ids /\
  nodes_copied D (part v).

(** The rows of part [p]. *)
Definition rows_of_part (p : Z) (l : list Row) : list Row :=
  filter (fun r => row_pid r = p) l.

(** The node table of [D] has a first entry. *)
Definition has_first_node (D : FiniteElementObject) : bool :=
  bool_decide (is_Some (x (nodes D) !! 0%nat)) &&
  bool_decide (is_Some (y (nodes D) !! 0%nat)) &&
  bool_decide (is_Some (z (nodes D) !! 0%nat)).

(** A slot that is unused, names a stored node, or names an id that the
    index of [D] does not know. *)
Definition present_or_unknown (D : FiniteElementObject) (v : Z) : bool :=
  (v =? 0) || node_present D v || bool_decide (node_index D !! v = None).

(** The eight connectivity columns of the element table. *)
Definition slot_columns (e : Elements) : list (list Z) :=
  [n1 e; n2 e; n3 e; n4 e; n5 e; n6 e; n7 e; n8 e].


End Documents.

(** ** Documents of the examples *)

(** Three nodes; two elements of part 5 and, between them, one of part 6. *)
Definition D_two_parts : FiniteElementObject (B := Decimal.boost) :=
  mkFEO (B := Decimal.boost)
    (mkNodes (B := Decimal.boost) [4; 2; 9] [(0, 0); (1, 0); (2, 0)] [(0, 0); (0, 0); (5, -1)]
             [(0, 0); (0, 0); (0, 0)])
    (mkElements [10; 11; 12] [5; 6; 5]
       [9; 2; 2] [2; 4; 9] [0; 0; 4] [0; 0; 0] [0; 0; 0] [0; 0; 0] [0; 0; 0]
       [0; 0; 0])
    (<[12 := 2]> (<[11 := 1]> (<[10 := 0]> ∅)))
    (<[9 := 2]> (<[2 := 1]> (<[4 := 0]> ∅))).

(** One node, and an element whose second slot names the id 99, which the
    node table does not have. *)
Definition D_dangling : FiniteElementObject (B := Decimal.boost) :=
  mkFEO (B := Decimal.boost)
    (mkNodes (B := Decimal.boost) [1] [(5, 0)] [(6, 0)] [(7, 0)])
    (mkElements [10] [5] [1] [99] [0] [0] [0] [0] [0] [0])
    (<[10 := 0]> ∅)
    (<[1 := 0]> ∅).

(** The part 5 of [D_two_parts]. *)
Definition P_part : FiniteElementObject (B := Decimal.boost) :=
  mkFEO (B := Decimal.boost)
    (mkNodes (B := Decimal.boost) [9; 2; 4] [(2, 0); (1, 0); (0, 0)]
             [(5, -1); (0, 0); (0, 0)] [(0, 0); (0, 0); (0, 0)])
    (mkElements [10; 12] [5; 5]
       [9; 2] [2; 9] [0; 4] [0; 0] [0; 0] [0; 0] [0; 0] [0; 0])
    (<[12 := 1]> (<[10 := 0]> ∅))
    (<[4 := 2]> (<[2 := 1]> (<[9 := 0]> ∅))).

(** ** Growth of the stored vectors *)

Section Growth.
Context `{B : Boost}.

Definition nodes_extend (n n' : Nodes) : Prop :=
  nids n `prefix_of` nids n' /\ x n `prefix_of` x n' /\
  y n `prefix_of` y n' /\ z n `prefix_of` z n'.

Definition elements_extend (e e' : Elements) : Prop :=
  eids e `prefix_of` eids e' /\ pids e `prefix_of` pids e' /\
  n1 e `prefix_of` n1 e' /\ n2 e `prefix_of` n2 e' /\
  n3 e `prefix_of` n3 e' /\ n4 e `prefix_of` n4 e' /\
  n5 e `prefix_of` n5 e' /\ n6 e `prefix_of` n6 e' /\
  n7 e `prefix_of` n7 e' /\ n8 e `prefix_of` n8 e'.

(** Every record stored in [o] is stored in [o'], at the same position. *)
Definition obj_extends (o o' : FiniteElementObject) : Prop :=
  nodes_extend (nodes o) (nodes o') /\
  elements_extend (elements o) (elements o').

(** A method that leaves the Document alone. *)
Definition keeps_obj {A} (m : M KeyFile A) : Prop :=
  forall kf, obj (m kf).2 = obj kf.

(** A method that only appends to the Document. *)
Definition grows_obj {A} (m : M KeyFile A) : Prop :=
  forall kf, obj_extends (obj kf) (obj (m kf).2).

(** A method that changes the Document only when it returns. *)
Definition stores_last {A} (m : M KeyFile A) : Prop :=
  forall kf,
    match (m kf).1 with
    | Normal _ => obj_extends (obj kf) (obj (m kf).2)
    | _ => obj (m kf).2 = obj kf
    end.

End Growth.

(** ** Character classes of the tokens *)

(** Every character of [s], read as a [char], satisfies [p]. *)
Fixpoint chars_all (p : Z -> bool) (s : string) : bool :=
  match s with
  | EmptyString => true
  | String a s' => p (to_char (chr a)) && chars_all p s'
  end.

(** A character that is not the newline. *)
Definition not_newline (c : Z) : bool := negb (c =? NL).

(** A character that the first loop of [IgnoreComment] skips. *)
Definition inside_line (c : Z) : bool := negb (c =? NL) && negb (c =? EOF).

(** The state in which [NextSymbol] leaves the lexer, by the type of the
    symbol that it returns from state [st]. *)
Definition state_after (st : Z) (t : SymbolType) : Z :=
  match t with
  | NEWLINE => 0
  | ASTERISK | WHITESPACE | WORD => 1
  | END_OF_FILE => -1
  | NUMBER | COMMA | COMMENT => st
  end.


(** The lexer once [NextSymbol] has passed the comment lines that are
    pending at the start of a line. *)
Definition after_comments (lx : KeyFileLexer) : KeyFileLexer :=
  if state lx =? 0
  then (comment_loop (String.length (stream lx))
                     (to_char (peek (stream lx))) lx).2
  else lx.

(** The number of newline characters of a string. *)
Fixpoint newlines (s : string) : Z :=
  match s with
  | EmptyString => 0
  | String a s' => (if to_char (chr a) =? NL then 1 else 0) + newlines s'
  end.

(** ["$ a comment\n*NODE\n"] *)
Definition input_comment : string :=
  "$ a comment" +:+ nl +:+ "*NODE" +:+ nl.

(** The number symbol that [AcceptNumber] reads at the start of [s]. *)
Definition number_at (s : string) : string :=
  symbol (AcceptNumber (new_KeyFileLexer s)).1.

(** ** Predicates on the state of the parser *)

(** A character that is not ['*']. *)
Definition no_asterisk (c : Z) : bool := negb (c =? chr "*").

Section ParserState.
Context `{B : Boost}.

(** A method that leaves [P] true, however it ends. *)
Definition preserves {A} (P : KeyFile -> Prop) (m : M KeyFile A) : Prop :=
  forall kf, P kf -> P (m kf).2.

(** A method that does not return from a state where [P] holds. *)
Definition never_returns {A} (P : KeyFile -> Prop) (m : M KeyFile A) : Prop :=
  forall kf a, P kf -> (m kf).1 <> Normal a.

(** The lexer of the KeyFile is set, and every character of its stream
    satisfies [p]. *)
Definition stream_chars (p : Z -> bool) (kf : KeyFile) : Prop :=
  exists lx, lexer kf = Some lx /\ chars_all p (stream lx) = true.

(** The lexer is set and has not returned [END_OF_FILE]. *)
Definition lexer_running (kf : KeyFile) : Prop :=
  exists lx, lexer kf = Some lx /\ (state lx = 0 \/ state lx = 1).

(** What the parser has stored. *)
Definition stored (kf : KeyFile) : FiniteElementObject * gmap Z Elements :=
  (obj kf, parts kf).

End ParserState.

(** ** The KeyFile that [Parse] maintains *)

Section Consistency.
Context `{B : Boost}.

(** [k] is the last position of [v] in [l]. *)
Definition last_position (l : list Z) (v k : Z) : Prop :=
  0 <= k /\ l !! Z.to_nat k = Some v /\
  forall j, (Z.to_nat k < j)%nat -> l !! j <> Some v.

(** The vectors of the two tables are parallel, the element ids are
    distinct, [element_index] maps exactly the element ids, each to its
    position, [node_index] maps exactly the node ids, each to its last
    position, and [parts] maps exactly the part ids that have elements, each
    to the rows of that part in the order of the element table. *)
Record consistent (kf : KeyFile) : Prop := mk_consistent {
  consistent_nodes : parallel_nodes (nodes (obj kf)) = true;
  consistent_elements : parallel_elements (elements (obj kf)) = true;
  consistent_eids : NoDup (eids (elements (obj kf)));
  consistent_element_index : forall eid k,
    element_index (obj kf) !! eid = Some k <->
    0 <= k /\ eids (elements (obj kf)) !! Z.to_nat k = Some eid;
  consistent_node_index : forall nid k,
    node_index (obj kf) !! nid = Some k <->
    last_position (nids (nodes (obj kf))) nid k;
  consistent_parts : forall pid els,
    parts kf !! pid = Some els <->
    els = columns (rows_of_part pid (rows (elements (obj kf)))) /\
    rows_of_part pid (rows (elements (obj kf))) <> []
}.

End Consistency.

(** ** Lookups by id, the second [AddNode] and the guard of the output *)

Section Lookups.
Context `{B : Boost}.

(** [Nodes::AddNode(int id, double x_, double y_, double z_)] *)
Definition AddNode_xyz (id : Z) (x_ y_ z_ : double) (n : Nodes) : Nodes :=
  {| nids := nids n ++ [id];
     x := x n ++ [x_];
     y := y n ++ [y_];
     z := z n ++ [z_] |}.

(** [Elements::FindElement(int eid_)].  The result is [None] when it throws
    [std::runtime_error("Could not find a requested element id")];
    otherwise [index] is the position of the first [eid_], and the eight
    [at(index)] are those of [GetElement(index)]. *)
Definition FindElement (e : Elements) (eid_ : Z) : option (result Element) :=
  match list_find (fun v => v = eid_) (eids e) with
  | None => None
  | Some (index, _) => Some (GetElement e (Z.of_nat index))
  end.

(** [std::unique] with [erase]: one element of every run of equal
    elements. *)
Fixpoint unique (l : list Z) : list Z :=
  match l with
  | [] => []
  | a :: l' =>
      match l' with
      | [] => [a]
      | b :: _ => if a =? b then unique l' else a :: unique l'
      end
  end.

(** The check that [OutputToFiles] makes before it writes: the sorted part
    ids without repetitions are one id.  [false] is the
    [std::runtime_error] "Internal error: cannot output a file for an
    object containing more than one part ID number."; the files written
    after the check are outside the model. *)
Definition OutputToFiles_accepts (o : FiniteElementObject) : bool :=
  Nat.eqb (length (unique (merge_sort Z.le (pids (elements o))))) 1.

End Lookups.

(** ** Further inputs of the examples *)

(** An element of part 6, which no [*PART] block names. *)
Definition input_same_part_unnamed : string :=
  "*ELEMENT_SHELL" +:+ nl +:+ "11 6 2 1 0 0 0 0 0 0" +:+ nl.

(** ** The element index of an extracted part *)

Section PartIndex.
Context `{B : Boost}.

(** [part.element_index] once [IsolatePart] has copied the rows [sel]:
    the statement [part.element_index[eid] = part.elements.eids.size() - 1]
    for each row, in order, with the number of rows copied so far. *)
Definition index_of_rows (sel : list Row) : gmap Z Z :=
  (foldl (fun mi r => (<[row_eid r := Z.of_nat mi.2]> mi.1, S mi.2))
         (∅, 0%nat) sel).1.

(** A method of [IsolatePart] that leaves [f] of its variables alone. *)
Definition leaves {X A} (f : IsolatePart_vars -> X)
    (m : M IsolatePart_vars A) : Prop :=
  forall v, f (m v).2 = f v.

End PartIndex.

(** ** What is left to read *)

(** A character that is not [',']. *)
Definition no_comma (c : Z) : bool := negb (c =? chr ",").

Section Remaining.
Context `{B : Boost}.

(** The number of calls of [NextSymbol] that can still return a symbol
    when the stream holds no comma: one for every character that is
    left, and one for [END_OF_FILE]. *)
Definition remaining (kf : KeyFile) : nat :=
  match lexer kf with
  | Some lx =>
      String.length (stream lx)
      + (if bool_decide (state lx = 0 \/ state lx = 1) then 1 else 0)
  | None => 0
  end.

(** The stream holds no comma, and at most [n] calls of [NextSymbol] can
    still return a symbol. *)
Definition within (n : nat) (kf : KeyFile) : Prop :=
  stream_chars no_comma kf /\ (remaining kf <= n)%nat.

(** A method that, from a state [within n], does not run out of fuel and
    leaves a state [within n]. *)
Definition ends_within {A} (n : nat) (m : M KeyFile A) : Prop :=
  forall kf, within n kf -> (m kf).1 <> OutOfFuel /\ within n (m kf).2.

End Remaining.

(** * Theorems *)

(** ** The tokenizer *)

Lemma skip_to_eol_length s :
  (String.length (skip_to_eol s) <= String.length s)%nat.
Proof.
  induction s as [|a s IH]; simpl; [lia|].
  destruct (negb _ && negb _); simpl; lia.
Qed.

Lemma IgnoreComment_shorter lx :
  stream lx <> EmptyString ->
  (String.length (stream (IgnoreComment lx).2) < String.length (stream lx))%nat.
Proof.
  unfold IgnoreComment; simpl. intros Hne.
  pose proof (skip_to_eol_length (stream lx)) as Hle.
  destruct (stream lx) as [|a s] eqn:E; [done|].
  destruct (skip_to_eol (String a s)) as [|b t] eqn:E'; simpl in *; lia.
Qed.

(** The fuel that [NextSymbol] gives to the comment loop is enough: the
    loop ends because the pending character is no longer ['$']. *)
Lemma comment_loop_done fuel lx :
  (String.length (stream lx) <= fuel)%nat ->
  (comment_loop fuel (to_char (peek (stream lx))) lx).1 <> chr "$".
Proof.
  revert lx. induction fuel as [|fuel IH]; intros lx Hlen.
  - destruct (stream lx); simpl in *; [done | lia].
  - simpl. destruct (_ =? chr "$") eqn:E; simpl; [|lia].
    assert (stream lx <> EmptyString) as Hne.
    { intros H0. rewrite H0 in E. done. }
    pose proof (IgnoreComment_shorter lx Hne) as Hlt.
    unfold IgnoreComment in *; simpl in *.
    apply (IH (incr_line (set_stream lx (ignore (skip_to_eol (stream lx)))))).
    simpl. lia.
Qed.

(** A comma that is pending at the start of a line is returned without
    being read, and the lexer stays where it is. *)
Lemma NextSymbol_comma lx rest :
  state lx = 0 ->
  stream lx = String "," rest ->
  NextSymbol lx = (Some comma_symbol, set_currentSymbol lx (Some comma_symbol)).
Proof.
  destruct lx as [s st cs cl]; simpl. intros -> ->. reflexivity.
Qed.

Lemma tokens_comma n lx rest :
  state lx = 0 ->
  stream lx = String "," rest ->
  tokens n lx = replicate n (Some comma_symbol).
Proof.
  revert lx. induction n as [|n IH]; intros lx Hst Hs; [done|].
  simpl. rewrite (NextSymbol_comma lx rest Hst Hs).
  f_equal. apply IH; done.
Qed.

Lemma AcceptNumber_state lx : state (AcceptNumber lx).2 = state lx.
Proof.
  unfold AcceptNumber.
  repeat match goal with
         | |- context [let (_, _) := ?e in _] => destruct e
         end.
  reflexivity.
Qed.

Lemma NextSymbol_number lx :
  state lx = 0 ->
  starts_number (to_char (peek (stream lx))) = true ->
  NextSymbol lx =
    (Some (AcceptNumber lx).1,
     set_currentSymbol (AcceptNumber lx).2 (Some (AcceptNumber lx).1)).
Proof.
  destruct lx as [s st cs cl]; simpl. intros -> Hc.
  unfold NextSymbol; simpl.
  destruct s as [|a s]; [done|].
  simpl in *. set (c := to_char (chr a)) in *.
  assert (48 <= c <= 57 \/ c = 45) as Hr.
  { unfold starts_number in Hc. change (chr "0") with 48 in Hc.
    change (chr "9") with 57 in Hc. change (chr "-") with 45 in Hc. lia. }
  change (chr "$") with 36. change (chr "*") with 42.
  change (chr ",") with 44. unfold NL, is_blank. change (chr " ") with 32.
  replace (c =? 36) with false by lia. simpl.
  replace (c =? 42) with false by lia.
  replace (c =? 10) with false by lia.
  replace (c =? 32) with false by lia.
  replace (c =? 9) with false by lia.
  replace (c =? 12) with false by lia.
  replace (c =? 11) with false by lia.
  replace (c =? 44) with false by lia. simpl.
  fold c. rewrite Hc.
  destruct (AcceptNumber _) as [sy lx']. reflexivity.
Qed.

(** C10: a comma pending in the line-start state is returned as a Comma
    token without any character being read and without a change of state,
    so the next call returns the same Comma from the same position;
    [AcceptNumber] never changes the state, so this is what happens after
    any number that starts a line and is followed at once by a comma. *)
Theorem comma_at_line_start_is_not_consumed :
  (forall lx rest,
     state lx = 0 -> stream lx = String "," rest ->
     (NextSymbol lx).1 = Some comma_symbol /\
     stream (NextSymbol lx).2 = stream lx /\
     state (NextSymbol lx).2 = 0 /\
     (NextSymbol (NextSymbol lx).2).1 = Some comma_symbol /\
     stream (NextSymbol (NextSymbol lx).2).2 = stream lx) /\
  (forall lx, state (AcceptNumber lx).2 = state lx) /\
  (forall lx rest,
     state lx = 0 ->
     starts_number (to_char (peek (stream lx))) = true ->
     stream (AcceptNumber lx).2 = String "," rest ->
     exists num,
       (NextSymbol lx).1 = Some num /\ type num = NUMBER /\
       forall n, tokens n (NextSymbol lx).2 = replicate n (Some comma_symbol)).
Proof.
  split; [|split].
  - intros lx rest Hst Hs.
    rewrite (NextSymbol_comma lx rest Hst Hs). simpl.
    rewrite (NextSymbol_comma (set_currentSymbol lx _) rest Hst Hs).
    simpl. done.
  - apply AcceptNumber_state.
  - intros lx rest Hst Hc Hs.
    rewrite (NextSymbol_number lx Hst Hc). simpl.
    exists (AcceptNumber lx).1. split; [done|]. split.
    + unfold AcceptNumber.
      repeat match goal with
             | |- context [let (_, _) := ?e in _] => destruct e
             end.
      reflexivity.
    + intros n. apply (tokens_comma n _ rest); simpl.
      * rewrite AcceptNumber_state. done.
      * done.
Qed.

Lemma comma_at_line_start_is_not_consumed_witness :
  state (new_KeyFileLexer input_commas) = 0 /\
  tokens 3 (NextSymbol (new_KeyFileLexer input_commas)).2
  = replicate 3 (Some comma_symbol).
Proof.
  split; [reflexivity|].
  destruct (proj2 (proj2 comma_at_line_start_is_not_consumed)
              (new_KeyFileLexer input_commas) ("2.5,-3.2E-01" +:+ nl)
              eq_refl eq_refl eq_refl) as [num [_ [_ H]]].
  exact (H 3%nat).
Defined.

(** C3, on the code: tokenizing ["1,2.5,-3.2E-01\n"] from the line-start
    state yields Number("1") and then Comma at every further call, because
    the comma is never read; the six tokens of the specification are not
    what the lexer returns. *)
Theorem tokens_of_comma_line :
  (forall n, tokens (S n) (new_KeyFileLexer input_commas)
             = Some (mkSymbol NUMBER "1") :: replicate n (Some comma_symbol)) /\
  tokens 6 (new_KeyFileLexer input_commas) <> claimed_tokens.
Proof.
  split; [|discriminate].
  intros n. cbn [tokens].
  change (NextSymbol (new_KeyFileLexer input_commas))
    with (Some (mkSymbol NUMBER "1"),
          mkLexer ("," +:+ "2.5,-3.2E-01" +:+ nl) 0
                  (Some (mkSymbol NUMBER "1")) 1).
  f_equal. apply (tokens_comma n _ ("2.5,-3.2E-01" +:+ nl)); reflexivity.
Qed.

Lemma to_char_chr_eq a k :
  0 <= k <= 127 -> to_char (chr a) = k -> a = ascii_of_N (Z.to_N k).
Proof.
  intros Hk H. unfold to_char, chr in H.
  pose proof (N_ascii_bounded a) as Hb.
  destruct (127 <? Z.of_N (N_of_ascii a)) eqn:E; [lia|].
  rewrite <- H, N2Z.id. symmetry. apply ascii_N_embedding.
Qed.

Lemma read_while_digits s :
  all_digits (read_while digit_cond s).1 = true.
Proof.
  induction s as [|a s IH]; simpl; [done|].
  destruct (digit_cond (to_char (chr a))) eqn:E; [|done].
  destruct (read_while digit_cond s) as [w r]. simpl in *.
  rewrite IH, andb_true_r.
  unfold digit_cond, isdigit, to_char, chr, NL, EOF in *.
  pose proof (N_ascii_bounded a).
  destruct (127 <? Z.of_N (N_of_ascii a)) eqn:E'; lia.
Qed.

(** The lexical shape of the Number tokens that [AcceptNumber] returns: one
    character, digits, an optional point, digits, an optional exponent
    marker, an optional sign, digits.  The sign does not depend on the
    exponent marker. *)
Lemma AcceptNumber_shape lx :
  exists c0 d1 dot d2 ex sg d3,
    (AcceptNumber lx).1
    = mkSymbol NUMBER (c0 +:+ d1 +:+ dot +:+ d2 +:+ ex +:+ sg +:+ d3) /\
    String.length c0 = 1%nat /\
    all_digits d1 = true /\ all_digits d2 = true /\ all_digits d3 = true /\
    (dot = EmptyString \/ dot = ".") /\
    (ex = EmptyString \/ ex = "e" \/ ex = "E") /\
    (sg = EmptyString \/ sg = "-" \/ sg = "+").
Proof.
  unfold AcceptNumber.
  destruct (get (stream lx)) as [c0 s1] eqn:E0.
  pose proof (read_while_digits s1) as D1.
  destruct (read_while digit_cond s1) as [d1 s2].
  destruct (get_if (peek s2 =? chr ".") s2) as [dot s3] eqn:Edot.
  pose proof (read_while_digits s3) as D2.
  destruct (read_while digit_cond s3) as [d2 s4].
  destruct (get_if _ s4) as [ex s5] eqn:Eex.
  destruct (get_if _ s5) as [sg s6] eqn:Esg.
  pose proof (read_while_digits s6) as D3.
  destruct (read_while digit_cond s6) as [d3 s7].
  exists c0, d1, dot, d2, ex, sg, d3. simpl in *.
  split; [done|]. split.
  { unfold get in E0. destruct (stream lx); by inversion E0. }
  repeat split; try done.
  - unfold get_if in Edot.
    destruct (peek s2 =? chr ".") eqn:E; [|inversion Edot; by left].
    destruct s2 as [|a s2]; [done|]. simpl in *. inversion Edot; subst.
    right. f_equal.
    apply (to_char_chr_eq a 46); [lia|]. unfold to_char.
    change (chr ".") with 46 in E. replace (127 <? chr a) with false by lia.
    lia.
  - unfold get_if in Eex.
    match type of Eex with
    | context [if ?b then _ else _] => destruct b eqn:E
    end; [|inversion Eex; by left].
    destruct s4 as [|a s4]; [done|]. simpl in *. inversion Eex; subst.
    change (chr "e") with 101 in E. change (chr "E") with 69 in E.
    apply orb_true_iff in E as [E|E]; [right; left|right; right]; f_equal.
    + apply (to_char_chr_eq a 101); lia.
    + apply (to_char_chr_eq a 69); lia.
  - unfold get_if in Esg.
    match type of Esg with
    | context [if ?b then _ else _] => destruct b eqn:E
    end; [|inversion Esg; by left].
    destruct s5 as [|a s5]; [done|]. simpl in *. inversion Esg; subst.
    change (chr "-") with 45 in E. change (chr "+") with 43 in E.
    apply orb_true_iff in E as [E|E]; [right; left|right; right]; f_equal.
    + apply (to_char_chr_eq a 45); lia.
    + apply (to_char_chr_eq a 43); lia.
Qed.

(** C9, on the code: the sign after the digits of ["1-2"] is taken into
    the Number token although no exponent marker precedes it. *)
Theorem number_token_takes_sign_without_exponent :
  (NextSymbol (new_KeyFileLexer input_minus)).1
  = Some (mkSymbol NUMBER "1-2").
Proof. reflexivity. Qed.

(** ** The block parser *)

Section ParserFacts.
Context `{B : Boost}.


Lemma bind_Normal {St A C} (m : M St A) (k : A -> M St C) s a s' :
  m s = (Normal a, s') -> bind m k s = k a s'.
Proof. unfold bind. intros ->. reflexivity. Qed.

Lemma bind_Throw {St A C} (m : M St A) (k : A -> M St C) s e s' :
  m s = (Throw e, s') -> bind m k s = (Throw e, s').
Proof. unfold bind. intros ->. reflexivity. Qed.

Lemma Parse_loop_S fuel sy st :
  type sy <> END_OF_FILE ->
  Parse_loop (S fuel) sy st
  = (st' <- Parse_step fuel sy st ;;
     sy' <- lexer_NextSymbol ;;
     Parse_loop fuel sy' st').
Proof. intros H. simpl. rewrite bool_decide_eq_false_2; done. Qed.

(** Runs a step whose outcome is determined by the state at hand. *)
Ltac run_closed :=
  cbv -[lexical_cast_int lexical_cast_double double_to_int
        AcceptNode AcceptElement AcceptPart Parse_loop Z.add];
  reflexivity.

Ltac mrun :=
  repeat first
    [ erewrite bind_Normal by run_closed
    | erewrite bind_Throw by run_closed ].

Ltac mcast H :=
  first [ unfold cast_int at 1 | unfold cast_double at 1 ];
  simpl symbol; rewrite H; mrun.

Lemma AcceptNode_truncated fuel nid vx cl o pn ps :
  lexical_cast_int "1" = Some nid ->
  lexical_cast_double "0.0" = Some vx ->
  AcceptNode fuel
    (mkKeyFile (Some (mkLexer (" 0.0" +:+ nl) 0
                              (Some (mkSymbol NUMBER "1")) cl)) o pn ps)
  = (Throw (SyntaxError (cl + 1)),
     mkKeyFile (Some (mkLexer EmptyString 0 (Some (mkSymbol NEWLINE nl)) (cl + 1)))
               o pn ps).
Proof.
  intros Hn Hx. unfold AcceptNode.
  mrun. mcast Hn. mcast Hx. reflexivity.
Qed.

Lemma Parse_loop_truncated fuel nid vx o pn ps :
  lexical_cast_int "1" = Some nid ->
  lexical_cast_double "0.0" = Some vx ->
  Parse_loop (4 + fuel) (mkSymbol ASTERISK "*") 0
    (mkKeyFile (Some (mkLexer ("NODE" +:+ nl +:+ "1 0.0" +:+ nl) 1
                              (Some (mkSymbol ASTERISK "*")) 1)) o pn ps)
  = (Throw (SyntaxError 3),
     mkKeyFile (Some (mkLexer EmptyString 0 (Some (mkSymbol NEWLINE nl)) 3)) o pn ps).
Proof.
  intros Hn Hx.
  change (4 + fuel)%nat with (S (S (S (S fuel)))).
  rewrite Parse_loop_S by done. mrun.
  rewrite Parse_loop_S by done. mrun.
  rewrite Parse_loop_S by done. mrun.
  rewrite Parse_loop_S by done.
  unfold Parse_step at 1. simpl.
  erewrite bind_Throw by
    (erewrite bind_Throw by (apply (AcceptNode_truncated _ nid vx); done);
     reflexivity).
  reflexivity.
Qed.

(** C4, on the code: parsing ["*NODE\n1 0.0\n"] throws the syntax error
    with line number 3, the line after the truncated record, because the
    newline that ends the record has been counted when the error is found;
    the Document is left as it was. *)
Theorem Parse_truncated_node_cites_next_line fuel kf nid vx :
  lexical_cast_int "1" = Some nid ->
  lexical_cast_double "0.0" = Some vx ->
  (Parse (4 + fuel) input_truncated_node kf).1 = Throw (SyntaxError 3) /\
  obj (Parse (4 + fuel) input_truncated_node kf).2 = obj kf.
Proof.
  intros Hn Hx. destruct kf as [l o pn ps].
  unfold Parse. mrun.
  erewrite bind_Throw by (apply (Parse_loop_truncated fuel nid vx); done).
  done.
Qed.


(** *** What the methods do to the Document *)

Lemma nodes_extend_refl n : nodes_extend n n.
Proof. by repeat split. Qed.

Lemma elements_extend_refl e : elements_extend e e.
Proof. by repeat split. Qed.

Lemma obj_extends_refl o : obj_extends o o.
Proof. split; [apply nodes_extend_refl | apply elements_extend_refl]. Qed.

Lemma obj_extends_trans o1 o2 o3 :
  obj_extends o1 o2 -> obj_extends o2 o3 -> obj_extends o1 o3.
Proof.
  unfold obj_extends, nodes_extend, elements_extend.
  intros H12 H23. destruct_and!. repeat split; by etrans.
Qed.

Lemma keeps_grows {A} (m : M KeyFile A) : keeps_obj m -> grows_obj m.
Proof. intros H kf. rewrite H. apply obj_extends_refl. Qed.

Lemma bind_keeps {A C} (m : M KeyFile A) (k : A -> M KeyFile C) :
  keeps_obj m -> (forall a, keeps_obj (k a)) -> keeps_obj (bind m k).
Proof.
  intros Hm Hk kf. unfold bind. specialize (Hm kf).
  destruct (m kf) as [[a|e| |] s']; simpl in *; [rewrite Hk|..]; done.
Qed.

Lemma bind_grows {A C} (m : M KeyFile A) (k : A -> M KeyFile C) :
  grows_obj m -> (forall a, grows_obj (k a)) -> grows_obj (bind m k).
Proof.
  intros Hm Hk kf. unfold bind. specialize (Hm kf).
  destruct (m kf) as [[a|e| |] s']; simpl in *; try done.
  eapply obj_extends_trans; [exact Hm | apply Hk].
Qed.

Lemma ret_keeps {A} (a : A) : keeps_obj (ret a).
Proof. done. Qed.

Lemma throw_keeps {A} e : keeps_obj (throw (A := A) e).
Proof. done. Qed.

Lemma lift_keeps {A} (r : result A) : keeps_obj (lift r).
Proof. done. Qed.

Lemma modify_keeps (f : KeyFile -> KeyFile) :
  (forall kf, obj (f kf) = obj kf) -> keeps_obj (modify f).
Proof. intros H kf. apply H. Qed.

Lemma lexer_NextSymbol_keeps : keeps_obj lexer_NextSymbol.
Proof.
  intros kf. unfold lexer_NextSymbol.
  destruct (lexer kf); [destruct (NextSymbol _)|]; done.
Qed.

Lemma lexer_GetCurrentSymbol_keeps : keeps_obj lexer_GetCurrentSymbol.
Proof. intros kf. unfold lexer_GetCurrentSymbol. by destruct (lexer kf). Qed.

Lemma lexer_GetCurrentLine_keeps : keeps_obj lexer_GetCurrentLine.
Proof. intros kf. unfold lexer_GetCurrentLine. by destruct (lexer kf). Qed.

Lemma cast_int_keeps s : keeps_obj (cast_int s).
Proof. unfold cast_int. by destruct (lexical_cast_int s). Qed.

Lemma cast_double_keeps s : keeps_obj (cast_double s).
Proof. unfold cast_double. by destruct (lexical_cast_double s). Qed.

(** Splits a goal about a method along its [bind]s and branches. *)
Ltac keeps_step :=
  first
    [ apply bind_keeps | apply ret_keeps | apply throw_keeps
    | apply lift_keeps | apply lexer_NextSymbol_keeps
    | apply lexer_GetCurrentSymbol_keeps | apply lexer_GetCurrentLine_keeps
    | apply cast_int_keeps | apply cast_double_keeps
    | assumption
    | match goal with
      | |- keeps_obj (if ?b then _ else _) => destruct b
      | |- keeps_obj (match ?v with _ => _ end) => destruct v
      end ].

Ltac keeps :=
  repeat first
    [ match goal with |- forall _, _ => intro end
    | progress cbv beta
    | keeps_step ].

Lemma throw_malformed_keeps {A} : keeps_obj (throw_malformed (A := A)).
Proof. unfold throw_malformed. keeps. Qed.

Lemma expect_separator_keeps : keeps_obj expect_separator.
Proof. unfold expect_separator. keeps. Qed.

Lemma expect_number_keeps : keeps_obj expect_number.
Proof. unfold expect_number. keeps. Qed.

Lemma skip_until_keeps fuel t : keeps_obj (skip_until fuel t).
Proof. induction fuel as [|fuel IH]; simpl; keeps. Qed.

Lemma read_part_name_keeps fuel name : keeps_obj (read_part_name fuel name).
Proof.
  revert name. induction fuel as [|fuel IH]; intros name; simpl; keeps.
  apply IH.
Qed.

Lemma read_connectivity_keeps n : keeps_obj (read_connectivity n).
Proof.
  induction n as [|n IH]; simpl; keeps;
    auto using expect_separator_keeps, expect_number_keeps.
Qed.

Lemma read_element_record_keeps : keeps_obj read_element_record.
Proof.
  unfold read_element_record. keeps;
    auto using expect_separator_keeps, expect_number_keeps,
      read_connectivity_keeps.
Qed.

Lemma AcceptPart_keeps fuel : keeps_obj (AcceptPart fuel).
Proof.
  unfold AcceptPart. keeps;
    auto using read_part_name_keeps, skip_until_keeps.
  by apply modify_keeps.
Qed.

Lemma store_node_extends nid n kf :
  obj_extends (obj kf) (obj (store_node nid n kf)).
Proof.
  split; [|apply elements_extend_refl].
  repeat split; simpl; by apply prefix_app_r.
Qed.


Lemma bind_keeps_stores_last {A C} (m : M KeyFile A) (k : A -> M KeyFile C) :
  keeps_obj m -> (forall a, stores_last (k a)) -> stores_last (bind m k).
Proof.
  intros Hm Hk kf. unfold bind. specialize (Hm kf).
  destruct (m kf) as [[a|e| |] s']; simpl in *; try done.
  specialize (Hk a s'). rewrite <- Hm. done.
Qed.

(** [AcceptNode] stores the node in its last step: when it does not return,
    the Document is as it was. *)
Lemma AcceptNode_stores_last fuel : stores_last (AcceptNode fuel).
Proof.
  unfold AcceptNode.
  repeat (apply bind_keeps_stores_last;
          [ first [ apply lexer_GetCurrentSymbol_keeps | apply cast_int_keeps
                  | apply cast_double_keeps | apply expect_separator_keeps
                  | apply lexer_NextSymbol_keeps | apply skip_until_keeps ]
          | intros ? ]).
  intros kf. apply store_node_extends.
Qed.

Lemma stores_last_grows {A} (m : M KeyFile A) : stores_last m -> grows_obj m.
Proof.
  intros H kf. specialize (H kf).
  destruct (m kf).1; try done; rewrite H; apply obj_extends_refl.
Qed.

Lemma obj_AddElement_grows eid pid e : grows_obj (obj_AddElement eid pid e).
Proof.
  intros kf. unfold obj_AddElement, AddElement.
  case_bool_decide; simpl; [apply obj_extends_refl|].
  split; [apply nodes_extend_refl|].
  repeat split; simpl; by apply prefix_app_r.
Qed.

Lemma index_element_grows eid : grows_obj (modify (index_element eid)).
Proof.
  intros kf. split; [apply nodes_extend_refl | apply elements_extend_refl].
Qed.

Lemma parts_AddElement_keeps eid pid e : keeps_obj (parts_AddElement eid pid e).
Proof.
  intros kf. unfold parts_AddElement.
  destruct (map_index _ _ _) as [els ps]. by destruct (AddElement _ _ _ _).
Qed.

Lemma AcceptElement_grows : grows_obj AcceptElement.
Proof.
  unfold AcceptElement. apply bind_grows.
  - apply keeps_grows, read_element_record_keeps.
  - intros [[eid pid] e].
    apply bind_grows; [apply obj_AddElement_grows|intros _].
    apply bind_grows; [apply index_element_grows|intros _].
    apply keeps_grows, parts_AddElement_keeps.
Qed.

(** A syntax error of [AcceptElement] comes from the reading of the
    record, before anything is stored. *)
Lemma AcceptElement_syntax_error kf l :
  (AcceptElement kf).1 = Throw (SyntaxError l) ->
  obj (AcceptElement kf).2 = obj kf.
Proof.
  pose proof (read_element_record_keeps kf) as Hr.
  unfold AcceptElement, bind.
  destruct (read_element_record kf) as [[[[eid pid] e]|ex| |] s'];
    simpl in *; try done.
  unfold obj_AddElement, AddElement.
  case_bool_decide; simpl; [done|].
  unfold parts_AddElement, modify; simpl.
  destruct (map_index _ _ _) as [els ps]. unfold AddElement.
  case_bool_decide; simpl; done.
Qed.

Lemma Parse_step_grows fuel sy st : grows_obj (Parse_step fuel sy st).
Proof.
  unfold Parse_step.
  repeat match goal with
         | |- grows_obj (if ?b then _ else _) => destruct b
         | |- grows_obj (match ?v with _ => _ end) => destruct v
         end;
    try (apply keeps_grows, ret_keeps);
    (apply bind_grows; [|intros; apply keeps_grows, ret_keeps]).
  - apply stores_last_grows, AcceptNode_stores_last.
  - apply AcceptElement_grows.
  - apply keeps_grows, AcceptPart_keeps.
Qed.

Lemma Parse_loop_grows fuel sy st : grows_obj (Parse_loop fuel sy st).
Proof.
  revert sy st. induction fuel as [|fuel IH]; intros sy st; simpl;
    case_bool_decide; try (apply keeps_grows; keeps; fail).
  apply bind_grows; [apply Parse_step_grows|intros st'].
  apply bind_grows; [apply keeps_grows, lexer_NextSymbol_keeps|intros sy'].
  apply IH.
Qed.

Lemma Parse_grows fuel contents : grows_obj (Parse fuel contents).
Proof.
  unfold Parse.
  apply bind_grows; [by apply keeps_grows, modify_keeps|intros _].
  apply bind_grows; [apply keeps_grows, lexer_NextSymbol_keeps|intros sy].
  apply bind_grows; [apply Parse_loop_grows|intros _].
  apply keeps_grows.
  apply bind_keeps; [by apply modify_keeps | intros _; by apply modify_keeps].
Qed.

(** C6, as the code has it: a syntax error leaves out the record that was
    being read, and nothing else: [AcceptNode] and [AcceptElement] leave the
    Document as it was when they throw a syntax error, and however the
    parsing loop and [Parse] end, from any point of the parse on, every node
    and element stored so far is still stored, at its position, in the
    Document they leave behind. *)
Theorem syntax_error_keeps_stored_records :
  (forall fuel kf l,
     (AcceptNode fuel kf).1 = Throw (SyntaxError l) ->
     obj (AcceptNode fuel kf).2 = obj kf) /\
  (forall kf l,
     (AcceptElement kf).1 = Throw (SyntaxError l) ->
     obj (AcceptElement kf).2 = obj kf) /\
  (forall fuel sy st kf l,
     (Parse_loop fuel sy st kf).1 = Throw (SyntaxError l) ->
     obj_extends (obj kf) (obj (Parse_loop fuel sy st kf).2)) /\
  (forall fuel contents kf l,
     (Parse fuel contents kf).1 = Throw (SyntaxError l) ->
     obj_extends (obj kf) (obj (Parse fuel contents kf).2)).
Proof.
  split; [|split; [|split]].
  - intros fuel kf l H. pose proof (AcceptNode_stores_last fuel kf) as Hs.
    by rewrite H in Hs.
  - apply AcceptElement_syntax_error.
  - intros. apply Parse_loop_grows.
  - intros. apply Parse_grows.
Qed.

(** C7: an element record that has been read and whose id is the id of
    an element of the accumulated Document, whichever file stored it, makes
    [AddElement], [AcceptElement] and the parsing loop throw the
    duplicate-id error, and the Document stays as it was: the record is not
    stored. *)
Theorem duplicate_element_id_is_rejected kf eid pid e :
  (read_element_record kf).1 = Normal (eid, pid, e) ->
  eid ∈ eids (elements (obj kf)) ->
  AddElement eid pid e (elements (obj kf)) = Throw DuplicateIdError /\
  (AcceptElement kf).1 = Throw DuplicateIdError /\
  obj (AcceptElement kf).2 = obj kf /\
  forall fuel sy,
    type sy = NUMBER ->
    (Parse_loop (S fuel) sy 3 kf).1 = Throw DuplicateIdError /\
    obj (Parse_loop (S fuel) sy 3 kf).2 = obj kf.
Proof.
  intros Hr Hin.
  destruct (read_element_record kf) as [r kf1] eqn:Hrec. simpl in Hr. subst r.
  assert (obj kf1 = obj kf) as Ho.
  { pose proof (read_element_record_keeps kf) as H. by rewrite Hrec in H. }
  assert (AddElement eid pid e (elements (obj kf)) = Throw DuplicateIdError)
    as Ha.
  { unfold AddElement. by rewrite bool_decide_eq_true_2. }
  assert (AcceptElement kf = (Throw DuplicateIdError, kf1)) as Hacc.
  { unfold AcceptElement. rewrite (bind_Normal _ _ _ _ _ Hrec).
    apply bind_Throw. unfold obj_AddElement. by rewrite Ho, Ha. }
  rewrite Hacc. repeat split; try done.
  all: rewrite Parse_loop_S by (by rewrite H);
    erewrite bind_Throw;
    [ done
    | unfold Parse_step; simpl; rewrite H; by apply bind_Throw ].
Qed.

End ParserFacts.

Lemma Parse_truncated_node_cites_next_line_witness :
  (Parse (B := Decimal.boost) 4 input_truncated_node new_KeyFile).1
  = Throw (SyntaxError 3).
Proof.
  apply (Parse_truncated_node_cites_next_line (B := Decimal.boost)
           0 new_KeyFile 1 (0, -1)); reflexivity.
Defined.

(** C6 fails as stated: the parse of ["*NODE\n1 0.0 0.0 0.0\n2 0.0\n"]
    into an empty KeyFile ends with a syntax error, and node 1 of that input
    is stored in the Document that the failed parse leaves. *)
Lemma failed_parse_retains_earlier_node :
  (Parse (B := Decimal.boost) 20 input_second_node_truncated new_KeyFile).1
  = Throw (SyntaxError 4) /\
  nids (nodes (obj (Parse (B := Decimal.boost) 20 input_second_node_truncated
                      new_KeyFile).2)) = [1] /\
  x (nodes (obj (Parse (B := Decimal.boost) 20 input_second_node_truncated
                   new_KeyFile).2)) = [(0, -1)] /\
  nids (nodes (obj (new_KeyFile (B := Decimal.boost)))) = [].
Proof. vm_compute. done. Qed.

Lemma syntax_error_keeps_stored_records_witness :
  (Parse (B := Decimal.boost) 20 input_second_node_truncated new_KeyFile).1
  = Throw (SyntaxError 4) /\
  obj_extends (obj (new_KeyFile (B := Decimal.boost)))
    (obj (Parse (B := Decimal.boost) 20 input_second_node_truncated
            new_KeyFile).2).
Proof.
  split; [vm_compute; reflexivity|].
  apply (proj2 (proj2 (proj2 (syntax_error_keeps_stored_records
                                (B := Decimal.boost))))
           20%nat input_second_node_truncated new_KeyFile 4).
  vm_compute; reflexivity.
Defined.

Lemma duplicate_element_id_is_rejected_witness :
  (AcceptElement kf_at_second_element).1 = Throw DuplicateIdError.
Proof.
  apply (duplicate_element_id_is_rejected (B := Decimal.boost)
           kf_at_second_element 10 6 (mkElement 2 1 0 0 0 0 0 0)).
  - vm_compute; reflexivity.
  - vm_compute. apply list_elem_of_here.
Defined.

(** The same, from the two files: appending the second file to the KeyFile
    of the first ends with the duplicate-id error. *)
Example duplicate_element_id_across_files :
  (Append (B := Decimal.boost) 40 input_same_element_id
     (Append (B := Decimal.boost) 40 input_mesh new_KeyFile).2).1
  = Throw DuplicateIdError.
Proof. vm_compute; reflexivity. Qed.

(** ** Loops and vectors *)

Lemma for_loop_inv {St} (Inv : nat -> St -> Prop) (body : nat -> M St unit) n :
  forall i s,
    Inv i s ->
    (forall j s, (i <= j < i + n)%nat -> Inv j s ->
                 exists s', body j s = (Normal tt, s') /\ Inv (S j) s') ->
    exists s', for_loop i n body s = (Normal tt, s') /\ Inv (i + n)%nat s'.
Proof.
  induction n as [|n IH]; intros i s Hi Hstep; simpl.
  - exists s. rewrite Nat.add_0_r. done.
  - destruct (Hstep i s ltac:(lia) Hi) as (s1 & E1 & H1).
    rewrite (bind_Normal _ _ _ _ _ E1).
    destruct (IH (S i) s1 H1) as (s2 & E2 & H2).
    { intros j s' Hj. apply Hstep. lia. }
    exists s2. split; [done|]. by replace (i + S n)%nat with (S i + n)%nat by lia.
Qed.

Lemma for_loop_Normal_body {St} (body : nat -> M St unit) n :
  forall i s s',
    for_loop i n body s = (Normal tt, s') ->
    forall j, (i <= j < i + n)%nat ->
              exists sj sj', body j sj = (Normal tt, sj').
Proof.
  induction n as [|n IH]; intros i s s' E j Hj; [lia|].
  simpl in E. unfold bind in E.
  destruct (body i s) as [[[]|e| |] s1] eqn:E1; try done.
  destruct (decide (j = i)) as [->|Hne]; [by eauto|].
  apply (IH (S i) s1 s' E). lia.
Qed.

Lemma vector_at_Normal {A} (l : list A) i a :
  l !! i = Some a -> vector_at l (Z.of_nat i) = Normal a.
Proof.
  intros H. unfold vector_at.
  rewrite (proj2 (Z.ltb_ge _ _)) by lia.
  by rewrite Nat2Z.id, H.
Qed.

Lemma vector_at_Normal_inv {A} (l : list A) i a :
  vector_at l (Z.of_nat i) = Normal a -> l !! i = Some a.
Proof.
  unfold vector_at. rewrite (proj2 (Z.ltb_ge _ _)) by lia.
  rewrite Nat2Z.id. destruct (l !! i); naive_solver.
Qed.

Lemma insert_app_replicate {A} (a : list A) (d v : A) j n :
  length a = j -> (j < n)%nat ->
  <[j := v]> (a ++ replicate (n - j) d) = (a ++ [v]) ++ replicate (n - S j) d.
Proof.
  intros Hl Hj. rewrite insert_app_r_alt by lia.
  replace (j - length a)%nat with 0%nat by lia.
  replace (n - j)%nat with (S (n - S j)) by lia.
  simpl. by rewrite <- app_assoc.
Qed.

Lemma dense_S n : dense (S n) = dense n ++ [Z.of_nat n + 1].
Proof.
  unfold dense. rewrite seq_S, fmap_app. simpl. do 2 f_equal. lia.
Qed.

Lemma length_dense n : length (dense n) = n.
Proof. unfold dense. by rewrite length_fmap, length_seq. Qed.

Lemma dense_lookup n i : (i < n)%nat -> dense n !! i = Some (Z.of_nat i + 1).
Proof.
  intros H. unfold dense. rewrite list_lookup_fmap, lookup_seq_lt by done.
  simpl. f_equal. lia.
Qed.

Lemma elem_of_dense n k : k ∈ dense n <-> 1 <= k <= Z.of_nat n.
Proof.
  unfold dense. rewrite list_elem_of_fmap. split.
  - intros (i & -> & Hi). apply elem_of_seq in Hi. lia.
  - intros H. exists (Z.to_nat k). split; [lia|]. apply elem_of_seq. lia.
Qed.

Lemma insert_refilled {A} (d v : A) j (l : list A) :
  l !! j = Some v -> <[j := v]> (refilled d j l) = refilled d (S j) l.
Proof.
  intros H. unfold refilled.
  pose proof (lookup_lt_Some _ _ _ H) as Hlt.
  rewrite insert_app_replicate by (try rewrite length_take; lia).
  by rewrite (take_S_r _ _ _ H).
Qed.

Lemma length_refilled {A} (d : A) n (l : list A) :
  (n <= length l)%nat -> length (refilled d n l) = length l.
Proof.
  intros H. unfold refilled.
  rewrite length_app, length_take, length_replicate. lia.
Qed.

Lemma refilled_all {A} (d : A) n (l : list A) :
  length l = n -> refilled d n l = l.
Proof.
  intros H. unfold refilled. rewrite take_ge by lia.
  replace (length l - n)%nat with 0%nat by lia. apply app_nil_r.
Qed.

Lemma refilled_refilled {A} (d : A) n (l : list A) :
  (n <= length l)%nat -> refilled d n (refilled d n l) = refilled d n l.
Proof.
  intros H. unfold refilled at 1. rewrite length_refilled by done.
  unfold refilled. rewrite take_app_le by (rewrite length_take; lia).
  rewrite take_take. by replace (n `min` n)%nat with n by lia.
Qed.

(** ** Renumber_Nodes *)

Section RenumberFacts.
Context `{B : Boost}.

Lemma long_enough_spec P :
  long_enough P = true <->
  ((length (nids (nodes P)) <= length (x (nodes P)))%nat /\
   (length (nids (nodes P)) <= length (y (nodes P)))%nat /\
   (length (nids (nodes P)) <= length (z (nodes P)))%nat) /\
  ((length (eids (elements P)) <= length (pids (elements P)))%nat /\
   (length (eids (elements P)) <= length (n1 (elements P)))%nat /\
   (length (eids (elements P)) <= length (n2 (elements P)))%nat /\
   (length (eids (elements P)) <= length (n3 (elements P)))%nat /\
   (length (eids (elements P)) <= length (n4 (elements P)))%nat /\
   (length (eids (elements P)) <= length (n5 (elements P)))%nat /\
   (length (eids (elements P)) <= length (n6 (elements P)))%nat /\
   (length (eids (elements P)) <= length (n7 (elements P)))%nat /\
   (length (eids (elements P)) <= length (n8 (elements P)))%nat).
Proof.
  unfold long_enough. simpl.
  rewrite !andb_true_iff, !Nat.leb_le. tauto.
Qed.

Lemma Renumber_node_step P j vx vy vz nid :
  nids (nodes P) !! j = Some nid ->
  x (nodes P) !! j = Some vx ->
  y (nodes P) !! j = Some vy ->
  z (nodes P) !! j = Some vz ->
  Renumber_node P j (node_loop_vars P j)
  = (Normal tt, node_loop_vars P (S j)).
Proof.
  intros Hn Hx Hy Hz.
  pose proof (lookup_lt_Some _ _ _ Hn) as Hlt.
  unfold Renumber_node, bind, lift, modify.
  rewrite (vector_at_Normal _ _ _ Hn), (vector_at_Normal _ _ _ Hx),
    (vector_at_Normal _ _ _ Hy), (vector_at_Normal _ _ _ Hz).
  unfold node_loop_vars; simpl. rewrite Hn.
  rewrite insert_app_replicate by (try apply length_dense; lia).
  rewrite <- dense_S.
  by rewrite !insert_refilled.
Qed.

Lemma map_index_default (m : gmap Z Z) k k' :
  default 0 ((map_index 0 m k).2 !! k') = default 0 (m !! k').
Proof.
  unfold map_index. destruct (m !! k) eqn:E; simpl; [done|].
  destruct (decide (k = k')) as [->|Hne].
  - by rewrite lookup_insert_eq, E.
  - by rewrite lookup_insert_ne.
Qed.

(** A read of [node_remap[k]] returns the new id of [k] and leaves the new
    ids of all keys as they were. *)
Lemma node_remap_index_run (f : Z -> Z) k v :
  (forall k', default 0 (node_remap v !! k') = f k') ->
  exists v',
    node_remap_index k v = (Normal (f k), v') /\ R v' = R v /\
    (forall k', default 0 (node_remap v' !! k') = f k').
Proof.
  intros Hf. unfold node_remap_index.
  destruct (map_index 0 (node_remap v) k) as [n m] eqn:E.
  exists (mkRVars m (R v)). repeat split.
  - do 2 f_equal. rewrite <- Hf. unfold map_index in E.
    destruct (node_remap v !! k); by inversion E.
  - intros k'. simpl. rewrite <- Hf.
    replace m with (map_index 0 (node_remap v) k).2 by (by rewrite E).
    apply map_index_default.
Qed.

Lemma Renumber_element_step P j v pid a1 a2 a3 a4 a5 a6 a7 a8 :
  (j < length (eids (elements P)))%nat ->
  pids (elements P) !! j = Some pid ->
  n1 (elements P) !! j = Some a1 -> n2 (elements P) !! j = Some a2 ->
  n3 (elements P) !! j = Some a3 -> n4 (elements P) !! j = Some a4 ->
  n5 (elements P) !! j = Some a5 -> n6 (elements P) !! j = Some a6 ->
  n7 (elements P) !! j = Some a7 -> n8 (elements P) !! j = Some a8 ->
  (forall k, default 0 (node_remap v !! k) = new_id (nids (nodes P)) k) ->
  R v = element_loop_R P j ->
  exists v',
    Renumber_element P j v = (Normal tt, v') /\
    (forall k, default 0 (node_remap v' !! k) = new_id (nids (nodes P)) k) /\
    R v' = element_loop_R P (S j).
Proof.
  intros Hj Hp H1 H2 H3 H4 H5 H6 H7 H8 Hm HR.
  destruct (lookup_lt_is_Some_2 (eids (elements P)) j Hj) as [eid He].
  unfold Renumber_element, GetElement, GetElementID, GetPartID.
  rewrite (vector_at_Normal _ _ _ H1), (vector_at_Normal _ _ _ H2),
    (vector_at_Normal _ _ _ H3), (vector_at_Normal _ _ _ H4),
    (vector_at_Normal _ _ _ H5), (vector_at_Normal _ _ _ H6),
    (vector_at_Normal _ _ _ H7), (vector_at_Normal _ _ _ H8),
    (vector_at_Normal _ _ _ He), (vector_at_Normal _ _ _ Hp).
  cbn [rbind]. unfold lift at 1. unfold bind at 1. cbn [get0 get1 get2 get3 get4 get5 get6 get7].
  destruct (node_remap_index_run _ a1 v Hm) as (v1 & E1 & R1 & M1).
  rewrite (bind_Normal _ _ _ _ _ E1).
  destruct (node_remap_index_run _ a2 v1 M1) as (v2 & E2 & R2 & M2).
  rewrite (bind_Normal _ _ _ _ _ E2).
  destruct (node_remap_index_run _ a3 v2 M2) as (v3 & E3 & R3 & M3).
  rewrite (bind_Normal _ _ _ _ _ E3).
  destruct (node_remap_index_run _ a4 v3 M3) as (v4 & E4 & R4 & M4).
  rewrite (bind_Normal _ _ _ _ _ E4).
  destruct (node_remap_index_run _ a5 v4 M4) as (v5 & E5 & R5 & M5).
  rewrite (bind_Normal _ _ _ _ _ E5).
  destruct (node_remap_index_run _ a6 v5 M5) as (v6 & E6 & R6 & M6).
  rewrite (bind_Normal _ _ _ _ _ E6).
  destruct (node_remap_index_run _ a7 v6 M6) as (v7 & E7 & R7 & M7).
  rewrite (bind_Normal _ _ _ _ _ E7).
  destruct (node_remap_index_run _ a8 v7 M7) as (v8 & E8 & R8 & M8).
  rewrite (bind_Normal _ _ _ _ _ E8).
  assert (R v8 = element_loop_R P j) as HR8 by congruence.
  unfold bind, lift, gets, modify. cbv beta iota. rewrite HR8.
  unfold AddElement. cbn [elements element_loop_R eids].
  rewrite bool_decide_eq_false_2 by (rewrite elem_of_dense; lia).
  eexists. split; [reflexivity|]. split; [done|].
  cbn [R set_R].
  unfold element_loop_R, set_elements, push_element; simpl.
  rewrite dense_S.
  rewrite (take_S_r _ _ _ Hp), (take_S_r _ _ _ H1), (take_S_r _ _ _ H2),
    (take_S_r _ _ _ H3), (take_S_r _ _ _ H4), (take_S_r _ _ _ H5),
    (take_S_r _ _ _ H6), (take_S_r _ _ _ H7), (take_S_r _ _ _ H8).
  by rewrite !fmap_app.
Qed.

(** [Renumber_Nodes] returns, and returns [Renumbered], whenever the
    vectors it reads with [at] are long enough. *)
Lemma Renumber_Nodes_closed P :
  long_enough P = true -> Renumber_Nodes P = Normal (Renumbered P).
Proof.
  intros Hlen. apply long_enough_spec in Hlen.
  destruct Hlen as [(Hx & Hy & Hz) (Hp & H1 & H2 & H3 & H4 & H5 & H6 & H7 & H8)].
  unfold Renumber_Nodes.
  set (N := length (nids (nodes P))) in *.
  set (M := length (eids (elements P))) in *.
  match goal with
  | |- context [bind _ _ ?i] => replace i with (node_loop_vars P 0)
  end.
  2:{ unfold node_loop_vars, refilled. simpl. fold N. by rewrite !Nat.sub_0_r. }
  destruct (for_loop_inv (fun j s => s = node_loop_vars P j)
              (Renumber_node P) N 0 (node_loop_vars P 0) eq_refl)
    as (s1 & E1 & ->).
  { intros j s Hj ->. exists (node_loop_vars P (S j)). split; [|done].
    destruct (lookup_lt_is_Some_2 (nids (nodes P)) j ltac:(fold N; lia)).
    destruct (lookup_lt_is_Some_2 (x (nodes P)) j ltac:(lia)).
    destruct (lookup_lt_is_Some_2 (y (nodes P)) j ltac:(lia)).
    destruct (lookup_lt_is_Some_2 (z (nodes P)) j ltac:(lia)).
    by eapply Renumber_node_step. }
  rewrite (bind_Normal _ _ _ _ _ E1). simpl.
  destruct (for_loop_inv
              (fun j v =>
                 (forall k, default 0 (node_remap v !! k)
                            = new_id (nids (nodes P)) k) /\
                 R v = element_loop_R P j)
              (Renumber_element P) M 0 (node_loop_vars P N))
    as (s2 & E2 & _ & HR).
  { split; [done|].
    unfold node_loop_vars, element_loop_R; simpl. fold N.
    by rewrite Nat.sub_diag, app_nil_r. }
  { intros j v Hj [Hm HR].
    destruct (lookup_lt_is_Some_2 (pids (elements P)) j ltac:(lia)).
    destruct (lookup_lt_is_Some_2 (n1 (elements P)) j ltac:(lia)).
    destruct (lookup_lt_is_Some_2 (n2 (elements P)) j ltac:(lia)).
    destruct (lookup_lt_is_Some_2 (n3 (elements P)) j ltac:(lia)).
    destruct (lookup_lt_is_Some_2 (n4 (elements P)) j ltac:(lia)).
    destruct (lookup_lt_is_Some_2 (n5 (elements P)) j ltac:(lia)).
    destruct (lookup_lt_is_Some_2 (n6 (elements P)) j ltac:(lia)).
    destruct (lookup_lt_is_Some_2 (n7 (elements P)) j ltac:(lia)).
    destruct (lookup_lt_is_Some_2 (n8 (elements P)) j ltac:(lia)).
    eapply Renumber_element_step; eauto. fold M. lia. }
  rewrite E2. simpl. by rewrite HR.
Qed.

Lemma vector_at_Normal_lt {A} (l : list A) j a :
  vector_at l (Z.of_nat j) = Normal a -> (j < length l)%nat.
Proof. intros H. apply vector_at_Normal_inv in H. by eapply lookup_lt_Some. Qed.

Ltac case_vector_at :=
  repeat match goal with
         | |- context [vector_at ?l ?i] =>
             let E := fresh "E" in
             destruct (vector_at l i) eqn:E; simpl; try done;
             apply vector_at_Normal_lt in E
         end.

Lemma Renumber_node_Normal P j s s' :
  Renumber_node P j s = (Normal tt, s') ->
  (j < length (x (nodes P)))%nat /\ (j < length (y (nodes P)))%nat /\
  (j < length (z (nodes P)))%nat.
Proof.
  unfold Renumber_node, bind, lift, modify. case_vector_at. done.
Qed.

Lemma Renumber_element_Normal P j s s' :
  Renumber_element P j s = (Normal tt, s') ->
  Forall (fun l : list Z => (j < length l)%nat)
    [pids (elements P); n1 (elements P); n2 (elements P); n3 (elements P);
     n4 (elements P); n5 (elements P); n6 (elements P); n7 (elements P);
     n8 (elements P)].
Proof.
  unfold Renumber_element, GetElement, GetElementID, GetPartID.
  unfold bind at 1. unfold lift at 1.
  case_vector_at.
  unfold bind, node_remap_index, lift.
  repeat (destruct (map_index _ _ _); simpl).
  case_vector_at. intros _. repeat constructor; done.
Qed.

Lemma Renumber_Nodes_Normal_long_enough P R' :
  Renumber_Nodes P = Normal R' -> long_enough P = true.
Proof.
  unfold Renumber_Nodes.
  set (N := length (nids (nodes P))). set (M := length (eids (elements P))).
  match goal with |- context [bind _ _ ?i] => generalize i end.
  intros init. unfold bind.
  destruct (for_loop 0 N _ init) as [[[]|e| |] s1] eqn:E1; try done.
  destruct (for_loop 0 M _ s1) as [[[]|e| |] s2] eqn:E2; try done.
  intros _. apply long_enough_spec. fold N M.
  pose proof (for_loop_Normal_body _ _ _ _ _ E1) as H1.
  pose proof (for_loop_Normal_body _ _ _ _ _ E2) as H2.
  split.
  - destruct N as [|n]; [lia|].
    destruct (H1 n ltac:(lia)) as (sj & sj' & Hb).
    apply Renumber_node_Normal in Hb. lia.
  - destruct M as [|m]; [lia|].
    destruct (H2 m ltac:(lia)) as (sj & sj' & Hb).
    apply Renumber_element_Normal in Hb.
    rewrite !Forall_cons in Hb. destruct_and!. lia.
Qed.

Lemma remap_upto_range ids j k v :
  remap_upto ids j !! k = Some v -> 0 <= v <= Z.of_nat j.
Proof.
  revert k v. induction j as [|j IH]; intros k v; simpl.
  - rewrite lookup_insert. case_decide; [|by rewrite lookup_empty].
    intros [= <-]. lia.
  - destruct (ids !! j) as [nid|].
    + rewrite lookup_insert. case_decide.
      * intros [= <-]. lia.
      * intros H'. apply IH in H'. lia.
    + intros H'. apply IH in H'. lia.
Qed.

Lemma new_id_range ids v : 0 <= new_id ids v <= Z.of_nat (length ids).
Proof.
  unfold new_id. destruct (remap_upto ids (length ids) !! v) eqn:E; simpl.
  - by apply remap_upto_range in E.
  - lia.
Qed.

Lemma remap_upto_dense N j k :
  (j <= N)%nat -> 0 <= k <= Z.of_nat j ->
  remap_upto (dense N) j !! k = Some k.
Proof.
  revert k. induction j as [|j IH]; intros k Hj Hk; simpl.
  - replace k with 0 by lia. apply lookup_insert_eq.
  - rewrite dense_lookup by lia.
    rewrite lookup_insert. case_decide; [by subst|].
    apply IH; lia.
Qed.

Lemma new_id_dense N k : 0 <= k <= Z.of_nat N -> new_id (dense N) k = k.
Proof.
  intros Hk. unfold new_id. rewrite length_dense.
  by rewrite remap_upto_dense.
Qed.

Lemma remap_upto_NoDup ids j :
  NoDup ids -> 0 ∉ ids -> (j <= length ids)%nat ->
  remap_upto ids j !! 0 = Some 0 /\
  forall i nid, (i < j)%nat -> ids !! i = Some nid ->
                remap_upto ids j !! nid = Some (Z.of_nat i + 1).
Proof.
  intros Hnd H0. induction j as [|j IH]; intros Hj; simpl.
  - split; [apply lookup_insert_eq | intros; lia].
  - destruct IH as [IH0 IHi]; [lia|].
    destruct (lookup_lt_is_Some_2 ids j ltac:(lia)) as [nj Hnj]. rewrite Hnj.
    split.
    + rewrite lookup_insert_ne; [done|].
      intros ->. apply H0. by eapply list_elem_of_lookup_2.
    + intros i nid Hi Hnid.
      destruct (decide (i = j)) as [->|Hne].
      * rewrite Hnj in Hnid. injection Hnid as ->. apply lookup_insert_eq.
      * rewrite lookup_insert_ne; [apply IHi; [lia|done]|].
        intros ->. apply Hne. symmetry. by eapply NoDup_lookup.
Qed.

Lemma new_id_zero ids : NoDup ids -> 0 ∉ ids -> new_id ids 0 = 0.
Proof.
  intros Hnd H0. unfold new_id.
  by destruct (remap_upto_NoDup ids (length ids) Hnd H0) as [-> _].
Qed.

Lemma new_id_lookup ids i nid :
  NoDup ids -> 0 ∉ ids -> ids !! i = Some nid ->
  new_id ids nid = Z.of_nat i + 1.
Proof.
  intros Hnd H0 Hi. unfold new_id.
  destruct (remap_upto_NoDup ids (length ids) Hnd H0) as [_ H']; [done|].
  rewrite (H' i nid); [done| |done]. by eapply lookup_lt_Some.
Qed.

(** A dangling id, one that is neither 0 nor a node id, has the new id 0. *)
Lemma remap_upto_absent ids j v :
  v <> 0 -> v ∉ ids -> remap_upto ids j !! v = None.
Proof.
  intros Hv Hnin. induction j as [|j IH]; simpl.
  - rewrite lookup_insert_ne by done. apply lookup_empty.
  - destruct (ids !! j) as [nid|] eqn:E; [|done].
    rewrite lookup_insert_ne; [done|].
    intros ->. apply Hnin. by eapply list_elem_of_lookup_2.
Qed.

Lemma new_id_absent ids v : v <> 0 -> v ∉ ids -> new_id ids v = 0.
Proof. intros. unfold new_id. by rewrite remap_upto_absent. Qed.

Lemma long_enough_Renumbered P :
  long_enough P = true -> long_enough (Renumbered P) = true.
Proof.
  intros Hlen. apply long_enough_spec in Hlen. apply long_enough_spec.
  destruct_and!. unfold Renumbered; simpl.
  rewrite !length_dense, !length_refilled by done.
  rewrite !length_fmap, !length_take. lia.
Qed.

Lemma Renumbered_idempotent P :
  long_enough P = true -> Renumbered (Renumbered P) = Renumbered P.
Proof.
  intros Hlen. apply long_enough_spec in Hlen. destruct_and!.
  unfold Renumbered at 1. cbn [nodes elements Renumbered nids x y z eids pids
    n1 n2 n3 n4 n5 n6 n7 n8].
  rewrite !length_dense. unfold Renumbered.
  rewrite !refilled_refilled by done.
  rewrite !take_take, !Nat.min_id.
  assert (forall l : list Z,
            (length (eids (elements P)) <= length l)%nat ->
            new_id (dense (length (nids (nodes P)))) <$>
              take (length (eids (elements P)))
                (new_id (nids (nodes P)) <$> take (length (eids (elements P))) l)
            = new_id (nids (nodes P)) <$> take (length (eids (elements P))) l)
    as Hcol.
  { intros l Hl. rewrite take_ge by (rewrite length_fmap, length_take; lia).
    rewrite <- list_fmap_compose. apply list_fmap_ext. intros i v _. simpl.
    apply new_id_dense, new_id_range. }
  by rewrite !Hcol.
Qed.

(** C8: when [Renumber_Nodes] returns [P], applying it to [P] returns [P]
    again: node ids and their order, coordinates, element ids, part ids,
    connectivity and the two index maps are all the same. *)
Theorem Renumber_Nodes_idempotent Q P :
  Renumber_Nodes Q = Normal P -> Renumber_Nodes P = Normal P.
Proof.
  intros H. pose proof (Renumber_Nodes_Normal_long_enough _ _ H) as Hlen.
  rewrite Renumber_Nodes_closed in H by done. injection H as <-.
  rewrite Renumber_Nodes_closed by (by apply long_enough_Renumbered).
  by rewrite Renumbered_idempotent.
Qed.

Lemma parallel_nodes_spec n :
  parallel_nodes n = true <->
  length (x n) = length (nids n) /\ length (y n) = length (nids n) /\
  length (z n) = length (nids n).
Proof.
  unfold parallel_nodes. rewrite !andb_true_iff, !Nat.eqb_eq. tauto.
Qed.

Lemma parallel_elements_spec e :
  parallel_elements e = true <->
  length (pids e) = length (eids e) /\
  length (n1 e) = length (eids e) /\ length (n2 e) = length (eids e) /\
  length (n3 e) = length (eids e) /\ length (n4 e) = length (eids e) /\
  length (n5 e) = length (eids e) /\ length (n6 e) = length (eids e) /\
  length (n7 e) = length (eids e) /\ length (n8 e) = length (eids e).
Proof.
  unfold parallel_elements. simpl.
  rewrite !andb_true_iff, !Nat.eqb_eq. tauto.
Qed.

Lemma parallel_long_enough P :
  parallel_nodes (nodes P) = true -> parallel_elements (elements P) = true ->
  long_enough P = true.
Proof.
  rewrite parallel_nodes_spec, parallel_elements_spec, long_enough_spec.
  intros. destruct_and!. lia.
Qed.

End RenumberFacts.

(** ** The element table, row by row *)

Section RowFacts.
Context `{B : Boost}.

Lemma row_at_None e i : (length (eids e) <= i)%nat -> row_at e i = None.
Proof.
  intros H. unfold row_at. by rewrite (lookup_ge_None_2 (eids e) i).
Qed.

Lemma row_at_is_Some e i :
  parallel_elements e = true -> (i < length (eids e))%nat ->
  is_Some (row_at e i).
Proof.
  rewrite parallel_elements_spec. intros Hp Hi. destruct_and!.
  unfold row_at.
  destruct (lookup_lt_is_Some_2 (eids e) i ltac:(lia)) as [? ->].
  destruct (lookup_lt_is_Some_2 (pids e) i ltac:(lia)) as [? ->].
  destruct (lookup_lt_is_Some_2 (n1 e) i ltac:(lia)) as [? ->].
  destruct (lookup_lt_is_Some_2 (n2 e) i ltac:(lia)) as [? ->].
  destruct (lookup_lt_is_Some_2 (n3 e) i ltac:(lia)) as [? ->].
  destruct (lookup_lt_is_Some_2 (n4 e) i ltac:(lia)) as [? ->].
  destruct (lookup_lt_is_Some_2 (n5 e) i ltac:(lia)) as [? ->].
  destruct (lookup_lt_is_Some_2 (n6 e) i ltac:(lia)) as [? ->].
  destruct (lookup_lt_is_Some_2 (n7 e) i ltac:(lia)) as [? ->].
  destruct (lookup_lt_is_Some_2 (n8 e) i ltac:(lia)) as [? ->].
  simpl. eauto.
Qed.

Lemma omap_seq_lookup {A} (f : nat -> option A) n i :
  (forall j, (j < n)%nat -> is_Some (f j)) -> (i < n)%nat ->
  omap f (seq 0 n) !! i = f i.
Proof.
  induction n as [|n IH]; intros Hf Hi; [lia|].
  rewrite seq_S, omap_app. simpl.
  assert (length (omap f (seq 0 n)) = n) as Hlen.
  { clear IH Hi. induction n as [|n IHn]; [done|].
    rewrite seq_S, omap_app, length_app, IHn by (intros; apply Hf; lia).
    simpl. destruct (Hf n ltac:(lia)) as [a ->]. simpl. lia. }
  destruct (decide (i = n)) as [->|Hne].
  - rewrite lookup_app_r by lia. rewrite Hlen, Nat.sub_diag.
    by destruct (Hf n ltac:(lia)) as [a ->].
  - rewrite lookup_app_l by lia. apply IH; [intros; apply Hf|]; lia.
Qed.

Lemma length_omap_seq {A} (f : nat -> option A) n :
  (forall j, (j < n)%nat -> is_Some (f j)) -> length (omap f (seq 0 n)) = n.
Proof.
  induction n as [|n IHn]; intros Hf; [done|].
  rewrite seq_S, omap_app, length_app, IHn by (intros; apply Hf; lia).
  simpl. destruct (Hf n ltac:(lia)) as [a ->]. simpl. lia.
Qed.

Lemma length_rows e :
  parallel_elements e = true -> length (rows e) = length (eids e).
Proof.
  intros Hp. unfold rows. apply length_omap_seq.
  intros j Hj. by apply row_at_is_Some.
Qed.

Lemma rows_lookup e i :
  parallel_elements e = true -> rows e !! i = row_at e i.
Proof.
  intros Hp. destruct (decide (i < length (eids e))%nat) as [Hi|Hi].
  - unfold rows. apply omap_seq_lookup; [|done].
    intros j Hj. by apply row_at_is_Some.
  - rewrite row_at_None by lia. apply lookup_ge_None_2.
    rewrite length_rows by done. lia.
Qed.

(** The columns of a row of the table. *)
Lemma row_at_Some e i r :
  row_at e i = Some r ->
  eids e !! i = Some (row_eid r) /\ pids e !! i = Some (row_pid r) /\
  n1 e !! i = Some (get0 r.2) /\ n2 e !! i = Some (get1 r.2) /\
  n3 e !! i = Some (get2 r.2) /\ n4 e !! i = Some (get3 r.2) /\
  n5 e !! i = Some (get4 r.2) /\ n6 e !! i = Some (get5 r.2) /\
  n7 e !! i = Some (get6 r.2) /\ n8 e !! i = Some (get7 r.2).
Proof.
  unfold row_at. intros H. simplify_option_eq. done.
Qed.

Lemma elem_of_references l r v :
  r ∈ l -> v ∈ slots r.2 -> v ∈ references l.
Proof. intros Hr Hv. unfold references. apply list_elem_of_bind. eauto. Qed.

(** A value of a connectivity column is a reference of the table. *)
Lemma column_reference e (col : Elements -> list Z) (g : Element -> Z) i v :
  parallel_elements e = true ->
  (forall r, row_at e i = Some r -> col e !! i = Some (g r.2)) ->
  (forall el, g el ∈ slots el) ->
  col e !! i = Some v ->
  (i < length (eids e))%nat ->
  v ∈ references (rows e).
Proof.
  intros Hp Hcol Hg Hv Hi.
  destruct (row_at_is_Some e i Hp Hi) as [r Hr].
  specialize (Hcol r Hr). rewrite Hcol in Hv. injection Hv as <-.
  apply (elem_of_references _ r); [|apply Hg].
  apply list_elem_of_lookup. exists i. by rewrite rows_lookup.
Qed.

Lemma references_nodes_spec P v :
  references_nodes P = true -> v ∈ references (rows (elements P)) ->
  v = 0 \/ v ∈ nids (nodes P).
Proof.
  unfold references_nodes. rewrite forallb_forall. intros H Hv.
  apply list_elem_of_In, H in Hv. apply orb_true_iff in Hv.
  destruct Hv as [Hv|Hv]; [left; lia|right].
  by apply bool_decide_eq_true in Hv.
Qed.

(** C2: for a Document [P] with parallel vectors, distinct node ids, none
    of them 0, and every nonzero slot naming a node of [P],
    [Renumber_Nodes] returns a Document whose node ids are 1..N in the
    order of [P] with the coordinates of [P], whose element ids are 1..M
    in the order of [P] with the part ids of [P], and whose slots are
    those of [P] under the map [f] that sends 0 to 0 and the id at
    position [i] of the node list to [i + 1]; a slot is 0 exactly where
    the slot of [P] is 0. *)
Theorem Renumber_Nodes_dense P :
  parallel_nodes (nodes P) = true ->
  parallel_elements (elements P) = true ->
  NoDup (nids (nodes P)) ->
  0 ∉ nids (nodes P) ->
  references_nodes P = true ->
  exists P' (f : Z -> Z),
    Renumber_Nodes P = Normal P' /\
    nids (nodes P') = dense (length (nids (nodes P))) /\
    x (nodes P') = x (nodes P) /\
    y (nodes P') = y (nodes P) /\
    z (nodes P') = z (nodes P) /\
    eids (elements P') = dense (length (eids (elements P))) /\
    pids (elements P') = pids (elements P) /\
    f 0 = 0 /\
    (forall i nid, nids (nodes P) !! i = Some nid -> f nid = Z.of_nat i + 1) /\
    n1 (elements P') = f <$> n1 (elements P) /\
    n2 (elements P') = f <$> n2 (elements P) /\
    n3 (elements P') = f <$> n3 (elements P) /\
    n4 (elements P') = f <$> n4 (elements P) /\
    n5 (elements P') = f <$> n5 (elements P) /\
    n6 (elements P') = f <$> n6 (elements P) /\
    n7 (elements P') = f <$> n7 (elements P) /\
    n8 (elements P') = f <$> n8 (elements P) /\
    (forall v, v ∈ references (rows (elements P)) -> f v = 0 <-> v = 0).
Proof.
  intros Hpn Hpe Hnd H0 Href.
  exists (Renumbered P), (new_id (nids (nodes P))).
  split; [by apply Renumber_Nodes_closed, parallel_long_enough|].
  apply parallel_nodes_spec in Hpn. apply parallel_elements_spec in Hpe.
  destruct_and!. unfold Renumbered; simpl.
  rewrite !refilled_all by done. rewrite !take_ge by lia.
  repeat split; try done.
  - by apply new_id_zero.
  - intros i nid Hi. by apply new_id_lookup.
  - intros Hv.
    destruct (references_nodes_spec P v Href ltac:(done)) as [?|Hin]; [done|].
    apply list_elem_of_lookup in Hin as [i Hi].
    rewrite (new_id_lookup _ i) in Hv by done. lia.
  - intros ->. by apply new_id_zero.
Qed.

End RowFacts.

(** ** IsolatePart *)

Section IsolateFacts.
Context `{B : Boost}.

Lemma vector_at_Some {A} (l : list A) k a :
  0 <= k -> l !! Z.to_nat k = Some a -> vector_at l k = Normal a.
Proof.
  intros Hk H. unfold vector_at.
  rewrite (proj2 (Z.ltb_ge _ _)) by lia. by rewrite H.
Qed.

Lemma first_refs_snoc seen ids v :
  first_refs seen (ids ++ [v])
  = if bool_decide (v ∈ first_refs seen ids) || (v =? 0)
    then first_refs seen ids else first_refs seen ids ++ [v].
Proof. unfold first_refs. by rewrite foldl_app. Qed.

Lemma first_refs_app seen ids ids' :
  first_refs seen (ids ++ ids') = first_refs (first_refs seen ids) ids'.
Proof. unfold first_refs. by rewrite foldl_app. Qed.

(** The node list that [IsolatePart] builds has no id twice, does not have
    the id 0, and has exactly the nonzero ids referenced. *)
Lemma first_refs_spec ids :
  NoDup (first_refs [] ids) /\ (0 ∉ first_refs [] ids) /\
  forall v, (v ∈ first_refs [] ids) <-> (v <> 0 /\ v ∈ ids).
Proof.
  induction ids as [|v ids IH] using rev_ind.
  - split; [constructor|]. split; [apply not_elem_of_nil|].
    intros v. unfold first_refs; simpl. rewrite elem_of_nil. tauto.
  - destruct IH as (Hnd & H0 & Hin). rewrite first_refs_snoc.
    destruct (bool_decide (v ∈ first_refs [] ids) || (v =? 0)) eqn:E.
    + split; [done|]. split; [done|]. intros w. rewrite Hin, elem_of_app.
      split; [tauto|]. intros [Hw [Hw'|Hw']]; [done|].
      apply list_elem_of_singleton in Hw'. subst w.
      apply orb_true_iff in E as [E|E]; [|lia].
      apply bool_decide_eq_true in E. by apply Hin in E.
    + apply orb_false_iff in E as [E1 E2].
      apply bool_decide_eq_false in E1.
      split; [|split].
      * apply NoDup_app. split; [done|]. split; [|apply NoDup_singleton].
        intros w Hw Hw'. apply list_elem_of_singleton in Hw'. by subst w.
      * rewrite elem_of_app, list_elem_of_singleton. intros [?|?]; [done|lia].
      * intros w. rewrite !elem_of_app, Hin, !list_elem_of_singleton.
        split; [|tauto]. intros [?| ->]; [tauto|]. split; [lia|tauto].
Qed.

Lemma touched_snoc m l v :
  touched m (l ++ [v]) = (map_index 0 (touched m l) v).2.
Proof. unfold touched. by rewrite foldl_app. Qed.

Lemma touched_default m l k :
  default 0 (touched m l !! k) = default 0 (m !! k).
Proof.
  induction l as [|v l IH] using rev_ind; [done|].
  by rewrite touched_snoc, map_index_default.
Qed.

(** Reading [objects.node_index] at ids that it knows does not change it. *)
Lemma touched_present m l :
  Forall (fun v => is_Some (m !! v)) l -> touched m l = m.
Proof.
  induction l as [|v l IH] using rev_ind; [done|].
  rewrite Forall_app, Forall_singleton. intros [Hl [a Hv]].
  rewrite touched_snoc, (IH Hl). unfold map_index. by rewrite Hv.
Qed.

Lemma copied_from_snoc D col ids vals nid v :
  copied_from D col ids vals ->
  col (nodes D) !! Z.to_nat (position D nid) = Some v ->
  copied_from D col (ids ++ [nid]) (vals ++ [v]).
Proof.
  intros H Hv. apply Forall2_app; [done|]. by repeat constructor.
Qed.

Lemma copyable_spec D v :
  copyable D v = true -> v <> 0 ->
  0 <= position D v /\
  exists vx vy vz,
    x (nodes D) !! Z.to_nat (position D v) = Some vx /\
    y (nodes D) !! Z.to_nat (position D v) = Some vy /\
    z (nodes D) !! Z.to_nat (position D v) = Some vz.
Proof.
  unfold copyable. intros H Hv.
  apply orb_true_iff in H as [H|H]; [lia|].
  rewrite !andb_true_iff, !bool_decide_eq_true in H.
  destruct H as [[[Hk [vx Hx]] [vy Hy]] [vz Hz]].
  split; [lia|]. eauto 7.
Qed.

(** One of the eight blocks of [IsolatePart] that copy a node. *)
Lemma copy_node_run D nK ids v b :
  IsolatePart_inv D ids v ->
  back (nK (elements (part v))) = Normal b ->
  copyable D b = true ->
  exists v',
    copy_node nK v = (Normal tt, v') /\
    IsolatePart_inv D (ids ++ [b]) v' /\
    elements (part v') = elements (part v).
Proof.
  intros (Hn & He & Hei & Hni & Hids & Hx & Hy & Hz & Hidx & Hnone) Hb Hc.
  destruct v as [o [[pn px py pz] pe pei pni]]. simpl in *.
  assert (pni !! b = None <-> b ∉ pn) as Hmem.
  { split; [|apply Hnone].
    intros Hnb Hin. apply list_elem_of_lookup in Hin as [i Hi].
    by rewrite (Hidx i b Hi) in Hnb. }
  unfold copy_node, bind, gets, lift, modify; simpl. rewrite Hb; simpl.
  destruct (bool_decide (pni !! b = None) && negb (b =? 0)) eqn:E.
  - apply andb_true_iff in E as [E1 E2]. apply bool_decide_eq_true in E1.
    assert (b <> 0) as Hb0 by lia.
    destruct (copyable_spec D b Hc Hb0) as (Hk & vx & vy & vz & Ex & Ey & Ez).
    unfold objects_node_index; simpl.
    destruct (map_index 0 (node_index o) b) as [k m] eqn:Em.
    assert (k = position D b) as ->.
    { unfold position. rewrite <- (touched_default _ pn), <- Hni.
      unfold map_index in Em. destruct (node_index o !! b); by inversion Em. }
    unfold set_node_index, set_part, set_nodes; simpl. rewrite Hn.
    rewrite (vector_at_Some _ _ _ Hk Ex), (vector_at_Some _ _ _ Hk Ey),
      (vector_at_Some _ _ _ Hk Ez). simpl.
    eexists. split; [reflexivity|]. split; [|done].
    unfold IsolatePart_inv, nodes_copied; simpl.
    pose proof (Forall2_length _ _ _ Hx) as Hlx.
    repeat split; try done.
    + rewrite touched_snoc, <- Hni. by rewrite Em.
    + rewrite first_refs_snoc, <- Hids.
      rewrite bool_decide_eq_false_2 by (by apply Hmem).
      by replace (b =? 0) with false by lia.
    + by apply copied_from_snoc.
    + by apply copied_from_snoc.
    + by apply copied_from_snoc.
    + intros i nid Hi.
      destruct (decide (i < length pn)%nat) as [Hlt|Hge].
      * rewrite lookup_app_l in Hi by done.
        rewrite lookup_insert_ne; [by apply Hidx|].
        intros ->. apply (proj1 Hmem E1). by eapply list_elem_of_lookup_2.
      * rewrite lookup_app_r in Hi by lia.
        apply list_lookup_singleton_Some in Hi as [Hi ->].
        rewrite lookup_insert_eq. f_equal. rewrite length_app. simpl. lia.
    + intros nid Hnid. rewrite elem_of_app, list_elem_of_singleton in Hnid.
      rewrite lookup_insert_ne by (intros ->; tauto). apply Hnone. tauto.
  - eexists. split; [reflexivity|]. split; [|done].
    unfold IsolatePart_inv, nodes_copied; simpl.
    repeat split; try done.
    rewrite first_refs_snoc, <- Hids.
    apply andb_false_iff in E as [E|E].
    + apply bool_decide_eq_false in E.
      rewrite bool_decide_eq_true_2; [done|].
      destruct (decide (b ∈ pn)) as [|Hnin]; [done|].
      by apply Hmem in Hnin.
    + replace (b =? 0) with true by lia. by rewrite orb_true_r.
Qed.

Lemma IsolatePart_inv_ext D ids v v' :
  objects v' = objects v ->
  nodes (part v') = nodes (part v) ->
  node_index (part v') = node_index (part v) ->
  IsolatePart_inv D ids v -> IsolatePart_inv D ids v'.
Proof.
  unfold IsolatePart_inv, nodes_copied. intros -> -> ->. done.
Qed.

Lemma back_snoc {A C} (g : A -> C) (l : list A) (a : A) :
  back (g <$> (l ++ [a])) = Normal (g a).
Proof. unfold back. rewrite fmap_app. simpl. by rewrite last_snoc. Qed.

Lemma push_element_columns (l : list Row) (r : Row) :
  push_element (row_eid r) (row_pid r)
    (mkElement (get0 r.2) (get1 r.2) (get2 r.2) (get3 r.2)
               (get4 r.2) (get5 r.2) (get6 r.2) (get7 r.2)) (columns l)
  = columns (l ++ [r]).
Proof. unfold push_element, columns; simpl. by rewrite !fmap_app. Qed.

Lemma references_snoc (l : list Row) (r : Row) :
  references (l ++ [r]) = references l ++ slots r.2.
Proof. unfold references. rewrite bind_app. f_equal. Qed.

Lemma rows_of_part_singleton p (r : Row) :
  rows_of_part p [r] = if decide (row_pid r = p) then [r] else [].
Proof. unfold rows_of_part. rewrite filter_cons, filter_nil. done. Qed.

Lemma copy_row_run j v r :
  row_at (elements (objects v)) j = Some r ->
  copy_row (Z.of_nat j) v
  = (Normal tt,
     set_part
       (set_elements
          (push_element (row_eid r) (row_pid r)
             (mkElement (get0 r.2) (get1 r.2) (get2 r.2) (get3 r.2)
                        (get4 r.2) (get5 r.2) (get6 r.2) (get7 r.2))
             (elements (part v))) (part v)) v).
Proof.
  intros Hr. apply row_at_Some in Hr.
  destruct Hr as (Re & Rp & R1 & R2 & R3 & R4 & R5 & R6 & R7 & R8).
  unfold copy_row, bind, gets, lift, modify.
  rewrite (vector_at_Normal _ _ _ Re), (vector_at_Normal _ _ _ Rp),
    (vector_at_Normal _ _ _ R1), (vector_at_Normal _ _ _ R2),
    (vector_at_Normal _ _ _ R3), (vector_at_Normal _ _ _ R4),
    (vector_at_Normal _ _ _ R5), (vector_at_Normal _ _ _ R6),
    (vector_at_Normal _ _ _ R7), (vector_at_Normal _ _ _ R8).
  reflexivity.
Qed.

(** A round of the loop of [IsolatePart], on row [j] of the table. *)
Lemma IsolatePart_body_run D p j v r sel :
  row_at (elements D) j = Some r ->
  (row_pid r = p -> Forall (fun b => copyable D b = true) (slots r.2)) ->
  IsolatePart_inv D (references sel) v ->
  elements (part v) = columns sel ->
  exists v',
    IsolatePart_body p j v = (Normal tt, v') /\
    IsolatePart_inv D (references (sel ++ rows_of_part p [r])) v' /\
    elements (part v') = columns (sel ++ rows_of_part p [r]).
Proof.
  intros Hr Hc Hinv Hsel.
  pose proof Hinv as (_ & He & _).
  pose proof (copy_row_run j v r ltac:(by rewrite He)) as Hrow.
  apply row_at_Some in Hr.
  destruct Hr as (Re & Rp & R1 & R2 & R3 & R4 & R5 & R6 & R7 & R8).
  rewrite rows_of_part_singleton.
  unfold IsolatePart_body.
  rewrite (bind_Normal (gets objects) _ v (objects v) v eq_refl).
  rewrite He. unfold lift at 1. unfold bind at 1.
  rewrite (vector_at_Normal _ _ _ Rp).
  destruct (decide (row_pid r = p)) as [Hp|Hp].
  2:{ replace (row_pid r =? p) with false by lia.
      exists v. rewrite app_nil_r. done. }
  replace (row_pid r =? p) with true by lia.
  specialize (Hc Hp). unfold slots in Hc.
  rewrite !Forall_cons in Hc.
  destruct Hc as (C1 & C2 & C3 & C4 & C5 & C6 & C7 & C8 & _).
  rewrite (bind_Normal _ _ _ _ _ Hrow).
  unfold lift at 1. unfold bind at 1. rewrite (vector_at_Normal _ _ _ Re).
  unfold modify at 1. unfold bind at 1.
  rewrite Hsel, push_element_columns.
  match goal with
  | |- context [bind (copy_node n1) _ ?v2] => set (w := v2)
  end.
  assert (elements (part w) = columns (sel ++ [r])) as Hw by done.
  assert (IsolatePart_inv D (references sel) w) as I0.
  { by apply (IsolatePart_inv_ext D _ v). }
  clearbody w.
  destruct (copy_node_run D n1 _ w _ I0
              ltac:(rewrite Hw; apply back_snoc) C1) as (w1 & E1 & I1 & L1).
  rewrite (bind_Normal _ _ _ _ _ E1). rewrite <- L1 in Hw.
  destruct (copy_node_run D n2 _ w1 _ I1
              ltac:(rewrite Hw; apply back_snoc) C2) as (w2 & E2 & I2 & L2).
  rewrite (bind_Normal _ _ _ _ _ E2). rewrite <- L2 in Hw.
  destruct (copy_node_run D n3 _ w2 _ I2
              ltac:(rewrite Hw; apply back_snoc) C3) as (w3 & E3 & I3 & L3).
  rewrite (bind_Normal _ _ _ _ _ E3). rewrite <- L3 in Hw.
  destruct (copy_node_run D n4 _ w3 _ I3
              ltac:(rewrite Hw; apply back_snoc) C4) as (w4 & E4 & I4 & L4).
  rewrite (bind_Normal _ _ _ _ _ E4). rewrite <- L4 in Hw.
  destruct (copy_node_run D n5 _ w4 _ I4
              ltac:(rewrite Hw; apply back_snoc) C5) as (w5 & E5 & I5 & L5).
  rewrite (bind_Normal _ _ _ _ _ E5). rewrite <- L5 in Hw.
  destruct (copy_node_run D n6 _ w5 _ I5
              ltac:(rewrite Hw; apply back_snoc) C6) as (w6 & E6 & I6 & L6).
  rewrite (bind_Normal _ _ _ _ _ E6). rewrite <- L6 in Hw.
  destruct (copy_node_run D n7 _ w6 _ I6
              ltac:(rewrite Hw; apply back_snoc) C7) as (w7 & E7 & I7 & L7).
  rewrite (bind_Normal _ _ _ _ _ E7). rewrite <- L7 in Hw.
  destruct (copy_node_run D n8 _ w7 _ I7
              ltac:(rewrite Hw; apply back_snoc) C8) as (w8 & E8 & I8 & L8).
  rewrite <- L8 in Hw.
  exists w8. split; [done|]. split; [|done].
  rewrite references_snoc. unfold slots.
  by rewrite <- !app_assoc in I8.
Qed.

Lemma rows_of_part_snoc p (l : list Row) (r : Row) :
  rows_of_part p (l ++ [r]) = rows_of_part p l ++ rows_of_part p [r].
Proof. unfold rows_of_part. apply filter_app. Qed.

(** [IsolatePart] returns whenever it can copy every node that the rows of
    part [p] refer to, and its result is described by [IsolatePart_inv]. *)
Lemma IsolatePart_run parts D p :
  parallel_elements (elements D) = true ->
  Forall (fun b => copyable D b = true)
         (references (rows_of_part p (rows (elements D)))) ->
  exists v,
    IsolatePart parts D p = (Normal (part v), objects v) /\
    IsolatePart_inv D (references (rows_of_part p (rows (elements D)))) v /\
    elements (part v) = columns (rows_of_part p (rows (elements D))).
Proof.
  intros Hp Hc.
  destruct (for_loop_inv
              (fun j v =>
                 IsolatePart_inv D
                   (references (rows_of_part p (take j (rows (elements D))))) v /\
                 elements (part v)
                 = columns (rows_of_part p (take j (rows (elements D)))))
              (IsolatePart_body p) (length (eids (elements D))) 0
              (mkVars D no_FiniteElementObject))
    as (v & E & Hinv & Hel).
  - split; [|done].
    unfold IsolatePart_inv, nodes_copied, copied_from; simpl.
    repeat split; try done; try constructor.
  - intros j v Hj [Hinv Hel].
    destruct (row_at_is_Some _ j Hp ltac:(lia)) as [r Hr].
    assert (rows (elements D) !! j = Some r) as Hrj
      by (by rewrite rows_lookup).
    rewrite (take_S_r _ _ _ Hrj), rows_of_part_snoc.
    apply IsolatePart_body_run; try done.
    intros Hpid. apply Forall_forall. intros b Hb.
    rewrite Forall_forall in Hc. apply Hc.
    apply (elem_of_references _ r); [|done].
    apply list_elem_of_filter. split; [done|].
    by eapply list_elem_of_lookup_2.
  - rewrite take_ge in Hinv, Hel by (rewrite length_rows by done; lia).
    exists v. split; [|done].
    unfold IsolatePart. by rewrite E.
Qed.

Lemma parallel_columns (l : list Row) : parallel_elements (columns l) = true.
Proof.
  apply parallel_elements_spec. unfold columns; simpl.
  by rewrite !length_fmap.
Qed.

Lemma rows_columns (l : list Row) : rows (columns l) = l.
Proof.
  apply list_eq. intros i. rewrite rows_lookup by apply parallel_columns.
  unfold row_at, columns, Row in *; simpl. rewrite !list_lookup_fmap.
  by destruct (l !! i) as [[[eid pid] []]|].
Qed.

Lemma node_present_spec D v :
  node_present D v = true ->
  exists k vx vy vz,
    node_index D !! v = Some k /\ 0 <= k /\
    nids (nodes D) !! Z.to_nat k = Some v /\
    x (nodes D) !! Z.to_nat k = Some vx /\
    y (nodes D) !! Z.to_nat k = Some vy /\
    z (nodes D) !! Z.to_nat k = Some vz.
Proof.
  unfold node_present. destruct (node_index D !! v) as [k|]; [|done].
  rewrite !andb_true_iff, !bool_decide_eq_true.
  intros [[[[Hk Hn] [vx Hx]] [vy Hy]] [vz Hz]].
  exists k, vx, vy, vz. repeat split; try done. lia.
Qed.

Lemma node_present_copyable D v :
  node_present D v = true -> copyable D v = true.
Proof.
  intros (k & vx & vy & vz & Hk & H0 & _ & Hx & Hy & Hz)%node_present_spec.
  unfold copyable, position. rewrite Hk; simpl. rewrite Hx, Hy, Hz.
  apply orb_true_iff. right.
  rewrite !andb_true_iff, !bool_decide_eq_true.
  repeat split; eauto. lia.
Qed.

(** The node that the index of [part'] gives for a copied id has the
    coordinates that the node table of [D] holds at the position that
    [IsolatePart] read. *)
Lemma copied_GetNode D part' nid :
  nodes_copied D part' -> nid ∈ nids (nodes part') ->
  exists vx vy vz,
    FiniteElementObject_GetNode part' nid = Normal (vx, vy, vz) /\
    x (nodes D) !! Z.to_nat (position D nid) = Some vx /\
    y (nodes D) !! Z.to_nat (position D nid) = Some vy /\
    z (nodes D) !! Z.to_nat (position D nid) = Some vz.
Proof.
  intros (Hx & Hy & Hz & Hidx & _) Hin.
  apply list_elem_of_lookup in Hin as [i Hi].
  destruct (Forall2_lookup_l _ _ _ _ _ Hx Hi) as (vx & Ex & Dx).
  destruct (Forall2_lookup_l _ _ _ _ _ Hy Hi) as (vy & Ey & Dy).
  destruct (Forall2_lookup_l _ _ _ _ _ Hz Hi) as (vz & Ez & Dz).
  exists vx, vy, vz. repeat split; try done.
  unfold FiniteElementObject_GetNode, map_at. rewrite (Hidx i nid Hi).
  unfold GetNode; simpl.
  by rewrite (vector_at_Normal _ _ _ Ex), (vector_at_Normal _ _ _ Ey),
    (vector_at_Normal _ _ _ Ez).
Qed.

Lemma Forall_references_of_part (P : Z -> Prop) p (l : list Row) :
  Forall P (references l) -> Forall P (references (rows_of_part p l)).
Proof.
  rewrite !Forall_forall. intros H v Hv. apply H.
  unfold references in *. apply list_elem_of_bind in Hv as (r & Hv & Hr).
  apply list_elem_of_filter in Hr as [_ Hr].
  apply list_elem_of_bind. eauto.
Qed.

(** C1: for a Document [D] with parallel element vectors and referential
    integrity, [IsolatePart] returns a Document, leaves [D] as it was, and
    in the result: the element vectors are parallel and hold the rows of
    part [p] of [D] in their order, so every part id is [p]; the node list
    holds the nonzero ids that these rows refer to, in the order of their
    first reference, each once and never the id 0; and each of them is
    indexed to a copy of the node of [D]. *)
Theorem IsolatePart_extracts_part parts D p :
  parallel_elements (elements D) = true ->
  referential_integrity D = true ->
  exists part',
    IsolatePart parts D p = (Normal part', D) /\
    parallel_elements (elements part') = true /\
    rows (elements part') = rows_of_part p (rows (elements D)) /\
    Forall (fun q => q = p) (pids (elements part')) /\
    nids (nodes part') = first_refs [] (references (rows (elements part'))) /\
    NoDup (nids (nodes part')) /\
    (0 ∉ nids (nodes part')) /\
    (forall v, (v ∈ nids (nodes part')) <->
               (v <> 0 /\ v ∈ references (rows (elements part')))) /\
    (forall nid, nid ∈ nids (nodes part') ->
       exists n, FiniteElementObject_GetNode D nid = Normal n /\
                 FiniteElementObject_GetNode part' nid = Normal n).
Proof.
  intros Hp Hri.
  assert (Forall (fun v => v = 0 \/ node_present D v = true)
            (references (rows (elements D)))) as Hall.
  { unfold referential_integrity in Hri. rewrite forallb_forall in Hri.
    apply Forall_forall. intros v Hv%list_elem_of_In%Hri.
    apply orb_true_iff in Hv. destruct Hv; [left; lia|by right]. }
  apply (Forall_references_of_part _ p) in Hall.
  destruct (IsolatePart_run parts D p Hp) as (v & E & Hinv & Hel).
  { eapply Forall_impl; [exact Hall|]. intros b [->|Hb]; [done|].
    by apply node_present_copyable. }
  destruct v as [o part']. simpl in *.
  destruct Hinv as (Hn & He & Hei & Hni & Hids & Hcopied). simpl in *.
  destruct (first_refs_spec
              (references (rows_of_part p (rows (elements D)))))
    as (Hnd & H0 & Hmem).
  rewrite <- Hids in Hnd, H0, Hmem.
  assert (forall nid, nid ∈ nids (nodes part') -> node_present D nid = true)
    as Hpres.
  { intros nid [Hnz Hin]%Hmem. rewrite Forall_forall in Hall.
    by destruct (Hall nid Hin). }
  assert (o = D) as ->.
  { rewrite touched_present in Hni.
    - destruct o, D; simpl in *; congruence.
    - apply Forall_forall. intros nid Hnid%Hpres.
      apply node_present_spec in Hnid as (k & _ & _ & _ & -> & _). eauto. }
  exists part'. rewrite Hel, rows_columns.
  split; [done|]. split; [apply parallel_columns|]. split; [done|].
  split.
  { simpl. apply Forall_fmap, Forall_forall.
    by intros r [Hr _]%list_elem_of_filter. }
  repeat split; try done; try (by apply Hmem).
  intros nid Hnid.
  destruct (copied_GetNode D part' nid Hcopied Hnid)
    as (vx & vy & vz & G & Ex & Ey & Ez).
  exists (vx, vy, vz). split; [|done].
  destruct (node_present_spec D nid (Hpres nid Hnid))
    as (k & _ & _ & _ & Hk & Hk0 & _).
  unfold position in Ex, Ey, Ez. rewrite Hk in Ex, Ey, Ez. simpl in *.
  unfold FiniteElementObject_GetNode, map_at, GetNode. rewrite Hk; simpl.
  by rewrite (vector_at_Some _ _ _ Hk0 Ex), (vector_at_Some _ _ _ Hk0 Ey),
    (vector_at_Some _ _ _ Hk0 Ez).
Qed.

End IsolateFacts.

(** ** References to nodes that the Document does not have *)

Section DanglingFacts.
Context `{B : Boost}.

Lemma touched_lookup m l v :
  touched m l !! v
  = if decide (v ∈ l) then Some (default 0 (m !! v)) else m !! v.
Proof.
  induction l as [|w l IH] using rev_ind.
  - rewrite decide_False by apply not_elem_of_nil. done.
  - rewrite touched_snoc. unfold map_index.
    destruct (decide (v = w)) as [->|Hne].
    + rewrite (decide_True (P := w ∈ l ++ [w]))
        by (apply elem_of_app; right; by apply list_elem_of_singleton).
      rewrite IH. destruct (decide (w ∈ l)) as [Hin|Hnin]; simpl.
      * exact IH.
      * destruct (m !! w) as [a|] eqn:Em; simpl.
        -- exact IH.
        -- apply lookup_insert_eq.
    + assert (touched m l !! v
              = if decide (v ∈ l ++ [w]) then Some (default 0 (m !! v))
                else m !! v) as Hgoal.
      { rewrite IH. destruct (decide (v ∈ l)) as [Hin|Hnin].
        - rewrite decide_True; [done|]. apply elem_of_app. by left.
        - rewrite decide_False; [done|].
          rewrite elem_of_app, list_elem_of_singleton. tauto. }
      destruct (touched m l !! w) as [a|]; simpl; [done|].
      by rewrite lookup_insert_ne.
Qed.

Lemma present_or_unknown_copyable D v :
  has_first_node D = true -> present_or_unknown D v = true ->
  copyable D v = true.
Proof.
  unfold has_first_node, present_or_unknown.
  rewrite !andb_true_iff, !orb_true_iff, !bool_decide_eq_true.
  intros [[Hx Hy] Hz] [[Hv|Hv]|Hv].
  - unfold copyable. by rewrite Hv.
  - by apply node_present_copyable.
  - unfold copyable, position. rewrite Hv. simpl.
    rewrite !bool_decide_eq_true_2 by done. apply orb_true_r.
Qed.

Lemma slot_columns_Renumbered P k col col' :
  slot_columns (elements P) !! k = Some col ->
  slot_columns (elements (Renumbered P)) !! k = Some col' ->
  col' = new_id (nids (nodes P)) <$> take (length (eids (elements P))) col.
Proof.
  unfold slot_columns, Renumbered; simpl.
  do 8 (destruct k as [|k]; simpl; [by intros [= <-] [= <-]|]).
  done.
Qed.

(** C5, as the code has it: a reference to a node id that the node table
    does not know raises no error.  [Renumber_Nodes] returns whenever its
    vectors are long enough, and gives such a slot the new id 0.
    [IsolatePart] returns whenever [D] has a first node and every reference
    of the part is unused, present or unknown to the index of [D]: for an
    unknown id it reads [objects.node_index[id]], which enters the id with
    position 0, and the part gets the id with the coordinates of the first
    node of [D]. *)
Theorem dangling_reference_raises_no_error :
  (forall P,
     long_enough P = true ->
     exists P',
       Renumber_Nodes P = Normal P' /\
       forall k col col' j v,
         slot_columns (elements P) !! k = Some col ->
         slot_columns (elements P') !! k = Some col' ->
         (j < length (eids (elements P)))%nat ->
         col !! j = Some v -> v <> 0 -> v ∉ nids (nodes P) ->
         col' !! j = Some 0) /\
  (forall parts D p,
     parallel_elements (elements D) = true ->
     has_first_node D = true ->
     Forall (fun v => present_or_unknown D v = true)
            (references (rows_of_part p (rows (elements D)))) ->
     exists part' D',
       IsolatePart parts D p = (Normal part', D') /\
       forall v,
         v ∈ references (rows_of_part p (rows (elements D))) ->
         v <> 0 -> node_index D !! v = None ->
         v ∈ nids (nodes part') /\
         node_index D' !! v = Some 0 /\
         exists n, GetNode (nodes D) 0 = Normal n /\
                   FiniteElementObject_GetNode part' v = Normal n).
Proof.
  split.
  - intros P Hlen. exists (Renumbered P).
    split; [by apply Renumber_Nodes_closed|].
    intros k col col' j v Hcol Hcol' Hj Hv Hv0 Hnin.
    rewrite (slot_columns_Renumbered P k col col' Hcol Hcol').
    rewrite list_lookup_fmap, lookup_take_lt by done. rewrite Hv. simpl.
    by rewrite new_id_absent.
  - intros parts D p Hp Hfirst Hall.
    destruct (IsolatePart_run parts D p Hp) as (v & E & Hinv & Hel).
    { eapply Forall_impl; [exact Hall|]. intros b Hb.
      by apply present_or_unknown_copyable. }
    exists (part v), (objects v). split; [done|].
    intros w Hw Hw0 Hnone.
    destruct Hinv as (Hn & He & Hei & Hni & Hids & Hcopied).
    destruct (first_refs_spec
                (references (rows_of_part p (rows (elements D)))))
      as (_ & _ & Hmem).
    rewrite <- Hids in Hmem.
    assert (w ∈ nids (nodes (part v))) as Hin by (by apply Hmem).
    split; [done|]. split.
    + rewrite Hni, touched_lookup, decide_True by done. by rewrite Hnone.
    + destruct (copied_GetNode D (part v) w Hcopied Hin)
        as (vx & vy & vz & G & Ex & Ey & Ez).
      exists (vx, vy, vz). split; [|done].
      unfold position in Ex, Ey, Ez. rewrite Hnone in Ex, Ey, Ez.
      simpl in Ex, Ey, Ez. unfold GetNode.
      by rewrite (vector_at_Some _ 0 _ ltac:(lia) Ex),
        (vector_at_Some _ 0 _ ltac:(lia) Ey),
        (vector_at_Some _ 0 _ ltac:(lia) Ez).
Qed.

End DanglingFacts.

(** ** The theorems at the Documents of the examples *)

Lemma IsolatePart_extracts_part_witness :
  parallel_elements (elements D_two_parts) = true /\
  referential_integrity D_two_parts = true /\
  exists part',
    IsolatePart ∅ D_two_parts 5 = (Normal part', D_two_parts) /\
    rows (elements part') = rows_of_part 5 (rows (elements D_two_parts)) /\
    NoDup (nids (nodes part')).
Proof.
  split; [vm_compute; reflexivity|]. split; [vm_compute; reflexivity|].
  destruct (IsolatePart_extracts_part (B := Decimal.boost) ∅ D_two_parts 5)
    as (part' & H1 & _ & H2 & _ & _ & H3 & _);
    [vm_compute; reflexivity..|].
  exists part'. auto.
Defined.

(** The part that [IsolatePart] returns for part 5 of [D_two_parts]. *)
Example IsolatePart_D_two_parts :
  (IsolatePart ∅ D_two_parts 5).1 = Normal P_part.
Proof. reflexivity. Qed.

Lemma Renumber_Nodes_dense_witness :
  parallel_nodes (nodes P_part) = true /\
  parallel_elements (elements P_part) = true /\
  exists P',
    Renumber_Nodes P_part = Normal P' /\
    nids (nodes P') = dense 3 /\ eids (elements P') = dense 2.
Proof.
  split; [vm_compute; reflexivity|]. split; [vm_compute; reflexivity|].
  destruct (Renumber_Nodes_dense (B := Decimal.boost) P_part)
    as (P' & f & H1 & H2 & _ & _ & _ & H3 & _).
  - vm_compute; reflexivity.
  - vm_compute; reflexivity.
  - compute_done.
  - compute_done.
  - vm_compute; reflexivity.
  - exists P'. auto.
Defined.

(** What [Renumber_Nodes] returns for [P_part]. *)
Example Renumber_Nodes_P_part :
  rbind (Renumber_Nodes P_part)
        (fun P' => Normal (nids (nodes P'), eids (elements P'),
                           n1 (elements P'), n2 (elements P'),
                           n3 (elements P')))
  = Normal ([1; 2; 3], [1; 2], [1; 2], [2; 1], [0; 3]).
Proof. vm_compute. reflexivity. Qed.

Lemma Renumber_Nodes_idempotent_witness :
  Renumber_Nodes P_part = Normal (Renumbered P_part) /\
  Renumber_Nodes (Renumbered P_part) = Normal (Renumbered P_part).
Proof.
  assert (Renumber_Nodes P_part = Normal (Renumbered P_part)) as H
    by reflexivity.
  split; [exact H|].
  exact (Renumber_Nodes_idempotent (B := Decimal.boost) P_part _ H).
Defined.

(** C5 fails as stated: the element of [D_dangling] names the node id 99,
    which [D_dangling] does not have, and neither [IsolatePart] nor
    [Renumber_Nodes] raises an error: the part gets a node 99 with the
    coordinates of node 1, and the renumbered slot is 0. *)
Lemma dangling_reference_is_accepted :
  dangling D_dangling 99 = true /\
  rbind (IsolatePart ∅ D_dangling 5).1
        (fun q => Normal (nids (nodes q), x (nodes q), y (nodes q),
                          z (nodes q)))
  = Normal ([1; 99], [(5, 0); (5, 0)], [(6, 0); (6, 0)], [(7, 0); (7, 0)]) /\
  rbind (Renumber_Nodes D_dangling)
        (fun q => Normal (n1 (elements q), n2 (elements q)))
  = Normal ([1], [0]).
Proof. vm_compute. done. Qed.

Lemma dangling_reference_raises_no_error_witness :
  long_enough D_dangling = true /\
  parallel_elements (elements D_dangling) = true /\
  has_first_node D_dangling = true /\
  (exists P', Renumber_Nodes D_dangling = Normal P') /\
  (exists part' D', IsolatePart ∅ D_dangling 5 = (Normal part', D') /\
                    99 ∈ nids (nodes part') /\
                    node_index D' !! 99 = Some 0).
Proof.
  split; [vm_compute; reflexivity|]. split; [vm_compute; reflexivity|].
  split; [vm_compute; reflexivity|]. split.
  - destruct (proj1 (dangling_reference_raises_no_error (B := Decimal.boost))
                D_dangling) as (P' & H & _); [vm_compute; reflexivity|].
    by exists P'.
  - destruct (proj2 (dangling_reference_raises_no_error (B := Decimal.boost))
                ∅ D_dangling 5) as (part' & D' & H & Hd).
    + vm_compute; reflexivity.
    + vm_compute; reflexivity.
    + compute_done.
    + exists part', D'. split; [exact H|].
      destruct (Hd 99) as (H1 & H2 & _).
      * compute_done.
      * discriminate.
      * reflexivity.
      * auto.
Defined.

(** The whole pipeline of [main] on [input_mesh]: parse, isolate part 5,
    renumber. *)
Example pipeline_on_input_mesh :
  let kf := (Parse (B := Decimal.boost) 40 input_mesh new_KeyFile).2 in
  rbind (IsolatePart (parts kf) (obj kf) 5).1
    (fun q => rbind (Renumber_Nodes q)
       (fun q' => Normal (nids (nodes q), nids (nodes q'), x (nodes q'),
                          eids (elements q'), pids (elements q'),
                          n1 (elements q'), n2 (elements q'),
                          n3 (elements q'))))
  = Normal ([1; 2], [1; 2], [(0, -1); (10, -1)], [1], [5], [1], [2], [0]).
Proof. vm_compute. reflexivity. Qed.


(** ** Further properties of the tokenizer *)

Lemma append_cons a (s t : string) : String a s +:+ t = String a (s +:+ t).
Proof. reflexivity. Qed.

Lemma append_nil_l (t : string) : EmptyString +:+ t = t.
Proof. reflexivity. Qed.

Lemma append_nil_r (s : string) : s +:+ EmptyString = s.
Proof.
  induction s as [|a s IH]; [done|]. by rewrite append_cons, IH.
Qed.

Lemma append_assoc (s1 s2 s3 : string) :
  (s1 +:+ s2) +:+ s3 = s1 +:+ (s2 +:+ s3).
Proof.
  induction s1 as [|a s1 IH]; [done|]. by rewrite !append_cons, IH.
Qed.

Lemma chars_all_append p s1 s2 :
  chars_all p (s1 +:+ s2) = chars_all p s1 && chars_all p s2.
Proof.
  induction s1 as [|a s1 IH]; [done|].
  rewrite append_cons. simpl. by rewrite IH, andb_assoc.
Qed.

Lemma chars_all_impl (p q : Z -> bool) s :
  (forall c, p c = true -> q c = true) ->
  chars_all p s = true -> chars_all q s = true.
Proof.
  intros Hpq. induction s as [|a s IH]; simpl; [done|].
  rewrite !andb_true_iff. intros [H1 H2]. auto.
Qed.

Lemma read_while_append p s :
  (read_while p s).1 +:+ (read_while p s).2 = s.
Proof.
  induction s as [|a s IH]; simpl; [done|].
  destruct (p (to_char (chr a))); [|done].
  destruct (read_while p s) as [w r]. simpl in *.
  by rewrite append_cons, IH.
Qed.

Lemma read_while_chars p s : chars_all p (read_while p s).1 = true.
Proof.
  induction s as [|a s IH]; simpl; [done|].
  destruct (p (to_char (chr a))) eqn:E; [|done].
  destruct (read_while p s) as [w r]. simpl in *. by rewrite E, IH.
Qed.

Lemma get_append a s : (get (String a s)).1 +:+ (get (String a s)).2 = String a s.
Proof. reflexivity. Qed.

(** A stream whose pending character is not [EOF] is not empty. *)
Lemma peek_not_EOF s :
  to_char (peek s) <> EOF -> exists a s', s = String a s'.
Proof. destruct s as [|a s']; [done|]. eauto. Qed.

Lemma AcceptWhitespace_consumes lx :
  stream lx <> EmptyString ->
  symbol (AcceptWhitespace lx).1 +:+ stream (AcceptWhitespace lx).2 = stream lx.
Proof.
  intros Hne. unfold AcceptWhitespace.
  destruct (stream lx) as [|a s]; [done|]. simpl.
  pose proof (read_while_append space_cond s) as H.
  destruct (read_while space_cond s) as [w r]. simpl in *.
  by rewrite append_assoc, H.
Qed.

Lemma AcceptWord_consumes lx :
  stream lx <> EmptyString ->
  symbol (AcceptWord lx).1 +:+ stream (AcceptWord lx).2 = stream lx.
Proof.
  intros Hne. unfold AcceptWord.
  destruct (stream lx) as [|a s]; [done|]. simpl.
  pose proof (read_while_append word_cond s) as H.
  destruct (read_while word_cond s) as [w r]. simpl in *.
  by rewrite append_assoc, H.
Qed.

Lemma get_if_append (b : bool) s :
  (b = true -> s <> EmptyString) ->
  (get_if b s).1 +:+ (get_if b s).2 = s.
Proof.
  intros H. destruct b; simpl; [|done].
  destruct s as [|a s]; [by destruct H|done].
Qed.

Lemma AcceptNumber_consumes lx :
  stream lx <> EmptyString ->
  symbol (AcceptNumber lx).1 +:+ stream (AcceptNumber lx).2 = stream lx.
Proof.
  intros Hne. unfold AcceptNumber.
  destruct (stream lx) as [|a s1]; [done|]. simpl.
  pose proof (read_while_append digit_cond s1) as H1.
  destruct (read_while digit_cond s1) as [d1 s2]. simpl in H1.
  pose proof (get_if_append (peek s2 =? chr ".") s2) as H2.
  destruct (get_if (peek s2 =? chr ".") s2) as [dot s3]. simpl in H2.
  pose proof (read_while_append digit_cond s3) as H3.
  destruct (read_while digit_cond s3) as [d2 s4]. simpl in H3.
  match goal with
  | |- context [get_if ?b s4] =>
      pose proof (get_if_append b s4) as H4; destruct (get_if b s4) as [ex s5]
  end. simpl in H4.
  match goal with
  | |- context [get_if ?b s5] =>
      pose proof (get_if_append b s5) as H5; destruct (get_if b s5) as [sg s6]
  end. simpl in H5.
  pose proof (read_while_append digit_cond s6) as H6.
  destruct (read_while digit_cond s6) as [d3 s7]. simpl in H6.
  simpl. rewrite !append_assoc.
  rewrite H6, H5, H4, H3, H2, H1; try done.
  all: intros Hb Hs; rewrite Hs in Hb; done.
Qed.

Lemma comment_loop_no_comment fuel c lx :
  c <> chr "$" -> comment_loop fuel c lx = (c, lx).
Proof.
  intros Hc. destruct fuel as [|fuel]; simpl; [done|].
  by replace (c =? chr "$") with false by lia.
Qed.

Lemma newline_char a : to_char (chr a) = NL -> a = ascii_of_N 10.
Proof. intros H. by apply (to_char_chr_eq a 10). Qed.

(** The dispatch on the pending character that both states of [NextSymbol]
    share: newline, blank, number, end of stream, word. *)
Lemma midline_dispatch_consumes lx :
  let c := to_char (peek (stream lx)) in
  let r :=
    (if c =? NL then
       let (sy, lx) := AcceptNewline lx in (Some sy, incr_line lx)
     else if is_blank c then
       let (sy, lx) := AcceptWhitespace lx in (Some sy, lx)
     else if starts_number c then
       let (sy, lx) := AcceptNumber lx in (Some sy, lx)
     else if c =? EOF then
       (Some (mkSymbol END_OF_FILE EmptyString), set_state lx (-1))
     else
       let (sy, lx) := AcceptWord lx in (Some sy, lx)) in
  exists sy, r.1 = Some sy /\ symbol sy +:+ stream r.2 = stream lx.
Proof.
  intros c r. subst r.
  destruct (c =? NL) eqn:E1.
  { destruct (stream lx) as [|a s] eqn:Es; [done|].
    assert (a = ascii_of_N 10) as -> by (apply newline_char; subst c; simpl in *; lia).
    eexists. split; [reflexivity|]. simpl. by rewrite Es. }
  destruct (is_blank c) eqn:E2.
  { pose proof (AcceptWhitespace_consumes lx) as H.
    destruct (AcceptWhitespace lx) as [sy lx']. eexists. split; [reflexivity|].
    apply H. intros Hs. subst c. rewrite Hs in E2. done. }
  destruct (starts_number c) eqn:E3.
  { pose proof (AcceptNumber_consumes lx) as H.
    destruct (AcceptNumber lx) as [sy lx']. eexists. split; [reflexivity|].
    apply H. intros Hs. subst c. rewrite Hs in E3. done. }
  destruct (c =? EOF) eqn:E4.
  { eexists. split; [reflexivity|]. done. }
  pose proof (AcceptWord_consumes lx) as H.
  destruct (AcceptWord lx) as [sy lx']. eexists. split; [reflexivity|].
  apply H. intros Hs. subst c. rewrite Hs in E4. done.
Qed.

(** *** The comment loop *)

Lemma skip_to_eol_suffix s : exists pre, s = pre +:+ skip_to_eol s.
Proof.
  induction s as [|a s [pre IH]]; simpl; [by exists EmptyString|].
  destruct (negb _ && negb _).
  - exists (String a pre). by rewrite append_cons, <- IH.
  - by exists EmptyString.
Qed.

Lemma ignore_suffix s : exists pre, s = pre +:+ ignore s.
Proof.
  destruct s as [|a s]; [by exists EmptyString|].
  by exists (String a EmptyString).
Qed.

Lemma skip_to_eol_line body tail :
  chars_all inside_line body = true ->
  inside_line (to_char (peek tail)) = false ->
  skip_to_eol (body +:+ tail) = tail.
Proof.
  intros Hb Ht. induction body as [|a body IH].
  - rewrite append_nil_l. destruct tail as [|b tail]; [done|].
    simpl in *. unfold inside_line in Ht. by rewrite Ht.
  - rewrite append_cons. simpl in *. apply andb_true_iff in Hb as [Ha Hb].
    unfold inside_line in Ha. rewrite Ha. auto.
Qed.

Lemma comment_loop_spec fuel lx :
  let r := comment_loop fuel (to_char (peek (stream lx))) lx in
  r.1 = to_char (peek (stream r.2)) /\
  state r.2 = state lx /\
  currentSymbol r.2 = currentSymbol lx /\
  current_line lx <= current_line r.2 /\
  exists pre, stream lx = pre +:+ stream r.2.
Proof.
  revert lx. induction fuel as [|fuel IH]; intros lx; simpl.
  { repeat split; [lia|by exists EmptyString]. }
  destruct (_ =? chr "$") eqn:E; simpl.
  2:{ repeat split; [lia|by exists EmptyString]. }
  specialize (IH (incr_line (set_stream lx (ignore (skip_to_eol (stream lx)))))).
  simpl in IH. destruct IH as (H1 & H2 & H3 & H4 & pre & H5).
  repeat split; try done; [lia|].
  destruct (skip_to_eol_suffix (stream lx)) as [p1 Hp1].
  destruct (ignore_suffix (skip_to_eol (stream lx))) as [p2 Hp2].
  exists (p1 +:+ p2 +:+ pre).
  rewrite !append_assoc, <- H5, <- Hp2. exact Hp1.
Qed.

(** More fuel than the length of the stream changes nothing. *)
Lemma comment_loop_fuel fuel k lx :
  (String.length (stream lx) <= fuel)%nat ->
  comment_loop (fuel + k) (to_char (peek (stream lx))) lx
  = comment_loop fuel (to_char (peek (stream lx))) lx.
Proof.
  revert lx. induction fuel as [|fuel IH]; intros lx Hlen.
  - destruct (stream lx) eqn:E; simpl in Hlen; [|lia].
    by rewrite !comment_loop_no_comment.
  - simpl. destruct (_ =? chr "$") eqn:E; [|done].
    assert (stream lx <> EmptyString) as Hne.
    { intros H0. rewrite H0 in E. done. }
    pose proof (IgnoreComment_shorter lx Hne) as Hlt.
    unfold IgnoreComment in *; simpl in *.
    apply (IH (incr_line (set_stream lx (ignore (skip_to_eol (stream lx)))))).
    simpl. lia.
Qed.

Lemma after_comments_spec lx :
  state (after_comments lx) = state lx /\
  currentSymbol (after_comments lx) = currentSymbol lx /\
  current_line lx <= current_line (after_comments lx) /\
  (exists pre, stream lx = pre +:+ stream (after_comments lx)) /\
  (state lx = 0 -> to_char (peek (stream (after_comments lx))) <> chr "$").
Proof.
  unfold after_comments. destruct (state lx =? 0) eqn:E.
  - pose proof (comment_loop_spec (String.length (stream lx)) lx) as H.
    pose proof (comment_loop_done (String.length (stream lx)) lx) as Hd.
    cbv zeta in H. destruct H as (H1 & H2 & H3 & H4 & H5).
    repeat split; try done. intros _. rewrite <- H1. apply Hd. lia.
  - repeat split; [lia|by exists EmptyString|lia].
Qed.

(** *** What each case of [NextSymbol] returns *)

(** The cases of [switch (c)], on the character [c] that is pending once
    the comment lines are passed. *)
Lemma NextSymbol_cases lx sy :
  (NextSymbol lx).1 = Some sy ->
  let lx1 := after_comments lx in
  let c := to_char (peek (stream lx1)) in
  (state lx = 0 \/ state lx = 1) /\
  exists lx2,
    (NextSymbol lx).2 = set_currentSymbol lx2 (Some sy) /\
    ((state lx = 0 /\ c = chr "*" /\ sy = (AcceptAsterisk lx1).1 /\ lx2 = (AcceptAsterisk lx1).2) \/
     (c = NL /\ sy = (AcceptNewline lx1).1 /\
        lx2 = incr_line (AcceptNewline lx1).2) \/
     (c <> NL /\ is_blank c = true /\ sy = (AcceptWhitespace lx1).1 /\ lx2 = (AcceptWhitespace lx1).2) \/
     (state lx = 0 /\ c = chr "," /\ sy = comma_symbol /\ lx2 = lx1) \/
     (c <> NL /\ starts_number c = true /\ sy = (AcceptNumber lx1).1 /\ lx2 = (AcceptNumber lx1).2) \/
     (c = EOF /\ sy = mkSymbol END_OF_FILE EmptyString /\
        lx2 = set_state lx1 (-1)) \/
     (c <> NL /\ c <> EOF /\ is_blank c = false /\
        starts_number c = false /\
        sy = (AcceptWord lx1).1 /\ lx2 = (AcceptWord lx1).2)).
Proof.
  intros Hsy lx1 c. subst c lx1. unfold after_comments.
  unfold NextSymbol in *.
  destruct (state lx =? 0) eqn:E0.
  - split; [left; lia|].
    destruct (comment_loop _ _ lx) as [c lx1] eqn:Ecl.
    pose proof (comment_loop_spec (String.length (stream lx)) lx) as Hc.
    rewrite Ecl in Hc. cbv zeta in Hc. simpl in Hc. destruct Hc as [Hc _].
    simpl. rewrite <- Hc. clear Hc Ecl.
    assert (state lx = 0) as Hst by lia.
    destruct (c =? chr "*") eqn:E1.
    { simpl in *. injection Hsy as <-. eexists. split; [done|].
      left. repeat split; [done|]. by apply Z.eqb_eq in E1. }
    destruct (c =? NL) eqn:E2.
    { simpl in *. injection Hsy as <-. eexists. split; [done|].
      right; left. repeat split. by apply Z.eqb_eq in E2. }
    apply Z.eqb_neq in E2.
    destruct (is_blank c) eqn:E3.
    { destruct (AcceptWhitespace lx1) as [sy' lx2] eqn:Ea. simpl in *.
      injection Hsy as <-. eexists. split; [done|]. do 2 right; left. done. }
    destruct (c =? chr ",") eqn:E4.
    { simpl in *. injection Hsy as <-. eexists. split; [done|].
      do 3 right; left. repeat split; [done|]. by apply Z.eqb_eq in E4. }
    destruct (starts_number c) eqn:E5.
    { destruct (AcceptNumber lx1) as [sy' lx2] eqn:Ea. simpl in *.
      injection Hsy as <-. eexists. split; [done|]. do 4 right; left. done. }
    destruct (c =? EOF) eqn:E6.
    { simpl in *. injection Hsy as <-. eexists. split; [done|].
      do 5 right; left. repeat split. by apply Z.eqb_eq in E6. }
    apply Z.eqb_neq in E6.
    destruct (AcceptWord lx1) as [sy' lx2] eqn:Ea. simpl in *.
    injection Hsy as <-. eexists. split; [done|]. do 6 right. done.
  - destruct (state lx =? 1) eqn:E1'; [|done].
    split; [right; lia|].
    set (c := to_char (peek (stream lx))) in *.
    destruct (c =? NL) eqn:E2.
    { simpl in *. injection Hsy as <-. eexists. split; [done|].
      right; left. repeat split. by apply Z.eqb_eq in E2. }
    apply Z.eqb_neq in E2.
    destruct (is_blank c) eqn:E3.
    { destruct (AcceptWhitespace lx) as [sy' lx2] eqn:Ea. simpl in *.
      injection Hsy as <-. eexists. split; [done|]. do 2 right; left. done. }
    destruct (starts_number c) eqn:E5.
    { destruct (AcceptNumber lx) as [sy' lx2] eqn:Ea. simpl in *.
      injection Hsy as <-. eexists. split; [done|]. do 4 right; left. done. }
    destruct (c =? EOF) eqn:E6.
    { simpl in *. injection Hsy as <-. eexists. split; [done|].
      do 5 right; left. repeat split. by apply Z.eqb_eq in E6. }
    apply Z.eqb_neq in E6.
    destruct (AcceptWord lx) as [sy' lx2] eqn:Ea. simpl in *.
    injection Hsy as <-. eexists. split; [done|]. do 6 right. done.
Qed.

(** X1: the text of the symbol that [NextSymbol] returns is what it has read:
    mid-line always, and at the start of a line when the pending character
    is neither ['$'] nor [',']. *)
Theorem NextSymbol_symbol_is_what_it_read lx sy :
  (NextSymbol lx).1 = Some sy ->
  state lx = 1 \/
  (state lx = 0 /\ to_char (peek (stream lx)) <> chr "$" /\
   to_char (peek (stream lx)) <> chr ",") ->
  symbol sy +:+ stream (NextSymbol lx).2 = stream lx.
Proof.
  intros Hsy Hst. pose proof (midline_dispatch_consumes lx) as Hd.
  cbv zeta in Hd. destruct Hd as (sy' & Hd1 & Hd2).
  unfold NextSymbol in *.
  destruct Hst as [Hst|(Hst & Hc1 & Hc2)]; rewrite Hst in *.
  - change (1 =? 0) with false in *. change (1 =? 1) with true in *.
    cbv iota in *.
    destruct (if to_char (peek (stream lx)) =? NL then _ else _)
      as [o lx'] eqn:E. simpl in *. congruence.
  - change (0 =? 0) with true in *. cbv iota in *.
    rewrite comment_loop_no_comment in * by done.
    destruct (to_char (peek (stream lx)) =? chr "*") eqn:E0.
    + apply Z.eqb_eq in E0. destruct lx as [s st cs cl]. simpl in *.
      destruct s as [|a s]; [done|].
      assert (a = ascii_of_N 42) as ->
          by (apply (to_char_chr_eq a 42); [lia | exact E0]).
      simpl in *. by injection Hsy as <-.
    + rewrite (proj2 (Z.eqb_neq _ _) Hc2) in *.
      destruct (if to_char (peek (stream lx)) =? NL then _ else _)
        as [o lx'] eqn:E. simpl in *. congruence.
Qed.

(** *** The symbols of the [Accept] methods *)

Ltac destruct_lets :=
  repeat match goal with
         | |- context [let (_, _) := ?e in _] => destruct e
         end.

Lemma AcceptWhitespace_fields lx :
  type (AcceptWhitespace lx).1 = WHITESPACE /\
  state (AcceptWhitespace lx).2 = 1 /\
  current_line (AcceptWhitespace lx).2 = current_line lx.
Proof. unfold AcceptWhitespace. destruct_lets. done. Qed.

Lemma AcceptWord_fields lx :
  type (AcceptWord lx).1 = WORD /\
  state (AcceptWord lx).2 = 1 /\
  current_line (AcceptWord lx).2 = current_line lx.
Proof. unfold AcceptWord. destruct_lets. done. Qed.

Lemma AcceptNumber_fields lx :
  type (AcceptNumber lx).1 = NUMBER /\
  state (AcceptNumber lx).2 = state lx /\
  current_line (AcceptNumber lx).2 = current_line lx.
Proof. unfold AcceptNumber. destruct_lets. done. Qed.

Lemma get_not_newline s :
  to_char (peek s) <> NL -> chars_all not_newline (get s).1 = true.
Proof.
  destruct s as [|a s]; [done|]. simpl. intros H.
  unfold not_newline. by rewrite (proj2 (Z.eqb_neq _ _) H).
Qed.

Lemma get_if_not_newline (b : bool) s :
  (b = true -> to_char (peek s) <> NL) ->
  chars_all not_newline (get_if b s).1 = true.
Proof. destruct b; simpl; [|done]. intros H. by apply get_not_newline, H. Qed.

Lemma read_while_not_newline p s :
  (forall c, p c = true -> not_newline c = true) ->
  chars_all not_newline (read_while p s).1 = true.
Proof. intros H. eapply chars_all_impl, read_while_chars. done. Qed.

Lemma digit_cond_not_newline c : digit_cond c = true -> not_newline c = true.
Proof. unfold digit_cond, not_newline. by intros [[? _]%andb_true_iff _]%andb_true_iff. Qed.

Lemma space_cond_not_newline c : space_cond c = true -> not_newline c = true.
Proof. unfold space_cond, not_newline. by intros [[? _]%andb_true_iff _]%andb_true_iff. Qed.

Lemma word_cond_not_newline c : word_cond c = true -> not_newline c = true.
Proof. unfold word_cond, not_newline. by intros [[? _]%andb_true_iff _]%andb_true_iff. Qed.

Lemma AcceptWhitespace_not_newline lx :
  to_char (peek (stream lx)) <> NL ->
  chars_all not_newline (symbol (AcceptWhitespace lx).1) = true.
Proof.
  intros Hc. unfold AcceptWhitespace.
  pose proof (get_not_newline _ Hc) as H0.
  destruct (get (stream lx)) as [c0 s1].
  pose proof (read_while_not_newline space_cond s1 space_cond_not_newline) as H1.
  destruct (read_while space_cond s1) as [w s2]. simpl in *.
  by rewrite chars_all_append, H0, H1.
Qed.

Lemma AcceptWord_not_newline lx :
  to_char (peek (stream lx)) <> NL ->
  chars_all not_newline (symbol (AcceptWord lx).1) = true.
Proof.
  intros Hc. unfold AcceptWord.
  pose proof (get_not_newline _ Hc) as H0.
  destruct (get (stream lx)) as [c0 s1].
  pose proof (read_while_not_newline word_cond s1 word_cond_not_newline) as H1.
  destruct (read_while word_cond s1) as [w s2]. simpl in *.
  by rewrite chars_all_append, H0, H1.
Qed.

Lemma AcceptNumber_not_newline lx :
  to_char (peek (stream lx)) <> NL ->
  chars_all not_newline (symbol (AcceptNumber lx).1) = true.
Proof.
  intros Hc. unfold AcceptNumber.
  pose proof (get_not_newline _ Hc) as H0.
  destruct (get (stream lx)) as [c0 s1].
  pose proof (read_while_not_newline digit_cond s1 digit_cond_not_newline) as H1.
  destruct (read_while digit_cond s1) as [d1 s2].
  match goal with
  | |- context [get_if ?b s2] =>
      pose proof (get_if_not_newline b s2) as H2; destruct (get_if b s2) as [dot s3]
  end.
  pose proof (read_while_not_newline digit_cond s3 digit_cond_not_newline) as H3.
  destruct (read_while digit_cond s3) as [d2 s4].
  match goal with
  | |- context [get_if ?b s4] =>
      pose proof (get_if_not_newline b s4) as H4; destruct (get_if b s4) as [ex s5]
  end.
  match goal with
  | |- context [get_if ?b s5] =>
      pose proof (get_if_not_newline b s5) as H5; destruct (get_if b s5) as [sg s6]
  end.
  pose proof (read_while_not_newline digit_cond s6 digit_cond_not_newline) as H6.
  destruct (read_while digit_cond s6) as [d3 s7]. simpl in *.
  rewrite !chars_all_append, H0, H1, H2, H3, H4, H5, H6; try done.
  - intros Hb. destruct s5 as [|a s5]; [done|]. simpl in *.
    apply orb_true_iff in Hb as [Hb|Hb]; apply Z.eqb_eq in Hb; rewrite Hb; done.
  - intros Hb. destruct s4 as [|a s4]; [done|]. simpl in *.
    apply orb_true_iff in Hb as [Hb|Hb]; apply Z.eqb_eq in Hb; rewrite Hb; done.
  - intros Hb. destruct s2 as [|a s2]; [done|]. simpl in *.
    apply Z.eqb_eq in Hb. rewrite Hb. done.
Qed.

(** *** Properties of [NextSymbol] *)

Ltac NextSymbol_cases H :=
  apply NextSymbol_cases in H; cbv zeta in H;
  destruct H as (Hst & lx2 & Hnext & Hcases);
  destruct Hcases as
    [(Hst0 & Hc & -> & ->)|[(Hc & -> & ->)|[(Hn & Hc & -> & ->)|
     [(Hst0 & Hc & -> & ->)|[(Hn & Hc & -> & ->)|[(Hc & -> & ->)|
     (Hn & He & Hc & Hnum & -> & ->)]]]]]].

Lemma NextSymbol_state_type lx sy :
  (NextSymbol lx).1 = Some sy ->
  state (NextSymbol lx).2 = state_after (state lx) (type sy) /\
  type sy <> COMMENT.
Proof.
  intros H. destruct (after_comments_spec lx) as (Hs & _).
  NextSymbol_cases H; rewrite Hnext; unfold set_currentSymbol; cbn [state].
  - rewrite Hst0. done.
  - done.
  - destruct (AcceptWhitespace_fields (after_comments lx)) as (-> & -> & _). done.
  - rewrite Hs. done.
  - destruct (AcceptNumber_fields (after_comments lx)) as (-> & -> & _).
    rewrite Hs. done.
  - done.
  - destruct (AcceptWord_fields (after_comments lx)) as (-> & -> & _). done.
Qed.

(** [NextSymbol] returns no symbol exactly when [state] is neither 0
    nor 1, and then it leaves the stream alone. *)
Lemma NextSymbol_Some lx :
  state lx = 0 \/ state lx = 1 -> is_Some (NextSymbol lx).1.
Proof.
  intros Hst. unfold NextSymbol.
  destruct Hst as [-> | ->]; simpl.
  - destruct (comment_loop _ _ lx) as [c lx1].
    repeat match goal with
           | |- context [if ?b then _ else _] => destruct b
           end;
      try destruct (AcceptWhitespace _); try destruct (AcceptNumber _);
      try destruct (AcceptWord _); simpl; eauto.
  - repeat match goal with
           | |- context [if ?b then _ else _] => destruct b
           end;
      try destruct (AcceptWhitespace _); try destruct (AcceptNumber _);
      try destruct (AcceptWord _); simpl; eauto.
Qed.

Lemma NextSymbol_None lx :
  (NextSymbol lx).1 = None ->
  state lx <> 0 /\ state lx <> 1 /\
  (NextSymbol lx).2 = set_currentSymbol lx None.
Proof.
  intros H.
  assert (~ (state lx = 0 \/ state lx = 1)) as Hst.
  { intros Hst%NextSymbol_Some. rewrite H in Hst. by destruct Hst. }
  repeat split; [tauto..|].
  unfold NextSymbol.
  rewrite (proj2 (Z.eqb_neq (state lx) 0)), (proj2 (Z.eqb_neq (state lx) 1));
    [done|tauto..].
Qed.

Lemma NextSymbol_stopped lx :
  state lx <> 0 /\ state lx <> 1 ->
  NextSymbol lx = (None, set_currentSymbol lx None).
Proof.
  intros [H0 H1]. unfold NextSymbol.
  by rewrite (proj2 (Z.eqb_neq (state lx) 0)), (proj2 (Z.eqb_neq (state lx) 1)).
Qed.

(** What [NextSymbol] has read is a prefix of the stream it was given. *)
Lemma NextSymbol_suffix lx :
  exists pre, stream lx = pre +:+ stream (NextSymbol lx).2.
Proof.
  destruct (NextSymbol lx).1 as [sy|] eqn:H.
  2:{ exists EmptyString. apply NextSymbol_None in H as (_ & _ & ->). done. }
  destruct (after_comments_spec lx) as (_ & _ & _ & [pre Hpre] & _).
  set (lx1 := after_comments lx) in *.
  assert (to_char (peek (stream lx1)) <> EOF -> stream lx1 <> EmptyString)
    as Hne by (intros Hc Hs; by rewrite Hs in Hc).
  NextSymbol_cases H; rewrite Hnext; simpl; fold lx1 in Hc |- *.
  - destruct (ignore_suffix (stream lx1)) as [p2 Hp2].
    exists (pre +:+ p2). by rewrite append_assoc, <- Hp2.
  - destruct (ignore_suffix (stream lx1)) as [p2 Hp2].
    exists (pre +:+ p2). by rewrite append_assoc, <- Hp2.
  - exists (pre +:+ symbol (AcceptWhitespace lx1).1).
    rewrite append_assoc, AcceptWhitespace_consumes; [done|].
    apply Hne. intros He. by rewrite He in Hc.
  - by exists pre.
  - exists (pre +:+ symbol (AcceptNumber lx1).1).
    rewrite append_assoc, AcceptNumber_consumes; [done|].
    apply Hne. intros He. by rewrite He in Hc.
  - by exists pre.
  - exists (pre +:+ symbol (AcceptWord lx1).1).
    rewrite append_assoc, AcceptWord_consumes; [done|]. by apply Hne.
Qed.

Lemma NextSymbol_keeps_chars p lx :
  chars_all p (stream lx) = true ->
  chars_all p (stream (NextSymbol lx).2) = true.
Proof.
  destruct (NextSymbol_suffix lx) as [pre ->].
  rewrite chars_all_append. by intros [_ ?]%andb_true_iff.
Qed.

Lemma pending_char p s :
  chars_all p s = true -> to_char (peek s) <> EOF -> p (to_char (peek s)) = true.
Proof.
  destruct s as [|a s]; [done|]. simpl. by intros [? _]%andb_true_iff.
Qed.

(** A symbol [NEWLINE] or [ASTERISK] is only returned when the stream
    holds that character. *)
Lemma NextSymbol_needs_char lx sy (p : Z -> bool) :
  (NextSymbol lx).1 = Some sy ->
  chars_all p (stream lx) = true ->
  (type sy = NEWLINE -> p NL = true) /\
  (type sy = ASTERISK -> p (chr "*") = true).
Proof.
  intros H Hp.
  destruct (after_comments_spec lx) as (_ & _ & _ & [pre Hpre] & _).
  rewrite Hpre, chars_all_append in Hp. apply andb_true_iff in Hp as [_ Hp].
  NextSymbol_cases H; split; intros Ht; simpl in Ht;
    try discriminate;
    try (destruct (AcceptWhitespace_fields (after_comments lx)) as (Hty & _);
         rewrite Hty in Ht; discriminate);
    try (destruct (AcceptNumber_fields (after_comments lx)) as (Hty & _);
         rewrite Hty in Ht; discriminate);
    try (destruct (AcceptWord_fields (after_comments lx)) as (Hty & _);
         rewrite Hty in Ht; discriminate).
  - rewrite <- Hc. apply pending_char; [done|]. by rewrite Hc.
  - rewrite <- Hc. apply pending_char; [done|]. by rewrite Hc.
Qed.

Lemma length_append (s1 s2 : string) :
  String.length (s1 +:+ s2) = (String.length s1 + String.length s2)%nat.
Proof.
  induction s1 as [|a s1 IH]; [done|]. rewrite append_cons. simpl. by rewrite IH.
Qed.

Lemma length_ignore s : (String.length (ignore s) <= String.length s)%nat.
Proof. destruct s; simpl; lia. Qed.

Lemma after_comments_id lx :
  state lx = 1 \/ to_char (peek (stream lx)) <> chr "$" ->
  after_comments lx = lx.
Proof.
  intros H. unfold after_comments. destruct (state lx =? 0) eqn:E; [|done].
  destruct H as [H|H]; [lia|]. by rewrite comment_loop_no_comment.
Qed.

Lemma not_newline_newlines s :
  chars_all not_newline s = true -> newlines s = 0.
Proof.
  induction s as [|a s IH]; simpl; [done|].
  intros [Ha Hs]%andb_true_iff. unfold not_newline in Ha.
  apply negb_true_iff in Ha. rewrite Ha, IH; done.
Qed.

Lemma symbol_lines lx sy :
  (NextSymbol lx).1 = Some sy ->
  (if bool_decide (type sy = NEWLINE) then symbol sy = nl
   else chars_all not_newline (symbol sy) = true) /\
  current_line (NextSymbol lx).2
  = current_line (after_comments lx) + newlines (symbol sy).
Proof.
  intros H.
  NextSymbol_cases H; rewrite Hnext; unfold set_currentSymbol;
    cbn [current_line].
  - simpl. split; [done|lia].
  - simpl. split; [done|lia].
  - destruct (AcceptWhitespace_fields (after_comments lx)) as (-> & _ & ->).
    pose proof (AcceptWhitespace_not_newline _ Hn) as Hs.
    rewrite (not_newline_newlines _ Hs). simpl. split; [done|lia].
  - simpl. split; [done|lia].
  - destruct (AcceptNumber_fields (after_comments lx)) as (-> & _ & ->).
    pose proof (AcceptNumber_not_newline _ Hn) as Hs.
    rewrite (not_newline_newlines _ Hs). simpl. split; [done|lia].
  - simpl. split; [done|lia].
  - destruct (AcceptWord_fields (after_comments lx)) as (-> & _ & ->).
    pose proof (AcceptWord_not_newline _ Hn) as Hs.
    rewrite (not_newline_newlines _ Hs). simpl. split; [done|lia].
Qed.

(** X2: at the start of a line, [NextSymbol] passes a line that begins with
    ['$']: it drops the characters up to the first newline or byte 0xFF
    and that character too, or everything when there is none, counts one
    line, and goes on as if called on the rest. *)
Theorem NextSymbol_skips_comment_line lx body tail :
  state lx = 0 ->
  stream lx = String "$" (body +:+ tail) ->
  chars_all inside_line body = true ->
  inside_line (to_char (peek tail)) = false ->
  NextSymbol lx = NextSymbol (incr_line (set_stream lx (ignore tail))).
Proof.
  intros Hst Hs Hb Ht.
  pose proof (skip_to_eol_line body tail Hb Ht) as Hskip.
  set (lx' := incr_line (set_stream lx (ignore tail))).
  assert (comment_loop (String.length (stream lx))
            (to_char (peek (stream lx))) lx
          = comment_loop (String.length (stream lx'))
              (to_char (peek (stream lx'))) lx') as Hloop.
  { rewrite Hs. cbn [String.length peek]. simpl comment_loop.
    unfold IgnoreComment. rewrite Hs. cbn [skip_to_eol].
    change (negb (to_char (chr "$") =? NL) && negb (to_char (chr "$") =? EOF))
      with true. cbv iota. rewrite Hskip. fold lx'.
    change (ignore tail) with (stream lx').
    pose proof (length_ignore tail) as Hi.
    replace (String.length (body +:+ tail)) with
      (String.length (stream lx')
       + (String.length (body +:+ tail) - String.length (stream lx')))%nat.
    - apply comment_loop_fuel. lia.
    - rewrite length_append. simpl. lia. }
  unfold NextSymbol.
  change (state lx') with (state lx). rewrite Hst.
  change (0 =? 0) with true. cbv iota. rewrite Hloop. reflexivity.
Qed.

(** X3: the state that [NextSymbol] leaves the lexer in depends on the type
    of the symbol alone: start of line after [NEWLINE], mid-line after
    [ASTERISK], [WHITESPACE] and [WORD], ended after [END_OF_FILE], and
    unchanged after [NUMBER] and [COMMA].  No symbol has the type
    [COMMENT]. *)
Theorem NextSymbol_next_state lx sy :
  (NextSymbol lx).1 = Some sy ->
  state (NextSymbol lx).2 = state_after (state lx) (type sy) /\
  type sy <> COMMENT.
Proof. apply NextSymbol_state_type. Qed.

(** X4: once [NextSymbol] has returned [END_OF_FILE], the next call runs no
    case of its [switch]: the symbol it returns is the default-constructed
    one, and the stream stays as it is. *)
Theorem NextSymbol_after_END_OF_FILE lx sy :
  (NextSymbol lx).1 = Some sy ->
  type sy = END_OF_FILE ->
  (NextSymbol (NextSymbol lx).2).1 = None /\
  stream (NextSymbol (NextSymbol lx).2).2 = stream (NextSymbol lx).2.
Proof.
  intros H Ht. apply NextSymbol_state_type in H as [H _].
  rewrite Ht in H. simpl in H.
  rewrite (NextSymbol_stopped (NextSymbol lx).2) by lia. done.
Qed.

(** X5: a symbol does not span lines: [NEWLINE] is the newline character
    alone, and no other symbol holds a newline character. *)
Theorem symbols_do_not_span_lines lx sy :
  (NextSymbol lx).1 = Some sy ->
  if bool_decide (type sy = NEWLINE) then symbol sy = nl
  else chars_all not_newline (symbol sy) = true.
Proof. intros H. by apply symbol_lines in H as [H _]. Qed.

(** X6: where no comment line is pending, [NextSymbol] advances the line
    counter by the number of newline characters of the symbol it
    returns. *)
Theorem NextSymbol_counts_lines lx sy :
  (NextSymbol lx).1 = Some sy ->
  state lx = 1 \/ to_char (peek (stream lx)) <> chr "$" ->
  current_line (NextSymbol lx).2 = current_line lx + newlines (symbol sy).
Proof.
  intros H Hc. apply symbol_lines in H as [_ H].
  by rewrite after_comments_id in H.
Qed.

Lemma NextSymbol_symbol_is_what_it_read_witness :
  symbol (mkSymbol NUMBER "12")
    +:+ stream (NextSymbol (new_KeyFileLexer "12 3")).2
  = stream (new_KeyFileLexer "12 3").
Proof.
  apply NextSymbol_symbol_is_what_it_read; [reflexivity|].
  right. split; [reflexivity|]. split; vm_compute; discriminate.
Defined.

Lemma NextSymbol_skips_comment_line_witness :
  NextSymbol (new_KeyFileLexer input_comment)
  = NextSymbol (mkLexer ("*NODE" +:+ nl) 0 None 2).
Proof.
  exact (NextSymbol_skips_comment_line (new_KeyFileLexer input_comment)
           " a comment" (nl +:+ "*NODE" +:+ nl)
           eq_refl eq_refl eq_refl eq_refl).
Defined.

Lemma NextSymbol_next_state_witness :
  state (NextSymbol (new_KeyFileLexer "*NODE")).2 = 1 /\ ASTERISK <> COMMENT.
Proof.
  exact (NextSymbol_next_state (new_KeyFileLexer "*NODE")
           (mkSymbol ASTERISK "*") eq_refl).
Defined.

Lemma NextSymbol_after_END_OF_FILE_witness :
  (NextSymbol (NextSymbol (new_KeyFileLexer EmptyString)).2).1 = None /\
  stream (NextSymbol (NextSymbol (new_KeyFileLexer EmptyString)).2).2
  = EmptyString.
Proof.
  exact (NextSymbol_after_END_OF_FILE (new_KeyFileLexer EmptyString)
           (mkSymbol END_OF_FILE EmptyString) eq_refl eq_refl).
Defined.

Lemma symbols_do_not_span_lines_witness :
  chars_all not_newline "NODE" = true.
Proof.
  exact (symbols_do_not_span_lines (new_KeyFileLexer "NODE 1")
           (mkSymbol WORD "NODE") eq_refl).
Defined.

Lemma NextSymbol_counts_lines_witness :
  current_line (NextSymbol (mkLexer nl 1 None 7)).2 = 7 + newlines nl.
Proof.
  exact (NextSymbol_counts_lines (mkLexer nl 1 None 7)
           (mkSymbol NEWLINE nl) eq_refl (or_introl eq_refl)).
Defined.

(** ** Further properties of the parser *)

Section ParserState.
Context `{B : Boost}.

Lemma bind_OutOfFuel {St A C} (m : M St A) (k : A -> M St C) s s' :
  m s = (OutOfFuel, s') -> bind m k s = (OutOfFuel, s').
Proof. unfold bind. intros ->. reflexivity. Qed.

Lemma bind_Undefined {St A C} (m : M St A) (k : A -> M St C) s s' :
  m s = (Undefined, s') -> bind m k s = (Undefined, s').
Proof. unfold bind. intros ->. reflexivity. Qed.

(** *** A comma at the start of a line *)

Lemma lexer_NextSymbol_comma kf lx rest :
  lexer kf = Some lx -> state lx = 0 -> stream lx = String "," rest ->
  lexer_NextSymbol kf
  = (Normal comma_symbol,
     set_lexer (Some (set_currentSymbol lx (Some comma_symbol))) kf).
Proof.
  intros Hl Hst Hs. unfold lexer_NextSymbol.
  by rewrite Hl, (NextSymbol_comma lx rest Hst Hs).
Qed.

Lemma Parse_step_comma fuel st kf :
  exists st', Parse_step fuel comma_symbol st kf = (Normal st', kf).
Proof.
  unfold Parse_step.
  repeat match goal with
         | |- context [if ?b then _ else _] => destruct b
         end; simpl; eauto.
Qed.

Lemma Parse_loop_comma fuel st kf lx rest :
  lexer kf = Some lx -> state lx = 0 -> stream lx = String "," rest ->
  (Parse_loop fuel comma_symbol st kf).1 = OutOfFuel /\
  stored (Parse_loop fuel comma_symbol st kf).2 = stored kf.
Proof.
  revert st kf lx. induction fuel as [|fuel IH]; intros st kf lx Hl Hst Hs.
  { done. }
  rewrite Parse_loop_S by done.
  destruct (Parse_step_comma fuel st kf) as [st' Hstep].
  rewrite (bind_Normal _ _ _ _ _ Hstep).
  rewrite (bind_Normal _ _ _ _ _ (lexer_NextSymbol_comma kf lx rest Hl Hst Hs)).
  destruct (IH st' (set_lexer (Some (set_currentSymbol lx (Some comma_symbol))) kf)
              (set_currentSymbol lx (Some comma_symbol)) eq_refl Hst Hs)
    as [H1 H2].
  split; [done|]. rewrite H2. done.
Qed.

(** X7: a comma at the start of a line stops the parser for good.  When the
    lexer is at the start of a line and the pending character is a comma,
    the loop of [Parse] does not end, in whichever state the parser is: it
    is given the symbol [COMMA] at every round.  So [Parse] does not return
    for a file that begins with a comma; what is stored stays as it was. *)
Theorem Parse_never_ends_at_leading_comma :
  (forall fuel st kf lx rest,
     lexer kf = Some lx -> state lx = 0 -> stream lx = String "," rest ->
     ((sy <- lexer_NextSymbol ;; Parse_loop fuel sy st) kf).1 = OutOfFuel) /\
  (forall fuel rest kf,
     (Parse fuel (String "," rest) kf).1 = OutOfFuel /\
     stored (Parse fuel (String "," rest) kf).2 = stored kf).
Proof.
  split.
  - intros fuel st kf lx rest Hl Hst Hs.
    rewrite (bind_Normal _ _ _ _ _ (lexer_NextSymbol_comma kf lx rest Hl Hst Hs)).
    by eapply Parse_loop_comma.
  - intros fuel rest kf. unfold Parse.
    erewrite bind_Normal by reflexivity.
    erewrite bind_Normal by
      (apply (lexer_NextSymbol_comma _ (new_KeyFileLexer (String "," rest)) rest);
       reflexivity).
    match goal with
    | |- context [bind (Parse_loop fuel comma_symbol 0) _ ?k] =>
        destruct (Parse_loop_comma fuel 0 k
                    (set_currentSymbol (new_KeyFileLexer (String "," rest))
                       (Some comma_symbol)) rest eq_refl eq_refl eq_refl)
          as [H1 H2];
        destruct (Parse_loop fuel comma_symbol 0 k) as [r k'] eqn:E
    end.
    simpl in H1. subst r.
    rewrite (bind_OutOfFuel _ _ _ _ E). simpl in *. rewrite H2. done.
Qed.

(** *** Methods that keep a property of the state *)

Lemma preserves_bind {A C} P (m : M KeyFile A) (k : A -> M KeyFile C) :
  preserves P m -> (forall a, preserves P (k a)) -> preserves P (bind m k).
Proof.
  intros Hm Hk kf HP. unfold bind. specialize (Hm kf HP).
  destruct (m kf) as [[a|e| |] s']; simpl in *; [by apply Hk|done..].
Qed.

Lemma preserves_same {A} P (m : M KeyFile A) :
  (forall kf, (m kf).2 = kf) -> preserves P m.
Proof. intros H kf HP. by rewrite H. Qed.

Lemma preserves_ret {A} P (a : A) : preserves P (ret a).
Proof. by apply preserves_same. Qed.

Lemma preserves_throw {A} P e : preserves P (throw (A := A) e).
Proof. by apply preserves_same. Qed.

Lemma preserves_lift {A} P (r : result A) : preserves P (lift r).
Proof. by apply preserves_same. Qed.

Lemma preserves_modify P (f : KeyFile -> KeyFile) :
  (forall kf, P kf -> P (f kf)) -> preserves P (modify f).
Proof. intros H kf HP. by apply H. Qed.

Lemma preserves_GetCurrentSymbol P : preserves P lexer_GetCurrentSymbol.
Proof.
  apply preserves_same. intros kf. unfold lexer_GetCurrentSymbol.
  by destruct (lexer kf).
Qed.

Lemma preserves_GetCurrentLine P : preserves P lexer_GetCurrentLine.
Proof.
  apply preserves_same. intros kf. unfold lexer_GetCurrentLine.
  by destruct (lexer kf).
Qed.

Lemma preserves_cast_int P s : preserves P (cast_int s).
Proof. unfold cast_int. destruct (lexical_cast_int s); by apply preserves_same. Qed.

Lemma preserves_cast_double P s : preserves P (cast_double s).
Proof.
  unfold cast_double. destruct (lexical_cast_double s); by apply preserves_same.
Qed.

Lemma never_bind_l {A C} P (m : M KeyFile A) (k : A -> M KeyFile C) :
  never_returns P m -> never_returns P (bind m k).
Proof.
  intros Hm kf c HP. unfold bind. specialize (Hm kf).
  destruct (m kf) as [[a|e| |] s']; simpl in *; [|done..].
  by destruct (Hm a HP).
Qed.

Lemma never_bind_r {A C} P (m : M KeyFile A) (k : A -> M KeyFile C) :
  preserves P m -> (forall a, never_returns P (k a)) ->
  never_returns P (bind m k).
Proof.
  intros Hm Hk kf c HP. unfold bind. specialize (Hm kf HP).
  destruct (m kf) as [[a|e| |] s']; simpl in *; [|done..].
  by apply Hk.
Qed.

(** The methods that only read symbols keep what [NextSymbol] keeps. *)
Section Reading.
Variable P : KeyFile -> Prop.
Hypothesis Hnext : preserves P lexer_NextSymbol.

Ltac pres_step :=
  first
    [ apply preserves_bind | apply preserves_ret | apply preserves_throw
    | apply preserves_lift | apply Hnext
    | apply preserves_GetCurrentSymbol | apply preserves_GetCurrentLine
    | apply preserves_cast_int | apply preserves_cast_double
    | assumption
    | match goal with
      | |- preserves _ (if ?b then _ else _) => destruct b
      end ].

Ltac pres :=
  repeat first
    [ match goal with |- forall _, _ => intro end
    | progress cbv beta
    | pres_step ].

Lemma preserves_throw_malformed {A} : preserves P (throw_malformed (A := A)).
Proof. unfold throw_malformed. pres. Qed.

Lemma preserves_expect_separator : preserves P expect_separator.
Proof. unfold expect_separator. pres. Qed.

Lemma preserves_expect_number : preserves P expect_number.
Proof. unfold expect_number. pres. Qed.

Lemma preserves_skip_until fuel t : preserves P (skip_until fuel t).
Proof. induction fuel as [|fuel IH]; simpl; pres. Qed.

Lemma preserves_read_part_name fuel name :
  preserves P (read_part_name fuel name).
Proof.
  revert name. induction fuel as [|fuel IH]; intros name; simpl; pres.
  apply IH.
Qed.

Lemma preserves_read_connectivity n : preserves P (read_connectivity n).
Proof.
  induction n as [|n IH]; simpl; pres;
    auto using preserves_expect_separator, preserves_expect_number.
Qed.

Lemma preserves_read_element_record : preserves P read_element_record.
Proof.
  unfold read_element_record. pres;
    auto using preserves_expect_separator, preserves_expect_number,
      preserves_read_connectivity.
Qed.

End Reading.

(** *** Streams without a given character *)

Lemma stream_chars_NextSymbol p : preserves (stream_chars p) lexer_NextSymbol.
Proof.
  intros kf (lx & Hl & Hc). unfold lexer_NextSymbol. rewrite Hl.
  pose proof (NextSymbol_keeps_chars p lx Hc) as H.
  destruct (NextSymbol lx) as [sy lx']. simpl in *. by exists lx'.
Qed.

Lemma lexer_NextSymbol_Normal kf sy kf' :
  lexer_NextSymbol kf = (Normal sy, kf') ->
  exists lx, lexer kf = Some lx /\ (NextSymbol lx).1 = Some sy /\
             kf' = set_lexer (Some (NextSymbol lx).2) kf.
Proof.
  unfold lexer_NextSymbol. destruct (lexer kf) as [lx|]; [|done].
  destruct (NextSymbol lx) as [[sy'|] lx'] eqn:E; [|done].
  intros [= <- <-]. exists lx. by rewrite E.
Qed.

Lemma skip_until_NEWLINE_never fuel :
  never_returns (stream_chars not_newline) (skip_until fuel NEWLINE).
Proof.
  induction fuel as [|fuel IH]; intros kf a HP; simpl; [done|].
  unfold bind. destruct (lexer_NextSymbol kf) as [[sy| | |] kf'] eqn:E; try done.
  pose proof (stream_chars_NextSymbol not_newline kf HP) as HP'.
  rewrite E in HP'. simpl in HP'.
  apply lexer_NextSymbol_Normal in E as (lx & Hl & Hsy & ->).
  destruct HP as (lx0 & Hl0 & Hc). rewrite Hl in Hl0. injection Hl0 as <-.
  case_bool_decide as Ht.
  - destruct (NextSymbol_needs_char lx sy not_newline Hsy Hc) as [Hn _].
    by specialize (Hn Ht).
  - by apply IH.
Qed.

Lemma AcceptNode_never fuel :
  never_returns (stream_chars not_newline) (AcceptNode fuel).
Proof.
  pose proof (stream_chars_NextSymbol not_newline) as Hnext.
  unfold AcceptNode.
  repeat (apply never_bind_r;
          [ first [ apply preserves_GetCurrentSymbol | apply preserves_cast_int
                  | apply preserves_cast_double | exact Hnext
                  | by apply preserves_expect_separator ]
          | intro ]).
  apply never_bind_l, skip_until_NEWLINE_never.
Qed.

(** X8: [AcceptNode] needs the newline that ends the record.  When no
    newline character is left in the stream, as on a last line that is not
    terminated, [AcceptNode] does not return and the node it has read is
    not stored. *)
Theorem AcceptNode_needs_newline fuel kf lx :
  lexer kf = Some lx ->
  chars_all not_newline (stream lx) = true ->
  (forall a, (AcceptNode fuel kf).1 <> Normal a) /\
  obj (AcceptNode fuel kf).2 = obj kf.
Proof.
  intros Hl Hc.
  assert (forall a, (AcceptNode fuel kf).1 <> Normal a) as Hn.
  { intros a. apply AcceptNode_never. by exists lx. }
  split; [done|].
  pose proof (AcceptNode_stores_last fuel kf) as Hs.
  destruct ((AcceptNode fuel kf).1) as [[]| | |] eqn:E; try done.
  by destruct (Hn tt).
Qed.

(** *** Input without a keyword line *)

Lemma lexer_running_NextSymbol kf sy kf' :
  lexer_NextSymbol kf = (Normal sy, kf') ->
  type sy = END_OF_FILE \/ lexer_running kf'.
Proof.
  intros (lx & Hl & Hsy & ->)%lexer_NextSymbol_Normal.
  destruct (NextSymbol_state_type lx sy Hsy) as [Hst Hty].
  destruct (NextSymbol_cases lx sy Hsy) as [Hs _].
  destruct (decide (type sy = END_OF_FILE)) as [|Hne]; [by left|right].
  exists (NextSymbol lx).2. split; [done|]. rewrite Hst.
  destruct (type sy); simpl; try done; auto.
Qed.

Lemma lexer_NextSymbol_running kf :
  lexer_running kf ->
  exists sy kf', lexer_NextSymbol kf = (Normal sy, kf') /\ stored kf' = stored kf.
Proof.
  intros (lx & Hl & Hst). unfold lexer_NextSymbol. rewrite Hl.
  destruct (NextSymbol_Some lx Hst) as [sy Hsy].
  destruct (NextSymbol lx) as [o lx']. simpl in Hsy. subst o. eauto.
Qed.

Lemma Parse_loop_without_asterisk fuel sy kf :
  type sy <> ASTERISK ->
  stream_chars no_asterisk kf ->
  type sy = END_OF_FILE \/ lexer_running kf ->
  ((Parse_loop fuel sy 0 kf).1 = Normal tt \/
   (Parse_loop fuel sy 0 kf).1 = OutOfFuel) /\
  stored (Parse_loop fuel sy 0 kf).2 = stored kf.
Proof.
  revert sy kf. induction fuel as [|fuel IH]; intros sy kf Hty Hc Hrun.
  { simpl. case_bool_decide; simpl; auto. }
  destruct (decide (type sy = END_OF_FILE)) as [He|Hne].
  { simpl. rewrite bool_decide_eq_true_2 by done. simpl. auto. }
  destruct Hrun as [|Hrun]; [done|].
  rewrite Parse_loop_S by done.
  assert (Parse_step fuel sy 0 kf = (Normal 0, kf)) as Hstep.
  { unfold Parse_step. simpl. by rewrite bool_decide_eq_false_2. }
  rewrite (bind_Normal _ _ _ _ _ Hstep).
  destruct (lexer_NextSymbol_running kf Hrun) as (sy' & kf' & Hn & Hsame).
  rewrite (bind_Normal _ _ _ _ _ Hn).
  pose proof (stream_chars_NextSymbol no_asterisk kf Hc) as Hc'.
  rewrite Hn in Hc'. simpl in Hc'.
  pose proof (lexer_running_NextSymbol _ _ _ Hn) as Hrun'.
  assert (type sy' <> ASTERISK) as Hty'.
  { apply lexer_NextSymbol_Normal in Hn as (lx & Hl & Hsy & ->).
    destruct Hc as (lx0 & Hl0 & Hc). rewrite Hl in Hl0. injection Hl0 as <-.
    destruct (NextSymbol_needs_char lx sy' no_asterisk Hsy Hc) as [_ Ha].
    intros Ht. by specialize (Ha Ht). }
  destruct (IH sy' kf' Hty' Hc' Hrun') as [H1 H2].
  split; [done|]. by rewrite H2.
Qed.

(** X9: records are only read below a keyword line.  For a file without
    the character ['*'], [Parse] stores nothing: it returns, or goes on
    for ever, and leaves the Document and the parts as they were. *)
Theorem Parse_without_asterisk_stores_nothing fuel contents kf :
  chars_all no_asterisk contents = true ->
  ((Parse fuel contents kf).1 = Normal tt \/
   (Parse fuel contents kf).1 = OutOfFuel) /\
  obj (Parse fuel contents kf).2 = obj kf /\
  parts (Parse fuel contents kf).2 = parts kf.
Proof.
  intros Hc. unfold Parse.
  erewrite bind_Normal by reflexivity.
  set (kf0 := set_lexer (Some (new_KeyFileLexer contents)) kf).
  assert (stream_chars no_asterisk kf0) as Hc0
      by (by exists (new_KeyFileLexer contents)).
  assert (lexer_running kf0) as Hrun0.
  { exists (new_KeyFileLexer contents). split; [done|]. by left. }
  destruct (lexer_NextSymbol_running kf0 Hrun0) as (sy & kf1 & Hn & Hsame).
  rewrite (bind_Normal _ _ _ _ _ Hn).
  pose proof (stream_chars_NextSymbol no_asterisk kf0 Hc0) as Hc1.
  rewrite Hn in Hc1. simpl in Hc1.
  pose proof (lexer_running_NextSymbol _ _ _ Hn) as Hrun1.
  assert (type sy <> ASTERISK) as Hty.
  { apply lexer_NextSymbol_Normal in Hn as (lx & Hl & Hsy & ->).
    destruct Hc0 as (lx0 & Hl0 & Hc0). rewrite Hl in Hl0. injection Hl0 as <-.
    destruct (NextSymbol_needs_char lx sy no_asterisk Hsy Hc0) as [_ Ha].
    intros Ht. by specialize (Ha Ht). }
  destruct (Parse_loop_without_asterisk fuel sy kf1 Hty Hc1 Hrun1) as [H1 H2].
  destruct (Parse_loop fuel sy 0 kf1) as [r kf2] eqn:E. simpl in H1, H2.
  assert (obj kf2 = obj kf /\ parts kf2 = parts kf) as [Ho Hp].
  { unfold stored in *. injection H2 as -> ->. by injection Hsame as -> ->. }
  destruct H1 as [-> | ->].
  - rewrite (bind_Normal _ _ _ _ _ E). simpl. auto.
  - rewrite (bind_OutOfFuel _ _ _ _ E). simpl. auto.
Qed.

End ParserState.

Lemma Parse_never_ends_at_leading_comma_witness :
  ((sy <- lexer_NextSymbol ;; Parse_loop 50 sy 2)
     (set_lexer (Some (mkLexer ",1,2" 0 None 3))
                (new_KeyFile (B := Decimal.boost)))).1 = OutOfFuel.
Proof.
  exact (proj1 (Parse_never_ends_at_leading_comma (B := Decimal.boost))
           50%nat 2
           (set_lexer (Some (mkLexer ",1,2" 0 None 3)) new_KeyFile)
           (mkLexer ",1,2" 0 None 3) "1,2" eq_refl eq_refl eq_refl).
Defined.

Lemma AcceptNode_needs_newline_witness :
  (forall a,
     (AcceptNode 10
        (set_lexer (Some (mkLexer " 0.5 0.5 0.5" 0
                                  (Some (mkSymbol NUMBER "7")) 2))
                   (new_KeyFile (B := Decimal.boost)))).1 <> Normal a) /\
  obj (AcceptNode 10
         (set_lexer (Some (mkLexer " 0.5 0.5 0.5" 0
                                   (Some (mkSymbol NUMBER "7")) 2))
                    (new_KeyFile (B := Decimal.boost)))).2
  = obj (new_KeyFile (B := Decimal.boost)).
Proof.
  exact (AcceptNode_needs_newline (B := Decimal.boost) 10
           (set_lexer (Some (mkLexer " 0.5 0.5 0.5" 0
                                     (Some (mkSymbol NUMBER "7")) 2))
                      new_KeyFile)
           (mkLexer " 0.5 0.5 0.5" 0 (Some (mkSymbol NUMBER "7")) 2)
           eq_refl eq_refl).
Defined.

Lemma Parse_without_asterisk_stores_nothing_witness :
  ((Parse (B := Decimal.boost) 30 ("1 0.0 0.0 0.0" +:+ nl) new_KeyFile).1
     = Normal tt \/
   (Parse (B := Decimal.boost) 30 ("1 0.0 0.0 0.0" +:+ nl) new_KeyFile).1
     = OutOfFuel) /\
  obj (Parse (B := Decimal.boost) 30 ("1 0.0 0.0 0.0" +:+ nl) new_KeyFile).2
  = obj (new_KeyFile (B := Decimal.boost)) /\
  parts (Parse (B := Decimal.boost) 30 ("1 0.0 0.0 0.0" +:+ nl) new_KeyFile).2
  = parts (new_KeyFile (B := Decimal.boost)).
Proof.
  exact (Parse_without_asterisk_stores_nothing (B := Decimal.boost) 30
           ("1 0.0 0.0 0.0" +:+ nl) new_KeyFile eq_refl).
Defined.

(** ** The invariant of the parser *)

Section Consistency.
Context `{B : Boost}.

(** *** Rows and columns *)

Lemma fmap_rows e (g : Row -> Z) (col : list Z) :
  parallel_elements e = true ->
  length col = length (eids e) ->
  (forall i r, row_at e i = Some r -> col !! i = Some (g r)) ->
  g <$> rows e = col.
Proof.
  intros Hp Hlen Hcol. apply list_eq. intros i.
  rewrite list_lookup_fmap, rows_lookup by done.
  destruct (decide (i < length (eids e))%nat) as [Hi|Hi].
  - destruct (row_at_is_Some e i Hp Hi) as [r Hr]. rewrite Hr. simpl.
    symmetry. by apply Hcol.
  - rewrite row_at_None by lia. simpl. symmetry.
    apply lookup_ge_None_2. lia.
Qed.

Lemma columns_rows e : parallel_elements e = true -> columns (rows e) = e.
Proof.
  intros Hp. pose proof (proj1 (parallel_elements_spec e) Hp) as Hl.
  destruct Hl as (L0 & L1 & L2 & L3 & L4 & L5 & L6 & L7 & L8).
  transitivity (mkElements (eids e) (pids e) (n1 e) (n2 e) (n3 e) (n4 e)
                           (n5 e) (n6 e) (n7 e) (n8 e)); [|by destruct e].
  unfold columns.
  f_equal; apply fmap_rows; try done;
    intros i r Hr; apply row_at_Some in Hr; tauto.
Qed.

Lemma push_element_rows e eid pid el :
  parallel_elements e = true ->
  push_element eid pid el e = columns (rows e ++ [(eid, pid, el)]).
Proof.
  intros Hp. etransitivity; [|apply (push_element_columns (rows e) (eid, pid, el))].
  rewrite (columns_rows e Hp). by destruct el.
Qed.

Lemma rows_push_element e eid pid el :
  parallel_elements e = true ->
  rows (push_element eid pid el e) = rows e ++ [(eid, pid, el)].
Proof. intros Hp. by rewrite push_element_rows, rows_columns. Qed.

Lemma eids_rows e :
  parallel_elements e = true -> row_eid <$> rows e = eids e.
Proof. intros Hp. rewrite <- (columns_rows e Hp) at 2. done. Qed.

Lemma rows_of_part_push p (l : list Row) eid pid el :
  rows_of_part p (l ++ [(eid, pid, el)])
  = rows_of_part p l ++ (if decide (pid = p) then [(eid, pid, el)] else []).
Proof. by rewrite rows_of_part_snoc, rows_of_part_singleton. Qed.

(** *** Positions in a vector that grows *)

Lemma lookup_snoc_ne (l : list Z) v v' i :
  v' <> v -> (l ++ [v]) !! i = Some v' <-> l !! i = Some v'.
Proof.
  intros Hne. destruct (decide (i < length l)%nat) as [Hi|Hi].
  - by rewrite lookup_app_l.
  - rewrite lookup_app_r by lia. rewrite (lookup_ge_None_2 l i) by lia.
    destruct (i - length l)%nat as [|[|n]]; simpl; split; intros; congruence.
Qed.

Lemma lookup_snoc_new (l : list Z) v i :
  v ∉ l -> (l ++ [v]) !! i = Some v <-> i = length l.
Proof.
  intros Hv. split.
  - intros H. destruct (decide (i < length l)%nat) as [Hi|Hi].
    + rewrite lookup_app_l in H by done.
      destruct Hv. by eapply list_elem_of_lookup_2.
    + apply lookup_lt_Some in H. rewrite length_app in H. simpl in H. lia.
  - intros ->. by rewrite list_lookup_middle.
Qed.

Lemma last_position_snoc l v k :
  last_position (l ++ [v]) v k <-> k = Z.of_nat (length l).
Proof.
  split.
  - intros (H0 & Hk & Hlast).
    pose proof (lookup_lt_Some _ _ _ Hk) as Hlt.
    rewrite length_app in Hlt. simpl in Hlt.
    destruct (decide (Z.to_nat k < length l)%nat) as [Hi|Hi]; [|lia].
    destruct (Hlast (length l) Hi). by rewrite list_lookup_middle.
  - intros ->. split; [lia|]. rewrite Nat2Z.id. split.
    + by rewrite list_lookup_middle.
    + intros j Hj. rewrite lookup_ge_None_2; [done|].
      rewrite length_app. simpl. lia.
Qed.

Lemma last_position_snoc_ne l v v' k :
  v' <> v -> last_position (l ++ [v]) v' k <-> last_position l v' k.
Proof.
  intros Hne. unfold last_position. rewrite (lookup_snoc_ne l v v') by done.
  split; intros (H0 & Hk & Hlast); (split; [done|split; [done|]]);
    intros j Hj; specialize (Hlast j Hj);
    by rewrite lookup_snoc_ne in * by done.
Qed.

(** *** The methods keep the KeyFile consistent *)

Lemma consistent_new : consistent new_KeyFile.
Proof.
  constructor; simpl; try done.
  - apply NoDup_nil_2.
  - intros eid k. rewrite lookup_empty. split; [done|]. by intros [_ ?].
  - intros nid k. rewrite lookup_empty. split; [done|]. by intros (_ & ? & _).
  - intros pid els. rewrite lookup_empty. split; [done|]. by intros [_ ?].
Qed.

Lemma consistent_stored kf kf' :
  stored kf' = stored kf -> consistent kf -> consistent kf'.
Proof.
  unfold stored. intros [= Ho Hp] [H1 H2 H3 H4 H5 H6].
  constructor; rewrite ?Ho, ?Hp; done.
Qed.

Lemma consistent_NextSymbol : preserves consistent lexer_NextSymbol.
Proof.
  intros kf. apply consistent_stored. unfold lexer_NextSymbol.
  destruct (lexer kf); [destruct (NextSymbol _)|]; done.
Qed.

Lemma store_node_consistent nid n kf :
  consistent kf -> consistent (store_node nid n kf).
Proof.
  intros [H1 H2 H3 H4 H5 H6].
  constructor; simpl; try done.
  - apply parallel_nodes_spec in H1 as (Hx & Hy & Hz).
    apply parallel_nodes_spec. simpl. rewrite !length_app. simpl. lia.
  - intros nid' k. rewrite length_app. simpl.
    replace (Z.of_nat (length (nids (nodes (obj kf))) + 1) - 1)
      with (Z.of_nat (length (nids (nodes (obj kf))))) by lia.
    destruct (decide (nid' = nid)) as [->|Hne].
    + rewrite lookup_insert_eq, last_position_snoc. split; congruence.
    + rewrite lookup_insert_ne by done.
      rewrite last_position_snoc_ne by done. apply H5.
Qed.

Lemma AcceptNode_consistent fuel : preserves consistent (AcceptNode fuel).
Proof.
  pose proof consistent_NextSymbol as Hnext.
  unfold AcceptNode.
  repeat (apply preserves_bind;
          [ first [ apply preserves_GetCurrentSymbol | apply preserves_cast_int
                  | apply preserves_cast_double | exact Hnext
                  | by apply preserves_expect_separator
                  | by apply preserves_skip_until ]
          | intro ]).
  apply preserves_modify. intros kf. apply store_node_consistent.
Qed.

Lemma AcceptPart_consistent fuel : preserves consistent (AcceptPart fuel).
Proof.
  pose proof consistent_NextSymbol as Hnext.
  unfold AcceptPart.
  repeat (apply preserves_bind;
          [ first [ apply preserves_GetCurrentSymbol | apply preserves_cast_int
                  | by apply preserves_read_part_name
                  | by apply preserves_skip_until ]
          | intro ]).
  apply preserves_modify. intros kf. by apply consistent_stored.
Qed.

(** The three statements that end [AcceptElement]. *)
Lemma store_element_consistent eid pid e :
  preserves consistent
    (obj_AddElement eid pid e >> modify (index_element eid) >>
     parts_AddElement eid pid e).
Proof.
  intros kf [H1 H2 H3 H4 H5 H6].
  unfold bind, obj_AddElement, AddElement.
  case_bool_decide as Heid; simpl; [by constructor|].
  set (S0 := rows (elements (obj kf))) in *.
  assert (exists els0,
    map_index no_Elements (parts kf) pid
      = (els0, <[pid := els0]> (parts kf)) /\
    els0 = columns (rows_of_part pid S0)) as (els0 & Hmi & Hels0).
  { unfold map_index. destruct (parts kf !! pid) as [els|] eqn:E.
    - exists els. split.
      + by rewrite insert_id.
      + by apply H6 in E as [-> _].
    - exists no_Elements. split; [done|].
      destruct (rows_of_part pid S0) as [|r l] eqn:El; [done|].
      assert (parts kf !! pid =
              Some (columns (rows_of_part pid S0))) as Hs.
      { apply H6. split; [done|]. fold S0. by rewrite El. }
      congruence. }
  unfold parts_AddElement, set_obj, index_element, set_obj. simpl.
  rewrite Hmi. unfold AddElement.
  rewrite bool_decide_eq_false_2.
  2:{ rewrite Hels0. simpl. intros Hin. apply Heid.
      rewrite <- (eids_rows _ H2). fold S0.
      apply list_elem_of_fmap in Hin as (r & -> & Hr).
      apply list_elem_of_fmap. exists r. split; [done|].
      by apply list_elem_of_filter in Hr as [_ Hr]. }
  simpl.
  assert (parallel_elements (push_element eid pid e (elements (obj kf))) = true)
    as Hpar by (rewrite push_element_rows by done; apply parallel_columns).
  constructor; simpl; try done.
  - apply NoDup_app. split; [done|]. split; [|apply NoDup_singleton].
    intros v Hv ->%list_elem_of_singleton. done.
  - intros eid' k. rewrite length_app. simpl.
    replace (Z.of_nat (length (eids (elements (obj kf))) + 1) - 1)
      with (Z.of_nat (length (eids (elements (obj kf))))) by lia.
    destruct (decide (eid' = eid)) as [->|Hne].
    + rewrite lookup_insert_eq, lookup_snoc_new by done.
      split; [intros [= <-]; split; [lia|by rewrite Nat2Z.id]|].
      intros [H0 Hk]. f_equal. lia.
    + rewrite lookup_insert_ne by done.
      rewrite lookup_snoc_ne by done. apply H4.
  - intros pid' els. rewrite rows_push_element by done. fold S0.
    rewrite rows_of_part_push.
    destruct (decide (pid = pid')) as [<-|Hne].
    + rewrite insert_insert_eq, lookup_insert_eq.
      rewrite Hels0, (push_element_rows _ _ _ _ (parallel_columns _)).
      rewrite rows_columns. split.
      * intros [= <-]. split; [done|]. by destruct (rows_of_part pid S0).
      * by intros [-> _].
    + rewrite insert_insert_eq, lookup_insert_ne by done.
      rewrite app_nil_r. apply H6.
Qed.

Lemma AcceptElement_consistent : preserves consistent AcceptElement.
Proof.
  unfold AcceptElement. apply preserves_bind.
  - apply preserves_read_element_record, consistent_NextSymbol.
  - intros [[eid pid] e]. apply store_element_consistent.
Qed.

Lemma Parse_step_consistent fuel sy st :
  preserves consistent (Parse_step fuel sy st).
Proof.
  unfold Parse_step.
  repeat match goal with
         | |- preserves _ (if ?b then _ else _) => destruct b
         | |- preserves _ (match type ?s with _ => _ end) => destruct (type s)
         | |- preserves _ (ret _) => apply preserves_ret
         | |- preserves _ (bind _ _) => apply preserves_bind; [|intro]
         end;
    auto using AcceptNode_consistent, AcceptElement_consistent,
      AcceptPart_consistent.
Qed.

Lemma Parse_loop_consistent fuel sy st :
  preserves consistent (Parse_loop fuel sy st).
Proof.
  revert sy st. induction fuel as [|fuel IH]; intros sy st; simpl.
  - case_bool_decide; [apply preserves_ret|apply preserves_lift].
  - case_bool_decide; [apply preserves_ret|].
    apply preserves_bind; [apply Parse_step_consistent|intro].
    apply preserves_bind; [apply consistent_NextSymbol|intro]. apply IH.
Qed.

Lemma Parse_consistent fuel contents :
  preserves consistent (Parse fuel contents).
Proof.
  unfold Parse.
  apply preserves_bind; [|intro].
  { apply preserves_modify. intros kf. by apply consistent_stored. }
  apply preserves_bind; [apply consistent_NextSymbol|intro].
  apply preserves_bind; [apply Parse_loop_consistent|intro].
  apply preserves_bind; [|intro].
  { apply preserves_modify. intros kf. by apply consistent_stored. }
  apply preserves_modify. intros kf. by apply consistent_stored.
Qed.

(** X10: [Parse] keeps the KeyFile consistent, however it ends: the
    vectors of the node table and of the element table are parallel, the
    element ids are distinct, [element_index] maps every element id to its
    position, [node_index] maps every node id to its last position, and
    [parts] holds, for every part id with elements, the rows of that part
    in the order of the element table.  The empty KeyFile is consistent,
    so the KeyFile is after every sequence of files appended. *)
Theorem Parse_keeps_KeyFile_consistent :
  consistent new_KeyFile /\
  forall fuel contents kf,
    consistent kf -> consistent (Parse fuel contents kf).2.
Proof. split; [apply consistent_new|]. intros. by apply Parse_consistent. Qed.

End Consistency.

(** The KeyFile that [Parse] makes of [input_mesh]. *)
Lemma consistent_input_mesh :
  consistent (Parse (B := Decimal.boost) 40 input_mesh new_KeyFile).2.
Proof. apply Parse_consistent, consistent_new. Qed.

Lemma Parse_keeps_KeyFile_consistent_witness :
  consistent (Parse (B := Decimal.boost) 40 input_same_element_id
                (Parse (B := Decimal.boost) 40 input_mesh new_KeyFile).2).2.
Proof.
  apply (proj2 (Parse_keeps_KeyFile_consistent (B := Decimal.boost))).
  apply (proj2 (Parse_keeps_KeyFile_consistent (B := Decimal.boost))).
  apply (proj1 (Parse_keeps_KeyFile_consistent (B := Decimal.boost))).
Defined.

(** ** Lookups in the KeyFile that [Parse] leaves *)

Section Lookups.
Context `{B : Boost}.

Lemma GetElement_row e i r :
  row_at e i = Some r -> GetElement e (Z.of_nat i) = Normal r.2.
Proof.
  intros Hr. apply row_at_Some in Hr
    as (_ & _ & H1 & H2 & H3 & H4 & H5 & H6 & H7 & H8).
  unfold GetElement.
  rewrite (vector_at_Normal _ _ _ H1), (vector_at_Normal _ _ _ H2),
    (vector_at_Normal _ _ _ H3), (vector_at_Normal _ _ _ H4),
    (vector_at_Normal _ _ _ H5), (vector_at_Normal _ _ _ H6),
    (vector_at_Normal _ _ _ H7), (vector_at_Normal _ _ _ H8).
  simpl. by destruct r as [[? ?] []].
Qed.

Lemma FindElement_first e i eid :
  eids e !! i = Some eid ->
  (forall j, (j < i)%nat -> eids e !! j <> Some eid) ->
  FindElement e eid = Some (GetElement e (Z.of_nat i)).
Proof.
  intros Hi Hfirst. unfold FindElement.
  assert (list_find (fun v => v = eid) (eids e) = Some (i, eid)) as ->; [|done].
  apply list_find_Some. split; [done|]. split; [done|].
  intros j y Hj Hlt ->. by apply (Hfirst j).
Qed.

Lemma FindElement_absent e eid : eid ∉ eids e -> FindElement e eid = None.
Proof.
  intros Hn. unfold FindElement.
  assert (list_find (fun v => v = eid) (eids e) = None) as ->; [|done].
  apply list_find_None, Forall_forall. by intros v Hv ->.
Qed.

(** X11: in a consistent KeyFile, a lookup by element id finds the stored
    record: for every row of the element table, both
    [FiniteElementObject::GetElement], which reads [element_index], and
    [Elements::FindElement], which searches the id vector, return the
    connectivity of that row; for an id that is not stored, the first
    throws [out_of_range] and the second its own error. *)
Theorem stored_elements_are_found kf :
  consistent kf ->
  (forall eid pid e,
     (eid, pid, e) ∈ rows (elements (obj kf)) ->
     FiniteElementObject_GetElement (obj kf) eid = Normal e /\
     FindElement (elements (obj kf)) eid = Some (Normal e)) /\
  (forall eid,
     eid ∉ eids (elements (obj kf)) ->
     FiniteElementObject_GetElement (obj kf) eid = Throw out_of_range /\
     FindElement (elements (obj kf)) eid = None).
Proof.
  intros [H1 H2 H3 H4 H5 H6]. split.
  - intros eid pid e [i Hi]%list_elem_of_lookup.
    rewrite rows_lookup in Hi by done.
    pose proof (GetElement_row _ _ _ Hi) as Hget. simpl in Hget.
    pose proof (row_at_Some _ _ _ Hi) as (Heid & _). simpl in Heid.
    split.
    + unfold FiniteElementObject_GetElement, map_at.
      rewrite (proj2 (H4 eid (Z.of_nat i))); [done|].
      split; [lia|]. by rewrite Nat2Z.id.
    + rewrite (FindElement_first _ i); [by rewrite Hget|done|].
      intros j Hj Hj'. pose proof (NoDup_lookup _ _ _ _ H3 Hj' Heid). lia.
  - intros eid Hn. split; [|by apply FindElement_absent].
    unfold FiniteElementObject_GetElement, map_at.
    destruct (element_index (obj kf) !! eid) as [k|] eqn:E; [|done].
    apply H4 in E as [_ E]. destruct Hn. by eapply list_elem_of_lookup_2.
Qed.

(** X12: in a consistent KeyFile, [FiniteElementObject::GetNode] returns
    the coordinates of the last record with the node id asked for, so of
    two node records with one id the later one is found; for an id that is
    not stored it throws [out_of_range]. *)
Theorem last_node_record_is_found kf :
  consistent kf ->
  (forall i nid,
     nids (nodes (obj kf)) !! i = Some nid ->
     (forall j, (i < j)%nat -> nids (nodes (obj kf)) !! j <> Some nid) ->
     exists n,
       GetNode (nodes (obj kf)) (Z.of_nat i) = Normal n /\
       FiniteElementObject_GetNode (obj kf) nid = Normal n) /\
  (forall nid,
     nid ∉ nids (nodes (obj kf)) ->
     FiniteElementObject_GetNode (obj kf) nid = Throw out_of_range).
Proof.
  intros [H1 H2 H3 H4 H5 H6]. split.
  - intros i nid Hi Hlast.
    assert (node_index (obj kf) !! nid = Some (Z.of_nat i)) as Hidx.
    { apply H5. split; [lia|]. rewrite Nat2Z.id. done. }
    apply parallel_nodes_spec in H1 as (Lx & Ly & Lz).
    pose proof (lookup_lt_Some _ _ _ Hi) as Hlt.
    destruct (lookup_lt_is_Some_2 (x (nodes (obj kf))) i) as [vx Hx]; [lia|].
    destruct (lookup_lt_is_Some_2 (y (nodes (obj kf))) i) as [vy Hy]; [lia|].
    destruct (lookup_lt_is_Some_2 (z (nodes (obj kf))) i) as [vz Hz]; [lia|].
    exists (vx, vy, vz).
    assert (GetNode (nodes (obj kf)) (Z.of_nat i) = Normal (vx, vy, vz)) as Hg.
    { unfold GetNode.
      by rewrite (vector_at_Normal _ _ _ Hx), (vector_at_Normal _ _ _ Hy),
        (vector_at_Normal _ _ _ Hz). }
    split; [done|].
    unfold FiniteElementObject_GetNode, map_at. by rewrite Hidx.
  - intros nid Hn. unfold FiniteElementObject_GetNode, map_at.
    destruct (node_index (obj kf) !! nid) as [k|] eqn:E; [|done].
    apply H5 in E as (_ & E & _). destruct Hn. by eapply list_elem_of_lookup_2.
Qed.

End Lookups.

Lemma stored_elements_are_found_witness :
  FiniteElementObject_GetElement
    (obj (Parse (B := Decimal.boost) 40 input_mesh new_KeyFile).2) 10
  = Normal (mkElement 1 2 0 0 0 0 0 0) /\
  FindElement
    (elements (obj (Parse (B := Decimal.boost) 40 input_mesh new_KeyFile).2)) 10
  = Some (Normal (mkElement 1 2 0 0 0 0 0 0)).
Proof.
  apply (proj1 (stored_elements_are_found (B := Decimal.boost) _
                  consistent_input_mesh) 10 5).
  vm_compute. apply list_elem_of_here.
Defined.

Lemma last_node_record_is_found_witness :
  exists n,
    GetNode (nodes (obj (Parse (B := Decimal.boost) 40 input_mesh
                           new_KeyFile).2)) (Z.of_nat 1) = Normal n /\
    FiniteElementObject_GetNode
      (obj (Parse (B := Decimal.boost) 40 input_mesh new_KeyFile).2) 2
    = Normal n.
Proof.
  apply (proj1 (last_node_record_is_found (B := Decimal.boost) _
                  consistent_input_mesh) 1%nat 2).
  - vm_compute. reflexivity.
  - intros [|[|[|j]]] Hj; try lia; vm_compute; discriminate.
Defined.

(** ** Further properties of the transforms *)

Section Pipeline.
Context `{B : Boost}.

(** *** [IsolatePart] *)

Lemma referential_integrity_copyable D p :
  referential_integrity D = true ->
  Forall (fun v => v = 0 \/ node_present D v = true)
         (references (rows_of_part p (rows (elements D)))).
Proof.
  intros Hri. apply Forall_references_of_part.
  unfold referential_integrity in Hri. rewrite forallb_forall in Hri.
  apply Forall_forall. intros v Hv%list_elem_of_In%Hri.
  apply orb_true_iff in Hv. destruct Hv; [left; lia|by right].
Qed.

Lemma copied_from_length D col ids vals :
  copied_from D col ids vals -> length vals = length ids.
Proof. intros H. symmetry. by eapply Forall2_length. Qed.

(** [IsolatePart] on a Document with referential integrity. *)
Lemma IsolatePart_returns parts D p :
  parallel_elements (elements D) = true ->
  referential_integrity D = true ->
  exists part',
    IsolatePart parts D p = (Normal part', D) /\
    elements part' = columns (rows_of_part p (rows (elements D))) /\
    parallel_nodes (nodes part') = true.
Proof.
  intros Hp Hri.
  pose proof (referential_integrity_copyable D p Hri) as Hall.
  destruct (IsolatePart_run parts D p Hp) as (v & E & Hinv & Hel).
  { eapply Forall_impl; [exact Hall|]. intros b [->|Hb]; [done|].
    by apply node_present_copyable. }
  destruct v as [o part']. simpl in *.
  destruct Hinv as (Hn & He & Hei & Hni & Hids & Hcopied). simpl in *.
  destruct (first_refs_spec
              (references (rows_of_part p (rows (elements D)))))
    as (Hnd & H0 & Hmem).
  rewrite <- Hids in Hnd, H0, Hmem.
  assert (o = D) as ->.
  { rewrite touched_present in Hni.
    - destruct o, D; simpl in *; congruence.
    - apply Forall_forall. intros nid [Hnz Hin]%Hmem.
      rewrite Forall_forall in Hall. destruct (Hall nid Hin) as [|Hnid]; [done|].
      apply node_present_spec in Hnid as (k & _ & _ & _ & -> & _). eauto. }
  exists part'. split; [done|]. split; [done|].
  destruct Hcopied as (Hx & Hy & Hz & _).
  apply parallel_nodes_spec.
  by rewrite (copied_from_length _ _ _ _ Hx), (copied_from_length _ _ _ _ Hy),
    (copied_from_length _ _ _ _ Hz).
Qed.

(** X13: the map [parts] that [Parse] fills holds what [IsolatePart]
    extracts.  In a consistent KeyFile with referential integrity, for a
    part id that [parts] knows, [IsolatePart] returns, leaves the Document
    as it was, and the element table of its result is the entry of
    [parts]. *)
Theorem parts_hold_what_IsolatePart_extracts kf pid els :
  consistent kf ->
  referential_integrity (obj kf) = true ->
  parts kf !! pid = Some els ->
  exists part',
    IsolatePart (parts kf) (obj kf) pid = (Normal part', obj kf) /\
    elements part' = els.
Proof.
  intros Hc Hri Hparts.
  destruct (IsolatePart_returns (parts kf) (obj kf) pid
              (consistent_elements _ Hc) Hri) as (part' & E & Hel & _).
  exists part'. split; [done|].
  apply (consistent_parts _ Hc) in Hparts as [-> _]. done.
Qed.

(** X14: for a part id that no element has, [IsolatePart] returns the
    empty Document and leaves the Document it was given as it was. *)
Theorem IsolatePart_of_absent_part parts D pid :
  parallel_elements (elements D) = true ->
  pid ∉ pids (elements D) ->
  IsolatePart parts D pid = (Normal no_FiniteElementObject, D).
Proof.
  intros Hp Hpid.
  apply parallel_elements_spec in Hp as (Lp & _).
  destruct (for_loop_inv
              (fun _ v => v = mkVars D no_FiniteElementObject)
              (IsolatePart_body pid) (length (eids (elements D))) 0
              (mkVars D no_FiniteElementObject) eq_refl)
    as (v & E & ->).
  - intros j v Hj ->. eexists. split; [|done].
    unfold IsolatePart_body.
    destruct (lookup_lt_is_Some_2 (pids (elements D)) j) as [p Hpj]; [lia|].
    erewrite bind_Normal by reflexivity.
    erewrite bind_Normal by (unfold lift; simpl;
                             by rewrite (vector_at_Normal _ _ _ Hpj)).
    rewrite (proj2 (Z.eqb_neq p pid)); [done|].
    intros ->. apply Hpid. by eapply list_elem_of_lookup_2.
  - unfold IsolatePart. by rewrite E.
Qed.

(** *** The guard of [OutputToFiles] *)

Lemma unique_nonempty l : l <> [] -> unique l <> [].
Proof.
  induction l as [|a [|b l] IH]; [done|done|]. intros _.
  simpl. destruct (a =? b); [by apply IH|done].
Qed.

Lemma unique_one l :
  length (unique l) = 1%nat <-> exists p, p ∈ l /\ Forall (fun q => q = p) l.
Proof.
  induction l as [|a [|b l] IH].
  - simpl. split; [done|]. by intros (p & Hp%elem_of_nil & _).
  - simpl. split; [|done]. intros _. exists a.
    split; [apply list_elem_of_here|]. by repeat constructor.
  - change (unique (a :: b :: l))
      with (if a =? b then unique (b :: l) else a :: unique (b :: l)).
    destruct (a =? b) eqn:E.
    + apply Z.eqb_eq in E as ->. rewrite IH. split.
      * intros (p & Hp & Hall). exists p. split; [by right|].
        constructor; [|done]. by inversion Hall.
      * intros (p & Hp & Hall). exists p. inversion Hall; subst.
        split; [|done]. match goal with H : Forall _ (_ :: _) |- _ =>
                          inversion H; subst end. apply list_elem_of_here.
    + apply Z.eqb_neq in E. split.
      * intros Hlen. cbn [length] in Hlen.
        pose proof (unique_nonempty (b :: l) ltac:(done)) as Hne.
        destruct (unique (b :: l)); [done|]. cbn [length] in Hlen. lia.
      * intros (p & _ & Hall). inversion Hall as [|? ? -> Hall']; subst.
        inversion Hall'; subst. done.
Qed.

Lemma OutputToFiles_accepts_one_part_aux o :
  (exists p, p ∈ pids (elements o) /\
             Forall (fun q => q = p) (pids (elements o))) ->
  OutputToFiles_accepts o = true.
Proof.
  unfold OutputToFiles_accepts. rewrite Nat.eqb_eq, unique_one.
  pose proof (merge_sort_Permutation Z.le (pids (elements o))) as Hperm.
  intros (p & Hp & Hall); exists p. by rewrite Hperm.
Qed.

(** X15: [OutputToFiles] accepts a Document exactly when its elements
    have one part id: some element exists, and every element has the part
    id of that one. *)
Theorem OutputToFiles_accepts_one_part o :
  OutputToFiles_accepts o = true <->
  exists p, p ∈ pids (elements o) /\ Forall (fun q => q = p) (pids (elements o)).
Proof.
  unfold OutputToFiles_accepts. rewrite Nat.eqb_eq, unique_one.
  pose proof (merge_sort_Permutation Z.le (pids (elements o))) as Hperm.
  split; intros (p & Hp & Hall); exists p.
  - by rewrite <- Hperm.
  - by rewrite Hperm.
Qed.

(** *** [Renumber_Nodes] *)

Lemma index_upto_lookup N k v :
  index_upto N !! k = Some v <-> 1 <= k <= Z.of_nat N /\ v = k - 1.
Proof.
  induction N as [|N IH]; simpl.
  - rewrite lookup_empty. split; [done|lia].
  - destruct (decide (k = Z.of_nat N + 1)) as [->|Hne].
    + rewrite lookup_insert_eq. split; [intros [= <-]; lia|].
      intros [_ ->]. f_equal. lia.
    + rewrite lookup_insert_ne by done. rewrite IH. lia.
Qed.

Lemma refilled_lookup {A} (d : A) n (l : list A) i :
  (i < n)%nat -> (n <= length l)%nat -> refilled d n l !! i = l !! i.
Proof.
  intros Hi Hn. unfold refilled.
  rewrite lookup_app_l by (rewrite length_take; lia).
  by rewrite lookup_take_lt.
Qed.

(** X16: what the indices of a renumbered Document find.
    [Renumber_Nodes] does not fill [element_index], so
    [FiniteElementObject::GetElement] throws [out_of_range] for every id;
    [FiniteElementObject::GetNode] returns for the new id [i + 1] the
    coordinates of the node at position [i] of the part, and throws
    [out_of_range] for every id outside [1..N]. *)
Theorem Renumber_Nodes_indices P P' :
  Renumber_Nodes P = Normal P' ->
  (forall eid, FiniteElementObject_GetElement P' eid = Throw out_of_range) /\
  (forall i, (i < length (nids (nodes P)))%nat ->
     exists n, GetNode (nodes P) (Z.of_nat i) = Normal n /\
               FiniteElementObject_GetNode P' (Z.of_nat i + 1) = Normal n) /\
  (forall k, ~ (1 <= k <= Z.of_nat (length (nids (nodes P)))) ->
     FiniteElementObject_GetNode P' k = Throw out_of_range).
Proof.
  intros E. pose proof (Renumber_Nodes_Normal_long_enough P P' E) as Hlen.
  rewrite (Renumber_Nodes_closed P Hlen) in E. injection E as <-.
  apply long_enough_spec in Hlen as [(Hx & Hy & Hz) _].
  split; [done|]. split.
  - intros i Hi.
    destruct (lookup_lt_is_Some_2 (x (nodes P)) i) as [vx Ex]; [lia|].
    destruct (lookup_lt_is_Some_2 (y (nodes P)) i) as [vy Ey]; [lia|].
    destruct (lookup_lt_is_Some_2 (z (nodes P)) i) as [vz Ez]; [lia|].
    exists (vx, vy, vz). split.
    + unfold GetNode.
      by rewrite (vector_at_Normal _ _ _ Ex), (vector_at_Normal _ _ _ Ey),
        (vector_at_Normal _ _ _ Ez).
    + unfold FiniteElementObject_GetNode, map_at, Renumbered. simpl.
      rewrite (proj2 (index_upto_lookup _ (Z.of_nat i + 1) (Z.of_nat i)))
        by lia.
      unfold GetNode. simpl.
      rewrite (vector_at_Normal (refilled _ _ (x (nodes P))) i vx),
        (vector_at_Normal (refilled _ _ (y (nodes P))) i vy),
        (vector_at_Normal (refilled _ _ (z (nodes P))) i vz); [done|..];
        by rewrite refilled_lookup.
  - intros k Hk. unfold FiniteElementObject_GetNode, map_at, Renumbered. simpl.
    destruct (index_upto _ !! k) as [v|] eqn:Ek; [|done].
    apply index_upto_lookup in Ek. lia.
Qed.

(** *** The body of the loop of [main] *)

(** X17: what [main] does for one part.  In a consistent KeyFile with
    referential integrity, for every part id of [parts]: [IsolatePart]
    returns and leaves the Document as it was, [Renumber_Nodes] returns on
    its result, and [OutputToFiles] accepts what [Renumber_Nodes] returns,
    whose elements are as many as the part has and all of that part. *)
Theorem each_part_is_converted kf pid els :
  consistent kf ->
  referential_integrity (obj kf) = true ->
  parts kf !! pid = Some els ->
  exists part' part_v2,
    IsolatePart (parts kf) (obj kf) pid = (Normal part', obj kf) /\
    Renumber_Nodes part' = Normal part_v2 /\
    OutputToFiles_accepts part_v2 = true /\
    eids (elements part_v2) = dense (length (eids els)) /\
    pids (elements part_v2) = replicate (length (eids els)) pid.
Proof.
  intros Hc Hri Hparts.
  destruct (IsolatePart_returns (parts kf) (obj kf) pid
              (consistent_elements _ Hc) Hri) as (part' & E & Hel & Hpn).
  apply (consistent_parts _ Hc) in Hparts as [-> Hne].
  set (L := rows_of_part pid (rows (elements (obj kf)))) in *.
  assert (parallel_elements (elements part') = true) as Hpe
      by (rewrite Hel; apply parallel_columns).
  pose proof (parallel_long_enough part' Hpn Hpe) as Hlen.
  exists part', (Renumbered part').
  split; [done|]. split; [by apply Renumber_Nodes_closed|].
  assert (pids (elements (Renumbered part')) = replicate (length L) pid)
    as Hpids.
  { unfold Renumbered. simpl. rewrite Hel. simpl.
    rewrite take_ge by (by rewrite !length_fmap).
    apply list_eq. intros i. rewrite list_lookup_fmap.
    destruct (L !! i) as [r|] eqn:Er; simpl.
    - rewrite lookup_replicate_2 by (by eapply lookup_lt_Some).
      apply list_elem_of_lookup_2, list_elem_of_filter in Er as [-> _]. done.
    - symmetry. apply lookup_replicate_None.
      by apply lookup_ge_None_1 in Er. }
  split; [|split].
  - apply OutputToFiles_accepts_one_part_aux. rewrite Hpids.
    destruct L as [|r L]; [done|]. simpl.
    exists pid. split; [apply list_elem_of_here|].
    constructor; [done|]. apply Forall_replicate. done.
  - unfold Renumbered. simpl. rewrite Hel. simpl. by rewrite length_fmap.
  - rewrite Hpids. simpl. by rewrite length_fmap.
Qed.

End Pipeline.

Lemma parts_hold_what_IsolatePart_extracts_witness :
  exists part',
    IsolatePart (parts (Parse (B := Decimal.boost) 40 input_mesh new_KeyFile).2)
      (obj (Parse (B := Decimal.boost) 40 input_mesh new_KeyFile).2) 5
    = (Normal part',
       obj (Parse (B := Decimal.boost) 40 input_mesh new_KeyFile).2) /\
    elements part' = mkElements [10] [5] [1] [2] [0] [0] [0] [0] [0] [0].
Proof.
  apply (parts_hold_what_IsolatePart_extracts (B := Decimal.boost) _ 5 _
           consistent_input_mesh).
  - vm_compute. reflexivity.
  - vm_compute. reflexivity.
Defined.

Lemma IsolatePart_of_absent_part_witness :
  IsolatePart ∅ D_two_parts 7 = (Normal no_FiniteElementObject, D_two_parts).
Proof.
  apply (IsolatePart_of_absent_part (B := Decimal.boost) ∅ D_two_parts 7).
  - vm_compute. reflexivity.
  - compute_done.
Defined.

Lemma OutputToFiles_accepts_one_part_witness :
  OutputToFiles_accepts P_part = true.
Proof.
  apply (proj2 (OutputToFiles_accepts_one_part (B := Decimal.boost) P_part)).
  exists 5. split.
  - vm_compute. apply list_elem_of_here.
  - vm_compute. repeat constructor.
Defined.

Lemma Renumber_Nodes_indices_witness :
  (forall eid,
     FiniteElementObject_GetElement (Renumbered P_part) eid
     = Throw out_of_range) /\
  (forall i, (i < length (nids (nodes P_part)))%nat ->
     exists n, GetNode (nodes P_part) (Z.of_nat i) = Normal n /\
               FiniteElementObject_GetNode (Renumbered P_part) (Z.of_nat i + 1)
               = Normal n) /\
  (forall k, ~ (1 <= k <= Z.of_nat (length (nids (nodes P_part)))) ->
     FiniteElementObject_GetNode (Renumbered P_part) k = Throw out_of_range).
Proof.
  apply (Renumber_Nodes_indices (B := Decimal.boost) P_part).
  apply Renumber_Nodes_closed. vm_compute. reflexivity.
Defined.

Lemma each_part_is_converted_witness :
  exists part' part_v2,
    IsolatePart (parts (Parse (B := Decimal.boost) 40 input_mesh new_KeyFile).2)
      (obj (Parse (B := Decimal.boost) 40 input_mesh new_KeyFile).2) 5
    = (Normal part',
       obj (Parse (B := Decimal.boost) 40 input_mesh new_KeyFile).2) /\
    Renumber_Nodes part' = Normal part_v2 /\
    OutputToFiles_accepts part_v2 = true /\
    eids (elements part_v2) = dense 1 /\
    pids (elements part_v2) = replicate 1 5.
Proof.
  apply (each_part_is_converted (B := Decimal.boost) _ 5
           (mkElements [10] [5] [1] [2] [0] [0] [0] [0] [0] [0])
           consistent_input_mesh).
  - vm_compute. reflexivity.
  - vm_compute. reflexivity.
Defined.

(** ** The containers, the names of the parts, and how [Renumber_Nodes] ends *)

Section Containers.
Context `{B : Boost}.

Lemma vector_at_cases {A} (l : list A) k :
  (exists a, vector_at l k = Normal a) \/ vector_at l k = Throw out_of_range.
Proof.
  unfold vector_at. destruct (k <? 0); [by right|].
  destruct (l !! Z.to_nat k); eauto.
Qed.

Lemma vector_at_out {A} (l : list A) k :
  ~ (0 <= k < Z.of_nat (length l)) -> vector_at l k = Throw out_of_range.
Proof.
  intros Hk. unfold vector_at. destruct (k <? 0) eqn:E; [done|].
  rewrite lookup_ge_None_2; [done|]. lia.
Qed.

(** X18: the getters of [Elements] by position.  When the vectors are
    parallel, [GetElementID], [GetPartID] and [GetElement] return the
    fields of the row at the position asked for, and each throws
    [out_of_range] for a position that is negative or not below the
    number of elements. *)
Theorem Elements_getters_by_position e :
  parallel_elements e = true ->
  (forall i r,
     rows e !! i = Some r ->
     GetElementID e (Z.of_nat i) = Normal (row_eid r) /\
     GetPartID e (Z.of_nat i) = Normal (row_pid r) /\
     GetElement e (Z.of_nat i) = Normal r.2) /\
  (forall k,
     ~ (0 <= k < Z.of_nat (length (eids e))) ->
     GetElementID e k = Throw out_of_range /\
     GetPartID e k = Throw out_of_range /\
     GetElement e k = Throw out_of_range).
Proof.
  intros Hp. split.
  - intros i r Hr. rewrite rows_lookup in Hr by done.
    pose proof (row_at_Some _ _ _ Hr) as (He & Hpid & _).
    unfold GetElementID, GetPartID.
    rewrite (vector_at_Normal _ _ _ He), (vector_at_Normal _ _ _ Hpid).
    split; [done|]. split; [done|]. by apply GetElement_row.
  - intros k Hk.
    apply parallel_elements_spec in Hp as (Lp & L1 & _).
    unfold GetElementID, GetPartID, GetElement.
    rewrite (vector_at_out (eids e)), (vector_at_out (pids e)),
      (vector_at_out (n1 e)); [done|lia..].
Qed.

(** X19: [AddNode] and the getters of [Nodes].  Both overloads of
    [AddNode] append the same node; when the vectors are parallel they
    stay so, the new node is read back at the last position by
    [GetNodeID] and [GetNode], and what the getters returned before is
    returned still. *)
Theorem AddNode_is_read_back n id vx vy vz :
  parallel_nodes n = true ->
  let n' := AddNode id (vx, vy, vz) n in
  AddNode_xyz id vx vy vz n = n' /\
  parallel_nodes n' = true /\
  GetNodeID n' (Z.of_nat (length (nids n))) = Normal id /\
  GetNode n' (Z.of_nat (length (nids n))) = Normal (vx, vy, vz) /\
  (forall k a, GetNodeID n k = Normal a -> GetNodeID n' k = Normal a) /\
  (forall k a, GetNode n k = Normal a -> GetNode n' k = Normal a).
Proof.
  intros Hp n'. apply parallel_nodes_spec in Hp as (Lx & Ly & Lz).
  assert (forall {A} (l : list A) v k a,
            vector_at l k = Normal a -> vector_at (l ++ [v]) k = Normal a)
    as Hkeep.
  { intros A l v k a. unfold vector_at. destruct (k <? 0); [done|].
    destruct (l !! Z.to_nat k) as [b|] eqn:E; [|done].
    by rewrite (lookup_app_l_Some _ _ _ _ E). }
  split; [done|]. split.
  { apply parallel_nodes_spec. simpl. rewrite !length_app. simpl. lia. }
  split.
  { unfold GetNodeID. apply vector_at_Normal. simpl.
    by rewrite list_lookup_middle. }
  split.
  { unfold GetNode. simpl.
    rewrite (vector_at_Normal (x n ++ [vx]) _ vx),
      (vector_at_Normal (y n ++ [vy]) _ vy),
      (vector_at_Normal (z n ++ [vz]) _ vz); [done|..];
      by rewrite list_lookup_middle. }
  split.
  { intros k a. unfold GetNodeID. apply Hkeep. }
  intros k a. unfold GetNode. simpl.
  destruct (vector_at (x n) k) as [ax| | |] eqn:Ex; try done.
  destruct (vector_at (y n) k) as [ay| | |] eqn:Ey; try done.
  destruct (vector_at (z n) k) as [az| | |] eqn:Ez; try done.
  simpl. intros [= <-].
  by rewrite (Hkeep _ _ vx _ _ Ex), (Hkeep _ _ vy _ _ Ey),
    (Hkeep _ _ vz _ _ Ez).
Qed.

(** X20: [AddElement] and the getters of [Elements].  [AddElement]
    throws exactly when the element id is in the table, and then the
    table is not changed; otherwise it appends one row, which the getters
    read back at the last position and which [FindElement] finds by its
    id. *)
Theorem AddElement_is_read_back e eid pid el :
  parallel_elements e = true ->
  (eid ∈ eids e -> AddElement eid pid el e = Throw DuplicateIdError) /\
  (eid ∉ eids e ->
   exists e',
     AddElement eid pid el e = Normal e' /\
     parallel_elements e' = true /\
     rows e' = rows e ++ [(eid, pid, el)] /\
     GetElementID e' (Z.of_nat (length (eids e))) = Normal eid /\
     GetPartID e' (Z.of_nat (length (eids e))) = Normal pid /\
     GetElement e' (Z.of_nat (length (eids e))) = Normal el /\
     FindElement e' eid = Some (Normal el)).
Proof.
  intros Hp. unfold AddElement. split.
  - intros Hin. by rewrite bool_decide_eq_true_2.
  - intros Hn. rewrite bool_decide_eq_false_2 by done.
    exists (push_element eid pid el e). split; [done|].
    assert (parallel_elements (push_element eid pid el e) = true) as Hp'
      by (rewrite push_element_rows by done; apply parallel_columns).
    pose proof (rows_push_element e eid pid el Hp) as Hrows.
    assert (row_at (push_element eid pid el e) (length (eids e))
            = Some (eid, pid, el)) as Hrow.
    { rewrite <- rows_lookup, Hrows by done.
      rewrite <- (length_rows e Hp). apply list_lookup_middle. done. }
    pose proof (row_at_Some _ _ _ Hrow) as (He & Hpid & _).
    pose proof (GetElement_row _ _ _ Hrow) as Hget.
    repeat split; try done.
    + unfold GetElementID. by rewrite (vector_at_Normal _ _ _ He).
    + unfold GetPartID. by rewrite (vector_at_Normal _ _ _ Hpid).
    + rewrite (FindElement_first _ (length (eids e))); [by rewrite Hget|done|].
      intros j Hj Hj'. simpl in Hj'. rewrite lookup_app_l in Hj' by done.
      apply Hn. by eapply list_elem_of_lookup_2.
Qed.

(** *** The names of the parts *)

Lemma bool_decide_ext_orb (P Q R : Prop) `{!Decision P, !Decision Q,
    !Decision R} :
  (P <-> Q \/ R) -> bool_decide P = bool_decide Q || bool_decide R.
Proof.
  intros H. repeat case_bool_decide; simpl; try done; tauto.
Qed.

Lemma name_parts_lookup (names : gmap Z string) (l : list Z) pid :
  foldr (fun pid names => (map_index EmptyString names pid).2) names l !! pid
  = match names !! pid with
    | Some n => Some n
    | None => if bool_decide (pid ∈ l) then Some EmptyString else None
    end.
Proof.
  induction l as [|k l IH]; cbn [foldr].
  { destruct (names !! pid); [done|].
    rewrite bool_decide_eq_false_2; [done|apply not_elem_of_nil]. }
  set (m := foldr _ names l) in *.
  assert (bool_decide (pid ∈ k :: l)
          = bool_decide (pid = k) || bool_decide (pid ∈ l)) as ->.
  { apply bool_decide_ext_orb. apply elem_of_cons. }
  unfold map_index. destruct (m !! k) as [v|] eqn:E; cbn [snd].
  - rewrite IH. destruct (names !! pid) eqn:En; [done|].
    destruct (decide (pid = k)) as [->|Hne].
    + rewrite IH in E. rewrite (bool_decide_eq_true_2 (k = k)) by done.
      simpl. by destruct (bool_decide (k ∈ l)).
    + by rewrite (bool_decide_eq_false_2 (pid = k)) by done.
  - destruct (decide (pid = k)) as [->|Hne].
    + rewrite lookup_insert_eq. rewrite IH in E.
      destruct (names !! k); [done|].
      by rewrite (bool_decide_eq_true_2 (k = k)) by done.
    + rewrite lookup_insert_ne by done. rewrite IH.
      by rewrite (bool_decide_eq_false_2 (pid = k)) by done.
Qed.

Lemma Parse_Normal_inv fuel contents kf :
  (Parse fuel contents kf).1 = Normal tt ->
  exists kf2, (Parse fuel contents kf).2 = set_lexer None (name_parts kf2).
Proof.
  unfold Parse, bind. cbn [modify].
  destruct (lexer_NextSymbol _) as [[sy| | |] kf1]; try done.
  destruct (Parse_loop fuel sy 0 kf1) as [[[]| | |] kf2]; try done.
  intros _. by exists kf2.
Qed.

(** X21: when [Parse] returns, every part that has elements has a name:
    the summary that [Parse] prints reads [part_names[pid]] for every part
    id of [parts], which enters the empty name for a part that no [*PART]
    block has named. *)
Theorem Parse_names_every_part fuel contents kf pid :
  (Parse fuel contents kf).1 = Normal tt ->
  is_Some (parts (Parse fuel contents kf).2 !! pid) ->
  is_Some (part_names (Parse fuel contents kf).2 !! pid).
Proof.
  intros [kf2 ->]%Parse_Normal_inv.
  unfold name_parts, set_lexer, set_part_names. cbn [parts part_names].
  intros [els Hels]. rewrite name_parts_lookup.
  destruct (part_names kf2 !! pid); [done|].
  rewrite bool_decide_eq_true_2; [done|].
  apply list_elem_of_fmap. exists (pid, els). split; [done|].
  by apply elem_of_map_to_list.
Qed.

(** *** How [Renumber_Nodes] ends *)

Lemma for_loop_outcome {St} (Inv : nat -> St -> Prop)
    (body : nat -> M St unit) n :
  forall i s,
    Inv i s ->
    (forall j s, (i <= j < i + n)%nat -> Inv j s ->
       (exists s', body j s = (Normal tt, s') /\ Inv (S j) s') \/
       (exists s', body j s = (Throw out_of_range, s'))) ->
    (exists s', for_loop i n body s = (Normal tt, s') /\ Inv (i + n)%nat s') \/
    (exists s', for_loop i n body s = (Throw out_of_range, s')).
Proof.
  induction n as [|n IH]; intros i s Hi Hstep; simpl.
  - left. exists s. rewrite Nat.add_0_r. done.
  - destruct (Hstep i s ltac:(lia) Hi) as [(s1 & E1 & H1)|(s1 & E1)].
    + rewrite (bind_Normal _ _ _ _ _ E1).
      destruct (IH (S i) s1 H1) as [(s2 & E2 & H2)|(s2 & E2)].
      { intros j s' Hj. apply Hstep. lia. }
      * left. exists s2. split; [done|].
        by replace (i + S n)%nat with (S i + n)%nat by lia.
      * right. eauto.
    + right. exists s1. by rewrite (bind_Throw _ _ _ _ _ E1).
Qed.

Ltac split_vector_at :=
  repeat match goal with
         | |- context [vector_at ?l ?i] =>
             let a := fresh "a" in
             let E := fresh "E" in
             destruct (vector_at_cases l i) as [[a E]|E]; rewrite E;
             simpl; [|by (right; eauto)]; clear E
         end.

Lemma Renumber_node_outcome P j s :
  (exists s', Renumber_node P j s = (Normal tt, s') /\
              elements (R s') = elements (R s)) \/
  (exists s', Renumber_node P j s = (Throw out_of_range, s')).
Proof.
  unfold Renumber_node, bind, lift, modify.
  split_vector_at. left. eauto.
Qed.

Lemma Renumber_element_outcome P j s :
  eids (elements (R s)) = dense j ->
  (exists s', Renumber_element P j s = (Normal tt, s') /\
              eids (elements (R s')) = dense (S j)) \/
  (exists s', Renumber_element P j s = (Throw out_of_range, s')).
Proof.
  intros HR.
  unfold Renumber_element, GetElement, GetElementID, GetPartID.
  unfold bind at 1. unfold lift at 1.
  split_vector_at.
  unfold bind, node_remap_index, lift, gets, modify.
  repeat (destruct (map_index _ _ _); simpl).
  split_vector_at.
  unfold AddElement. rewrite HR.
  rewrite bool_decide_eq_false_2 by (rewrite elem_of_dense; lia).
  simpl. left. eexists. split; [done|]. simpl. by rewrite HR, dense_S.
Qed.

(** X22: how [Renumber_Nodes] ends.  It returns the renumbered Document
    when the vectors that it reads with [at] are as long as its loops
    run, and throws [out_of_range] when one is shorter; it does not throw
    the duplicate-id error of [AddElement], whatever the element ids of
    the part are. *)
Theorem Renumber_Nodes_outcome P :
  Renumber_Nodes P
  = if long_enough P then Normal (Renumbered P) else Throw out_of_range.
Proof.
  destruct (long_enough P) eqn:Hlen; [by apply Renumber_Nodes_closed|].
  assert ((exists P', Renumber_Nodes P = Normal P') \/
          Renumber_Nodes P = Throw out_of_range) as [[P' E]|E]; [|by
    apply Renumber_Nodes_Normal_long_enough in E; congruence|done].
  unfold Renumber_Nodes.
  match goal with |- context [bind _ _ ?i] => set (init := i) end.
  destruct (for_loop_outcome
              (fun _ s => elements (R s) = no_Elements)
              (Renumber_node P) (length (nids (nodes P))) 0 init eq_refl)
    as [(s1 & E1 & H1)|(s1 & E1)].
  { intros j s _ Hs.
    destruct (Renumber_node_outcome P j s) as [(s' & E & He)|(s' & E)].
    - left. exists s'. split; [done|]. congruence.
    - right. eauto. }
  2:{ right. by rewrite (bind_Throw _ _ _ _ _ E1). }
  rewrite (bind_Normal _ _ _ _ _ E1).
  destruct (for_loop_outcome
              (fun j s => eids (elements (R s)) = dense j)
              (Renumber_element P) (length (eids (elements P))) 0 s1)
    as [(s2 & E2 & H2)|(s2 & E2)].
  { by rewrite H1. }
  { intros j s _ Hs. by apply Renumber_element_outcome. }
  - left. rewrite E2. simpl. eauto.
  - right. by rewrite E2.
Qed.

End Containers.

Lemma Elements_getters_by_position_witness :
  (forall i r,
     rows (elements D_two_parts) !! i = Some r ->
     GetElementID (elements D_two_parts) (Z.of_nat i) = Normal (row_eid r) /\
     GetPartID (elements D_two_parts) (Z.of_nat i) = Normal (row_pid r) /\
     GetElement (elements D_two_parts) (Z.of_nat i) = Normal r.2) /\
  (forall k,
     ~ (0 <= k < Z.of_nat (length (eids (elements D_two_parts)))) ->
     GetElementID (elements D_two_parts) k = Throw out_of_range /\
     GetPartID (elements D_two_parts) k = Throw out_of_range /\
     GetElement (elements D_two_parts) k = Throw out_of_range).
Proof.
  exact (Elements_getters_by_position (elements D_two_parts) eq_refl).
Defined.

Lemma AddNode_is_read_back_witness :
  GetNode (AddNode (B := Decimal.boost) 7 ((1, 0), (2, 0), (3, 0))
             (nodes D_two_parts)) 3
  = Normal ((1, 0), (2, 0), (3, 0)).
Proof.
  exact (proj1 (proj2 (proj2 (proj2
           (AddNode_is_read_back (B := Decimal.boost) (nodes D_two_parts) 7
              (1, 0) (2, 0) (3, 0) eq_refl))))).
Defined.

Lemma AddElement_is_read_back_witness :
  AddElement 10 5 (mkElement 1 2 0 0 0 0 0 0) (elements D_two_parts)
  = Throw DuplicateIdError.
Proof.
  apply (proj1 (AddElement_is_read_back
                  (elements D_two_parts) 10 5 (mkElement 1 2 0 0 0 0 0 0)
                  eq_refl)).
  apply list_elem_of_here.
Defined.

Lemma Parse_names_every_part_witness :
  is_Some (part_names (Parse (B := Decimal.boost) 40
                         (input_mesh +:+ input_same_part_unnamed)
                         new_KeyFile).2 !! 6).
Proof.
  apply (Parse_names_every_part (B := Decimal.boost) 40
           (input_mesh +:+ input_same_part_unnamed) new_KeyFile 6).
  - vm_compute. reflexivity.
  - vm_compute. eauto.
Defined.

(** ** The name of a part *)

Lemma AcceptNumber_symbol lx :
  symbol (AcceptNumber lx).1 = number_at (stream lx).
Proof.
  unfold number_at, AcceptNumber. simpl. destruct_lets. done.
Qed.

Lemma Accept_symbol_nonempty lx :
  symbol (AcceptWhitespace lx).1 <> EmptyString /\
  symbol (AcceptWord lx).1 <> EmptyString /\
  symbol (AcceptNumber lx).1 <> EmptyString.
Proof.
  unfold AcceptWhitespace, AcceptWord, AcceptNumber.
  destruct (stream lx) as [|a s]; simpl; destruct_lets; done.
Qed.

(** A symbol without a newline that is read from a line is read from the
    part of the line before its newline. *)
Lemma prefix_of_line s1 t line rest :
  s1 +:+ t = line +:+ nl +:+ rest ->
  chars_all not_newline s1 = true ->
  exists line', line = s1 +:+ line' /\ t = line' +:+ nl +:+ rest.
Proof.
  revert line. induction s1 as [|b s1 IH]; intros line H Hs.
  { exists line. by rewrite append_nil_l in *. }
  simpl in Hs. apply andb_true_iff in Hs as [Hb Hs].
  destruct line as [|a line].
  - rewrite append_nil_l in H. unfold nl in H. rewrite !append_cons in H.
    injection H as -> _. done.
  - rewrite !append_cons in H. injection H as -> H.
    destruct (IH line H Hs) as (line' & -> & ->).
    exists line'. by rewrite append_cons.
Qed.

Lemma inside_line_not_newline c : inside_line c = true -> not_newline c = true.
Proof. unfold inside_line, not_newline. by intros [? _]%andb_true_iff. Qed.

Lemma blank_cases c :
  is_blank c = true -> c = 32 \/ c = 9 \/ c = 12 \/ c = 11.
Proof. unfold is_blank. change (chr " ") with 32. lia. Qed.

Lemma number_cases c : starts_number c = true -> 48 <= c <= 57 \/ c = 45.
Proof.
  unfold starts_number. change (chr "0") with 48. change (chr "9") with 57.
  change (chr "-") with 45. lia.
Qed.

Lemma is_blank_space_cond c : is_blank c = true -> space_cond c = true.
Proof. intros H%blank_cases. unfold space_cond, isspace, NL, EOF. lia. Qed.

Lemma starts_number_not_space c :
  starts_number c = true -> space_cond c = false.
Proof. intros H%number_cases. unfold space_cond, isspace, NL, EOF. lia. Qed.

Lemma read_while_exact p w t :
  chars_all p w = true -> p (to_char (peek t)) = false ->
  read_while p (w +:+ t) = (w, t).
Proof.
  intros Hw Ht. induction w as [|a w IH].
  - rewrite append_nil_l. destruct t as [|b t]; [done|].
    simpl in *. by rewrite Ht.
  - rewrite append_cons. simpl in *. apply andb_true_iff in Hw as [Ha Hw].
    by rewrite Ha, (IH Hw).
Qed.

(** A number that is pending is read as a number, at the start of a line
    and mid-line. *)
Lemma NextSymbol_number_pending lx :
  state lx = 0 \/ state lx = 1 ->
  starts_number (to_char (peek (stream lx))) = true ->
  (NextSymbol lx).1 = Some (AcceptNumber lx).1 /\
  (NextSymbol lx).2
  = set_currentSymbol (AcceptNumber lx).2 (Some (AcceptNumber lx).1).
Proof.
  intros Hst Hc. pose proof (number_cases _ Hc) as Hr.
  destruct (NextSymbol_Some lx Hst) as [sy Hsy]. rewrite Hsy.
  assert (after_comments lx = lx) as Hid.
  { apply after_comments_id. right. change (chr "$") with 36. lia. }
  pose proof (NextSymbol_cases lx sy Hsy) as Hcases. cbv zeta in Hcases.
  rewrite Hid in Hcases. destruct Hcases as (_ & lx2 & -> & Hcases).
  destruct Hcases as
    [(_ & Hc1 & _)|[(Hc1 & _)|[(_ & Hc1 & _)|[(_ & Hc1 & _)|
     [(_ & _ & -> & ->)|[(Hc1 & _)|(_ & _ & _ & Hc1 & _)]]]]]].
  - change (chr "*") with 42 in Hc1. lia.
  - unfold NL in Hc1. lia.
  - apply blank_cases in Hc1. lia.
  - change (chr ",") with 44 in Hc1. lia.
  - done.
  - unfold EOF in Hc1. lia.
  - congruence.
Qed.

(** Blanks that are pending at the start of a line, before a number, are
    read as one symbol. *)
Lemma NextSymbol_blanks lx a ws rest :
  state lx = 0 ->
  stream lx = String a ws +:+ rest ->
  chars_all is_blank (String a ws) = true ->
  starts_number (to_char (peek rest)) = true ->
  exists sy,
    (NextSymbol lx).1 = Some sy /\ type sy = WHITESPACE /\
    stream (NextSymbol lx).2 = rest /\ state (NextSymbol lx).2 = 1.
Proof.
  intros Hst Hs Hb Hc.
  assert (is_blank (to_char (peek (stream lx))) = true) as Hpend.
  { rewrite Hs. simpl in *. by apply andb_true_iff in Hb as [? _]. }
  pose proof (blank_cases _ Hpend) as Hr.
  destruct (NextSymbol_Some lx (or_introl Hst)) as [sy Hsy].
  exists sy. split; [done|].
  assert (after_comments lx = lx) as Hid.
  { apply after_comments_id. right. change (chr "$") with 36. lia. }
  pose proof (NextSymbol_cases lx sy Hsy) as Hcases. cbv zeta in Hcases.
  rewrite Hid in Hcases. destruct Hcases as (_ & lx2 & -> & Hcases).
  destruct Hcases as
    [(_ & Hc1 & _)|[(Hc1 & _)|[(_ & _ & -> & ->)|[(_ & Hc1 & _)|
     [(_ & Hc1 & _)|[(Hc1 & _)|(_ & _ & Hc1 & _)]]]]]].
  - change (chr "*") with 42 in Hc1. lia.
  - unfold NL in Hc1. lia.
  - unfold AcceptWhitespace. rewrite Hs, append_cons. cbn [get].
    rewrite read_while_exact.
    + done.
    + simpl in Hb. apply andb_true_iff in Hb as [_ Hb].
      eapply chars_all_impl; [apply is_blank_space_cond|done].
    + by apply starts_number_not_space.
  - change (chr ",") with 44 in Hc1. lia.
  - apply number_cases in Hc1. lia.
  - unfold EOF in Hc1. lia.
  - congruence.
Qed.

Section PartName.
Context `{B : Boost}.

Lemma lexer_NextSymbol_Some kf lx sy :
  lexer kf = Some lx -> (NextSymbol lx).1 = Some sy ->
  lexer_NextSymbol kf = (Normal sy, set_lexer (Some (NextSymbol lx).2) kf).
Proof.
  intros Hl Hsy. unfold lexer_NextSymbol. rewrite Hl.
  destruct (NextSymbol lx) as [o lx']. simpl in Hsy. by subst o.
Qed.

(** The first loop of [AcceptPart] on the rest of a line. *)
Lemma read_part_name_line fuel : forall line name kf lx rest,
  lexer kf = Some lx -> state lx = 1 ->
  stream lx = line +:+ nl +:+ rest ->
  chars_all inside_line line = true ->
  (String.length line < fuel)%nat ->
  exists lx',
    read_part_name fuel name kf
    = (Normal (name +:+ line), set_lexer (Some lx') kf) /\
    stream lx' = rest /\ state lx' = 0 /\
    current_line lx' = current_line lx + 1.
Proof.
  induction fuel as [|fuel IH]; intros line name kf lx rest Hl Hst Hs Hc Hlen;
    [lia|].
  destruct (NextSymbol_Some lx (or_intror Hst)) as [sy Hsy].
  pose proof (after_comments_id lx (or_introl Hst)) as Hid.
  pose proof (lexer_NextSymbol_Some kf lx sy Hl Hsy) as Hnext.
  simpl. rewrite (bind_Normal _ _ _ _ _ Hnext).
  pose proof (NextSymbol_cases lx sy Hsy) as Hcases. cbv zeta in Hcases.
  rewrite Hid in Hcases. destruct Hcases as (_ & lx2 & Hlx2 & Hcases).
  assert (forall a line0, line = String a line0 ->
            to_char (peek (stream lx)) <> NL /\
            to_char (peek (stream lx)) <> EOF) as Hpend.
  { intros a line0 ->. rewrite Hs. simpl in *.
    apply andb_true_iff in Hc as [Ha _]. unfold inside_line in Ha.
    apply andb_true_iff in Ha as [H1 H2].
    apply negb_true_iff, Z.eqb_neq in H1, H2. done. }
  assert (stream lx <> EmptyString) as Hne.
  { rewrite Hs. destruct line; done. }
  (* a symbol that is not the newline: go on with the rest of the line *)
  assert (type sy <> NEWLINE -> state lx2 = 1 ->
          current_line lx2 = current_line lx ->
          symbol sy <> EmptyString ->
          chars_all not_newline (symbol sy) = true ->
          symbol sy +:+ stream lx2 = stream lx ->
          exists lx',
            (if bool_decide (type sy = NEWLINE) then ret name
             else read_part_name fuel (name +:+ symbol sy))
              (set_lexer (Some (NextSymbol lx).2) kf)
            = (Normal (name +:+ line), set_lexer (Some lx') kf) /\
            stream lx' = rest /\ state lx' = 0 /\
            current_line lx' = current_line lx + 1) as Hgo.
  { intros Hty Hst2 Hcl2 Hsne Hnn Hcons.
    rewrite bool_decide_eq_false_2 by done.
    rewrite Hs in Hcons.
    destruct (prefix_of_line _ _ _ _ Hcons Hnn) as (line' & -> & Hs2).
    rewrite chars_all_append in Hc. apply andb_true_iff in Hc as [_ Hc'].
    rewrite length_append in Hlen.
    assert (String.length (symbol sy) <> 0%nat)
      by (destruct (symbol sy); simpl; [done|lia]).
    destruct (IH line' (name +:+ symbol sy)
                (set_lexer (Some (NextSymbol lx).2) kf) (NextSymbol lx).2 rest)
      as (lx' & E & H1 & H2 & H3); try done.
    - by rewrite Hlx2.
    - by rewrite Hlx2.
    - lia.
    - exists lx'. rewrite E. rewrite append_assoc.
      split; [by destruct kf|]. split; [done|]. split; [done|].
      rewrite H3, Hlx2. simpl. lia. }
  destruct (Accept_symbol_nonempty lx) as (Nw & Nd & Nn).
  destruct Hcases as
    [(Hst0 & _)|[(Hc1 & -> & ->)|[(Hn & Hc1 & -> & ->)|[(Hst0 & _)|
     [(Hn & Hc1 & -> & ->)|[(Hc1 & -> & ->)|(Hn & He & Hc1 & _ & -> & ->)]]]]]];
    try lia.
  - (* the newline that ends the line *)
    destruct line as [|a line0].
    2:{ by destruct (Hpend a line0 eq_refl). }
    rewrite append_nil_l in Hs. simpl.
    exists (NextSymbol lx).2. rewrite append_nil_r.
    split; [done|]. rewrite Hlx2. simpl. rewrite Hs. done.
  - destruct (AcceptWhitespace_fields lx) as (Ht & Hs1 & Hl1).
    apply Hgo; try done.
    + by rewrite Ht.
    + by apply AcceptWhitespace_not_newline.
    + by apply AcceptWhitespace_consumes.
  - destruct (AcceptNumber_fields lx) as (Ht & Hs1 & Hl1).
    apply Hgo; try done.
    + by rewrite Ht.
    + by rewrite Hs1.
    + by apply AcceptNumber_not_newline.
    + by apply AcceptNumber_consumes.
  - destruct line as [|a line0].
    + rewrite Hs in Hc1. done.
    + by destruct (Hpend a line0 eq_refl).
  - destruct (AcceptWord_fields lx) as (Ht & Hs1 & Hl1).
    apply Hgo; try done.
    + by rewrite Ht.
    + by apply AcceptWord_not_newline.
    + by apply AcceptWord_consumes.
Qed.

(** The second loop of [AcceptPart], at a line that begins with the
    number, after blanks or at once. *)
Lemma skip_until_NUMBER_at fuel kf lx ws rest :
  lexer kf = Some lx -> state lx = 0 ->
  stream lx = ws +:+ rest ->
  chars_all is_blank ws = true ->
  starts_number (to_char (peek rest)) = true ->
  exists lx',
    skip_until (S (S fuel)) NUMBER kf
    = (Normal (mkSymbol NUMBER (number_at rest)), set_lexer (Some lx') kf).
Proof.
  intros Hl Hst Hs Hb Hc.
  assert (forall fuel kf lx,
            lexer kf = Some lx -> state lx = 0 \/ state lx = 1 ->
            stream lx = rest ->
            exists lx',
              skip_until (S fuel) NUMBER kf
              = (Normal (mkSymbol NUMBER (number_at rest)),
                 set_lexer (Some lx') kf)) as Hnumber.
  { clear - Hc. intros fuel kf lx Hl Hst Hs. rewrite <- Hs in *.
    destruct (NextSymbol_number_pending lx Hst Hc) as [Hn1 Hn2].
    destruct (AcceptNumber_fields lx) as (Ht & _).
    simpl. rewrite (bind_Normal _ _ _ _ _ (lexer_NextSymbol_Some _ _ _ Hl Hn1)).
    rewrite bool_decide_eq_true_2 by done.
    eexists. unfold ret. f_equal. f_equal.
    rewrite <- AcceptNumber_symbol. destruct (AcceptNumber lx).1. simpl in *.
    by subst. }
  destruct ws as [|a ws].
  { rewrite append_nil_l in Hs.
    exact (Hnumber (S fuel) kf lx Hl (or_introl Hst) Hs). }
  destruct (NextSymbol_blanks lx a ws rest Hst Hs Hb Hc)
    as (sy & Hsy & Hty & Hs' & Hst').
  change (skip_until (S (S fuel)) NUMBER)
    with (sy <- lexer_NextSymbol ;;
          if bool_decide (type sy = NUMBER) then ret sy
          else skip_until (S fuel) NUMBER).
  rewrite (bind_Normal _ _ _ _ _ (lexer_NextSymbol_Some _ _ _ Hl Hsy)).
  rewrite bool_decide_eq_false_2 by (by rewrite Hty).
  destruct (Hnumber fuel (set_lexer (Some (NextSymbol lx).2) kf)
              (NextSymbol lx).2 eq_refl (or_intror Hst') Hs') as (lx' & E).
  exists lx'. rewrite E. by destruct kf.
Qed.

(** X23: the name of a part is its title line as it is written.  When
    [AcceptPart] is called at the first word of a title line, the line
    that follows begins with the part id, after blanks or at once, and the
    fuel exceeds the length of the title line, [AcceptPart] returns and
    enters under that id the text of the title line up to its newline,
    blanks included; what is stored of the mesh stays as it was. *)
Theorem AcceptPart_names_part_by_title_line
    fuel kf lx cur line ws rest pid :
  lexer kf = Some lx ->
  currentSymbol lx = Some cur ->
  state lx = 1 ->
  stream lx = line +:+ nl +:+ ws +:+ rest ->
  chars_all inside_line line = true ->
  chars_all is_blank ws = true ->
  starts_number (to_char (peek rest)) = true ->
  lexical_cast_int (number_at rest) = Some pid ->
  (String.length line < fuel)%nat -> (1 < fuel)%nat ->
  (AcceptPart fuel kf).1 = Normal tt /\
  part_names (AcceptPart fuel kf).2
  = <[pid := symbol cur +:+ line]> (part_names kf) /\
  stored (AcceptPart fuel kf).2 = stored kf.
Proof.
  intros Hl Hcur Hst Hs Hc Hb Hnum Hpid Hlen Hfuel.
  destruct (read_part_name_line fuel line (symbol cur) kf lx (ws +:+ rest)
              Hl Hst Hs Hc Hlen) as (lx1 & E1 & Hs1 & Hst1 & _).
  destruct fuel as [|[|fuel]]; [lia..|].
  destruct (skip_until_NUMBER_at fuel (set_lexer (Some lx1) kf) lx1 ws rest
              eq_refl Hst1 Hs1 Hb Hnum) as (lx2 & E2).
  assert (AcceptPart (S (S fuel)) kf
          = (Normal tt,
             set_part_names (<[pid := symbol cur +:+ line]> (part_names kf))
               (set_lexer (Some lx2) (set_lexer (Some lx1) kf)))) as ->.
  { unfold AcceptPart.
    erewrite bind_Normal
      by (unfold lexer_GetCurrentSymbol; rewrite Hl, Hcur; reflexivity).
    rewrite (bind_Normal _ _ _ _ _ E1).
    rewrite (bind_Normal _ _ _ _ _ E2).
    unfold cast_int. simpl symbol. rewrite Hpid.
    erewrite bind_Normal by reflexivity. reflexivity. }
  done.
Qed.

End PartName.

Lemma AcceptPart_names_part_by_title_line_witness :
  (AcceptPart (B := Decimal.boost) 20
     (set_lexer (Some (mkLexer (" plate, upper" +:+ nl +:+ "    5 1" +:+ nl) 1
                               (Some (mkSymbol WORD "Steel")) 7))
                new_KeyFile)).1 = Normal tt /\
  part_names
    (AcceptPart (B := Decimal.boost) 20
       (set_lexer (Some (mkLexer (" plate, upper" +:+ nl +:+ "    5 1" +:+ nl)
                                 1 (Some (mkSymbol WORD "Steel")) 7))
                  new_KeyFile)).2
  = <[5 := "Steel" +:+ " plate, upper"]> ∅ /\
  stored
    (AcceptPart (B := Decimal.boost) 20
       (set_lexer (Some (mkLexer (" plate, upper" +:+ nl +:+ "    5 1" +:+ nl)
                                 1 (Some (mkSymbol WORD "Steel")) 7))
                  new_KeyFile)).2
  = stored (new_KeyFile (B := Decimal.boost)).
Proof.
  exact (AcceptPart_names_part_by_title_line (B := Decimal.boost) 20
           (set_lexer (Some (mkLexer (" plate, upper" +:+ nl +:+ "    5 1"
                                        +:+ nl)
                                     1 (Some (mkSymbol WORD "Steel")) 7))
                      new_KeyFile)
           (mkLexer (" plate, upper" +:+ nl +:+ "    5 1" +:+ nl) 1
                    (Some (mkSymbol WORD "Steel")) 7)
           (mkSymbol WORD "Steel") " plate, upper" "    " ("5 1" +:+ nl) 5
           eq_refl eq_refl eq_refl eq_refl eq_refl eq_refl eq_refl eq_refl
           ltac:(vm_compute; lia) ltac:(lia)).
Defined.

(** ** The element index of an extracted part *)

Section PartIndex.
Context `{B : Boost}.

Lemma index_of_rows_count (sel : list Row) :
  (foldl (fun mi r => (<[row_eid r := Z.of_nat mi.2]> mi.1, S mi.2))
         ((∅ : gmap Z Z), 0%nat) sel).2 = length sel.
Proof.
  induction sel as [|r sel IH] using rev_ind; [done|].
  rewrite foldl_snoc, length_app. simpl. rewrite IH. lia.
Qed.

Lemma index_of_rows_snoc (sel : list Row) r :
  index_of_rows (sel ++ [r])
  = <[row_eid r := Z.of_nat (length sel)]> (index_of_rows sel).
Proof.
  unfold index_of_rows. rewrite foldl_snoc. simpl.
  by rewrite index_of_rows_count.
Qed.

Lemma index_of_rows_lookup (sel : list Row) eid k :
  NoDup (row_eid <$> sel) ->
  index_of_rows sel !! eid = Some k <->
  0 <= k /\ (row_eid <$> sel) !! Z.to_nat k = Some eid.
Proof.
  induction sel as [|r sel IH] using rev_ind; intros Hnd.
  { unfold index_of_rows. simpl. rewrite lookup_empty.
    split; [done|]. by intros [_ ?]. }
  rewrite fmap_app in Hnd |- *. simpl in *.
  apply NoDup_app in Hnd as (Hnd & Hnew & _).
  assert (row_eid r ∉ row_eid <$> sel) as Hr.
  { intros Hin. apply (Hnew _ Hin). apply list_elem_of_here. }
  rewrite index_of_rows_snoc.
  destruct (decide (eid = row_eid r)) as [->|Hne].
  - rewrite lookup_insert_eq, lookup_snoc_new by done.
    rewrite length_fmap. split.
    + intros [= <-]. split; [lia|]. by rewrite Nat2Z.id.
    + intros [H0 Hk]. f_equal. lia.
  - rewrite lookup_insert_ne by done.
    rewrite lookup_snoc_ne by done. by apply IH.
Qed.

(** *** What the loop body does to [part.element_index] *)

Lemma leaves_bind {X A C} (f : IsolatePart_vars -> X)
    (m : M IsolatePart_vars A) (k : A -> M IsolatePart_vars C) :
  leaves f m -> (forall a, leaves f (k a)) -> leaves f (bind m k).
Proof.
  intros Hm Hk v. unfold bind. specialize (Hm v).
  destruct (m v) as [[a|e| |] s']; simpl in *; [by rewrite Hk|done..].
Qed.

Lemma leaves_same {X A} (f : IsolatePart_vars -> X)
    (m : M IsolatePart_vars A) :
  (forall v, f (m v).2 = f v) -> leaves f m.
Proof. done. Qed.

Lemma copy_node_leaves_element_index nK :
  leaves (fun v => (element_index (part v), elements (part v)))
         (copy_node nK).
Proof.
  unfold copy_node.
  repeat first
    [ apply leaves_bind; [|intro]
    | match goal with
      | |- leaves _ (if ?b then _ else _) => destruct b
      end
    | by apply leaves_same ].
  intros v. unfold objects_node_index.
  by destruct (map_index _ _ _).
Qed.

Lemma copy_nodes_leave_element_index :
  leaves (fun v => (element_index (part v), elements (part v)))
    (copy_node n1 >> copy_node n2 >> copy_node n3 >> copy_node n4 >>
     copy_node n5 >> copy_node n6 >> copy_node n7 >> copy_node n8).
Proof.
  repeat (apply leaves_bind; [apply copy_node_leaves_element_index|intro]).
  apply copy_node_leaves_element_index.
Qed.

Lemma IsolatePart_body_element_index p j v r :
  row_at (elements (objects v)) j = Some r ->
  element_index (part (IsolatePart_body p j v).2)
  = if decide (row_pid r = p)
    then <[row_eid r := Z.of_nat (length (eids (elements (part v))))]>
           (element_index (part v))
    else element_index (part v).
Proof.
  intros Hr. pose proof (row_at_Some _ _ _ Hr) as (He & Hp & _).
  unfold IsolatePart_body.
  erewrite bind_Normal by reflexivity.
  erewrite bind_Normal
    by (unfold lift; by rewrite (vector_at_Normal _ _ _ Hp)).
  destruct (decide (row_pid r = p)) as [Heq|Hne].
  2:{ by rewrite (proj2 (Z.eqb_neq _ _) Hne). }
  rewrite (proj2 (Z.eqb_eq _ _) Heq).
  rewrite (bind_Normal _ _ _ _ _ (copy_row_run j v r Hr)).
  erewrite bind_Normal
    by (unfold lift; by rewrite (vector_at_Normal _ _ _ He)).
  erewrite bind_Normal by reflexivity.
  match goal with
  | |- context [part (?m ?s).2] =>
      transitivity (element_index (part s));
      [exact (f_equal fst (copy_nodes_leave_element_index s))|]
  end.
  simpl. rewrite length_app. simpl. do 2 f_equal. lia.
Qed.

(** [IsolatePart] where every node that the part refers to can be
    copied, with the element index of its result. *)
Lemma IsolatePart_run_index parts D p :
  parallel_elements (elements D) = true ->
  Forall (fun b => copyable D b = true)
         (references (rows_of_part p (rows (elements D)))) ->
  exists v,
    IsolatePart parts D p = (Normal (part v), objects v) /\
    IsolatePart_inv D (references (rows_of_part p (rows (elements D)))) v /\
    elements (part v) = columns (rows_of_part p (rows (elements D))) /\
    element_index (part v)
    = index_of_rows (rows_of_part p (rows (elements D))).
Proof.
  intros Hp Hc.
  destruct (for_loop_inv
              (fun j v =>
                 (IsolatePart_inv D
                    (references (rows_of_part p (take j (rows (elements D)))))
                    v /\
                  elements (part v)
                  = columns (rows_of_part p (take j (rows (elements D))))) /\
                 element_index (part v)
                 = index_of_rows
                     (rows_of_part p (take j (rows (elements D)))))
              (IsolatePart_body p) (length (eids (elements D))) 0
              (mkVars D no_FiniteElementObject))
    as (v & Ev & [Hinv Hels] & Hidx).
  - split; [|done]. split; [|done].
    unfold IsolatePart_inv, nodes_copied, copied_from; simpl.
    repeat split; try done; try constructor.
  - intros j v Hj [[Hinv Hels] Hidx].
    destruct (row_at_is_Some _ j Hp ltac:(lia)) as [r Hr].
    assert (rows (elements D) !! j = Some r) as Hrj
      by (by rewrite rows_lookup).
    rewrite (take_S_r _ _ _ Hrj), rows_of_part_snoc.
    destruct (IsolatePart_body_run D p j v r
                (rows_of_part p (take j (rows (elements D)))))
      as (v' & Eb & Hinv' & Hels'); try done.
    { intros Hpid. apply Forall_forall. intros b Hb.
      rewrite Forall_forall in Hc. apply Hc.
      apply (elem_of_references _ r); [|done].
      apply list_elem_of_filter. split; [done|].
      by eapply list_elem_of_lookup_2. }
    exists v'. split; [done|]. split; [done|].
    assert (elements (objects v) = elements D) as Ho by apply Hinv.
    pose proof (IsolatePart_body_element_index p j v r) as Hb.
    rewrite Ho, Eb in Hb. specialize (Hb Hr). simpl in Hb.
    rewrite Hb, Hidx, Hels.
    rewrite rows_of_part_singleton.
    destruct (decide (row_pid r = p)).
    + rewrite index_of_rows_snoc. simpl. by rewrite length_fmap.
    + by rewrite app_nil_r.
  - rewrite take_ge in Hinv, Hels, Hidx by (rewrite length_rows by done; lia).
    exists v. split; [|done].
    unfold IsolatePart. by rewrite Ev.
Qed.

Lemma IsolatePart_element_index parts D p :
  parallel_elements (elements D) = true ->
  referential_integrity D = true ->
  exists part',
    IsolatePart parts D p = (Normal part', D) /\
    elements part' = columns (rows_of_part p (rows (elements D))) /\
    element_index part'
    = index_of_rows (rows_of_part p (rows (elements D))).
Proof.
  intros Hp Hri.
  destruct (IsolatePart_returns parts D p Hp Hri) as (part' & E & Hel & _).
  exists part'. split; [done|]. split; [done|].
  pose proof (referential_integrity_copyable D p Hri) as Hall.
  destruct (IsolatePart_run_index parts D p Hp) as (v & Ev & _ & _ & Hidx).
  { eapply Forall_impl; [exact Hall|]. intros b [->|Hb]; [done|].
    by apply node_present_copyable. }
  rewrite E in Ev. by injection Ev as -> _.
Qed.

(** X24: the element index of an extracted part.  For a Document with
    parallel element vectors, distinct element ids and referential
    integrity, [FiniteElementObject::GetElement] on the part that
    [IsolatePart] returns finds every element of the part under the id
    that it has in the Document, and throws [out_of_range] for every other
    id. *)
Theorem IsolatePart_indexes_its_elements parts D p :
  parallel_elements (elements D) = true ->
  NoDup (eids (elements D)) ->
  referential_integrity D = true ->
  exists part',
    IsolatePart parts D p = (Normal part', D) /\
    (forall eid e,
       (eid, p, e) ∈ rows (elements D) ->
       FiniteElementObject_GetElement part' eid = Normal e) /\
    (forall eid,
       (forall e, (eid, p, e) ∉ rows (elements D)) ->
       FiniteElementObject_GetElement part' eid = Throw out_of_range).
Proof.
  intros Hp Hnd Hri.
  destruct (IsolatePart_element_index parts D p Hp Hri)
    as (part' & E & Hel & Hidx).
  exists part'. split; [done|].
  remember (rows_of_part p (rows (elements D))) as L eqn:HL.
  assert (NoDup (row_eid <$> L)) as HndL.
  { rewrite HL. eapply sublist_NoDup; [|apply fmap_sublist, sublist_filter].
    by rewrite eids_rows. }
  assert (forall i r, L !! i = Some r ->
            GetElement (elements part') (Z.of_nat i) = Normal r.2) as Hget.
  { intros i r Hi. apply GetElement_row.
    rewrite <- rows_lookup by (rewrite Hel; apply parallel_columns).
    by rewrite Hel, rows_columns. }
  split.
  - intros eid e Hin.
    assert ((eid, p, e) ∈ L) as [i Hi]%list_elem_of_lookup
        by (rewrite HL; by apply list_elem_of_filter).
    unfold FiniteElementObject_GetElement, map_at. rewrite Hidx.
    rewrite (proj2 (index_of_rows_lookup L eid (Z.of_nat i) HndL)).
    + cbn [rbind]. by rewrite (Hget i _ Hi).
    + split; [lia|]. rewrite Nat2Z.id, list_lookup_fmap.
      unfold Row in *. by rewrite Hi.
  - intros eid Hn.
    unfold FiniteElementObject_GetElement, map_at. rewrite Hidx.
    destruct (index_of_rows L !! eid) as [k|] eqn:Ek; [|done].
    apply index_of_rows_lookup in Ek as [_ Ek]; [|done].
    rewrite list_lookup_fmap in Ek.
    destruct (L !! Z.to_nat k) as [[[eid' pid'] e']|] eqn:Er; [|done].
    injection Ek as Ek. unfold row_eid in Ek. simpl in Ek. subst eid'.
    apply list_elem_of_lookup_2 in Er. rewrite HL in Er.
    apply list_elem_of_filter in Er as [Hpid Hr].
    unfold row_pid in Hpid. simpl in Hpid. subst pid'. by destruct (Hn e').
Qed.

(** *** One call of [IsolatePart] after another *)

Lemma Forall2_functional {A C} (R : A -> C -> Prop) l k k' :
  (forall a b b', R a b -> R a b' -> b = b') ->
  Forall2 R l k -> Forall2 R l k' -> k = k'.
Proof.
  intros Hf H. revert k'. induction H as [|a b l k Hab H IH]; intros k' H'.
  - by inversion H'.
  - inversion H' as [|? b' ? k'' Hab' H'']; subst. f_equal; eauto.
Qed.

(** The part that [IsolatePart] builds is determined by what its
    invariant says. *)
Lemma IsolatePart_determined D D' ids v v' :
  nodes D' = nodes D ->
  (forall k, position D' k = position D k) ->
  IsolatePart_inv D ids v -> IsolatePart_inv D' ids v' ->
  elements (part v) = elements (part v') ->
  element_index (part v) = element_index (part v') ->
  part v = part v'.
Proof.
  intros Hn Hpos (_ & _ & _ & _ & Hids & Hx & Hy & Hz & Hi & Ha)
    (_ & _ & _ & _ & Hids' & Hx' & Hy' & Hz' & Hi' & Ha') Hel Hei.
  assert (nids (nodes (part v')) = nids (nodes (part v))) as Hnids
      by congruence.
  unfold copied_from in *. rewrite Hnids, Hn in *.
  assert (x (nodes (part v)) = x (nodes (part v'))) as Ex.
  { eapply Forall2_functional; [|exact Hx|].
    - intros a b b' H1 H2. simpl in *. congruence.
    - eapply Forall2_impl; [exact Hx'|]. intros a b H. simpl in *.
      by rewrite <- Hpos. }
  assert (y (nodes (part v)) = y (nodes (part v'))) as Ey.
  { eapply Forall2_functional; [|exact Hy|].
    - intros a b b' H1 H2. simpl in *. congruence.
    - eapply Forall2_impl; [exact Hy'|]. intros a b H. simpl in *.
      by rewrite <- Hpos. }
  assert (z (nodes (part v)) = z (nodes (part v'))) as Ez.
  { eapply Forall2_functional; [|exact Hz|].
    - intros a b b' H1 H2. simpl in *. congruence.
    - eapply Forall2_impl; [exact Hz'|]. intros a b H. simpl in *.
      by rewrite <- Hpos. }
  assert (node_index (part v) = node_index (part v')) as Eni.
  { apply map_eq. intros nid.
    destruct (decide (nid ∈ nids (nodes (part v)))) as [Hin|Hout].
    - apply list_elem_of_lookup in Hin as [i Hin].
      by rewrite (Hi _ _ Hin), (Hi' _ _ Hin).
    - by rewrite (Ha _ Hout), (Ha' _ Hout). }
  destruct (part v) as [[] ? ? ?], (part v') as [[] ? ? ?].
  simpl in *. congruence.
Qed.

(** X25: one call of [IsolatePart] does not disturb the next.
    [IsolatePart] changes the Document it is given, through
    [objects.node_index[nid]], which enters the ids that it does not know.
    Where every node that the two parts refer to can be copied, the part
    that a second call extracts from the Document that a first call has
    left is the part that it extracts from the Document itself. *)
Theorem IsolatePart_calls_do_not_interfere parts D p1 p2 :
  parallel_elements (elements D) = true ->
  Forall (fun b => copyable D b = true)
         (references (rows_of_part p1 (rows (elements D)))) ->
  Forall (fun b => copyable D b = true)
         (references (rows_of_part p2 (rows (elements D)))) ->
  exists part1 D1 part2,
    IsolatePart parts D p1 = (Normal part1, D1) /\
    (IsolatePart parts D p2).1 = Normal part2 /\
    (IsolatePart parts D1 p2).1 = Normal part2.
Proof.
  intros Hp Hc1 Hc2.
  destruct (IsolatePart_run_index parts D p1 Hp Hc1)
    as (v1 & E1 & Hinv1 & _ & _).
  destruct (IsolatePart_run_index parts D p2 Hp Hc2)
    as (v2 & E2 & Hinv2 & Hel2 & Hidx2).
  pose proof Hinv1 as (Hn & He & _ & Hni & _).
  assert (forall k, position (objects v1) k = position D k) as Hpos.
  { intros k. unfold position. rewrite Hni. apply touched_default. }
  assert (forall b, copyable (objects v1) b = copyable D b) as Hcopy.
  { intros b. unfold copyable. by rewrite Hpos, Hn. }
  destruct (IsolatePart_run_index parts (objects v1) p2)
    as (v2' & E2' & Hinv2' & Hel2' & Hidx2').
  { by rewrite He. }
  { rewrite He. eapply Forall_impl; [exact Hc2|]. intros b Hb.
    by rewrite Hcopy. }
  rewrite He in Hinv2', Hel2', Hidx2'.
  exists (part v1), (objects v1), (part v2).
  split; [done|]. split; [by rewrite E2|]. rewrite E2'. simpl. f_equal.
  symmetry. eapply (IsolatePart_determined D (objects v1)); try done.
  - congruence.
  - congruence.
Qed.

End PartIndex.

Lemma IsolatePart_indexes_its_elements_witness :
  exists part',
    IsolatePart ∅ D_two_parts 5 = (Normal part', D_two_parts) /\
    (forall eid e,
       (eid, 5, e) ∈ rows (elements D_two_parts) ->
       FiniteElementObject_GetElement part' eid = Normal e) /\
    (forall eid,
       (forall e, (eid, 5, e) ∉ rows (elements D_two_parts)) ->
       FiniteElementObject_GetElement part' eid = Throw out_of_range).
Proof.
  apply (IsolatePart_indexes_its_elements (B := Decimal.boost) ∅
           D_two_parts 5).
  - vm_compute. reflexivity.
  - compute_done.
  - vm_compute. reflexivity.
Defined.

Lemma IsolatePart_calls_do_not_interfere_witness :
  exists part1 D1 part2,
    IsolatePart ∅ D_dangling 5 = (Normal part1, D1) /\
    (IsolatePart ∅ D_dangling 5).1 = Normal part2 /\
    (IsolatePart ∅ D1 5).1 = Normal part2.
Proof.
  apply (IsolatePart_calls_do_not_interfere (B := Decimal.boost) ∅
           D_dangling 5 5).
  - vm_compute. reflexivity.
  - apply Forall_forall. intros b Hb. vm_compute in Hb.
    repeat (apply elem_of_cons in Hb as [->|Hb]; [vm_compute; reflexivity|]).
    by apply elem_of_nil in Hb.
  - apply Forall_forall. intros b Hb. vm_compute in Hb.
    repeat (apply elem_of_cons in Hb as [->|Hb]; [vm_compute; reflexivity|]).
    by apply elem_of_nil in Hb.
Defined.

(** ** Progress of the lexer and termination of the parser *)

Lemma length_nonempty (s : string) :
  s <> EmptyString -> (0 < String.length s)%nat.
Proof. destruct s; [done|simpl; lia]. Qed.

Lemma NextSymbol_stream_length lx :
  (String.length (stream (NextSymbol lx).2) <= String.length (stream lx))%nat.
Proof.
  destruct (NextSymbol_suffix lx) as [pre Hpre].
  rewrite Hpre at 1. rewrite length_append. lia.
Qed.

Lemma NextSymbol_makes_progress_aux lx sy :
  (NextSymbol lx).1 = Some sy ->
  type sy <> COMMA -> type sy <> END_OF_FILE ->
  (String.length (stream (NextSymbol lx).2) < String.length (stream lx))%nat.
Proof.
  intros H Hcomma Heof.
  destruct (after_comments_spec lx) as (_ & _ & _ & [pre Hpre] & _).
  destruct (Accept_symbol_nonempty (after_comments lx)) as (Nw & Nd & Nn).
  assert (to_char (peek (stream (after_comments lx))) <> EOF ->
          stream (after_comments lx) <> EmptyString) as Hne
      by (intros Hp Hs; by rewrite Hs in Hp).
  rewrite Hpre, length_append.
  assert (forall (s t : string),
            s <> EmptyString -> s +:+ t = stream (after_comments lx) ->
            (String.length t
             < String.length pre + String.length (stream (after_comments lx)))%nat)
    as Hlt.
  { intros s t Hs <-. rewrite length_append.
    pose proof (length_nonempty s Hs). lia. }
  NextSymbol_cases H; rewrite Hnext; try done;
    unfold set_currentSymbol; cbn [stream].
  - apply (Hlt "*"); [done|]. simpl.
    destruct (stream (after_comments lx)) as [|a s] eqn:Es; [done|].
    simpl. rewrite append_cons, append_nil_l. f_equal. symmetry.
    by apply (to_char_chr_eq a 42).
  - apply (Hlt nl); [done|]. simpl.
    destruct (stream (after_comments lx)) as [|a s] eqn:Es; [done|].
    simpl. unfold nl. rewrite append_cons, append_nil_l. f_equal. symmetry.
    by apply newline_char.
  - apply (Hlt _ _ Nw), AcceptWhitespace_consumes, Hne.
    intros E. by rewrite E in Hc.
  - apply (Hlt _ _ Nn), AcceptNumber_consumes, Hne.
    intros E. by rewrite E in Hc.
  - by apply (Hlt _ _ Nd), AcceptWord_consumes, Hne.
Qed.

(** X26: the lexer makes progress.  Every call of [NextSymbol] that
    returns a symbol other than [COMMA] and [END_OF_FILE] takes at least
    one character from the stream, and no call puts one back. *)
Theorem NextSymbol_makes_progress lx :
  (String.length (stream (NextSymbol lx).2) <= String.length (stream lx))%nat /\
  forall sy,
    (NextSymbol lx).1 = Some sy ->
    type sy <> COMMA -> type sy <> END_OF_FILE ->
    (String.length (stream (NextSymbol lx).2) < String.length (stream lx))%nat.
Proof.
  split; [apply NextSymbol_stream_length|].
  apply NextSymbol_makes_progress_aux.
Qed.

Lemma NextSymbol_no_comma lx sy :
  (NextSymbol lx).1 = Some sy ->
  chars_all no_comma (stream lx) = true ->
  type sy <> COMMA.
Proof.
  intros H Hp.
  destruct (after_comments_spec lx) as (_ & _ & _ & [pre Hpre] & _).
  rewrite Hpre, chars_all_append in Hp. apply andb_true_iff in Hp as [_ Hp].
  NextSymbol_cases H; try done.
  - by destruct (AcceptWhitespace_fields (after_comments lx)) as (-> & _).
  - assert (no_comma (to_char (peek (stream (after_comments lx)))) = true)
      as Hn by (apply pending_char; [done|by rewrite Hc]).
    by rewrite Hc in Hn.
  - by destruct (AcceptNumber_fields (after_comments lx)) as (-> & _).
  - by destruct (AcceptWord_fields (after_comments lx)) as (-> & _).
Qed.

Section Remaining.
Context `{B : Boost}.

(** A call of [NextSymbol] that returns a symbol uses up one of the
    calls that remain. *)
Lemma lexer_NextSymbol_remaining kf :
  stream_chars no_comma kf ->
  stream_chars no_comma (lexer_NextSymbol kf).2 /\
  (remaining (lexer_NextSymbol kf).2 <= remaining kf)%nat /\
  (forall sy, (lexer_NextSymbol kf).1 = Normal sy ->
              (remaining (lexer_NextSymbol kf).2 < remaining kf)%nat).
Proof.
  intros Hc. split; [by apply stream_chars_NextSymbol|].
  destruct Hc as (lx & Hl & Hc).
  unfold lexer_NextSymbol, remaining. rewrite Hl.
  pose proof (NextSymbol_stream_length lx) as Hlen.
  destruct (NextSymbol lx) as [[sy|] lx'] eqn:E; simpl.
  - assert ((NextSymbol lx).1 = Some sy) as Hsy by (by rewrite E).
    pose proof (NextSymbol_no_comma lx sy Hsy Hc) as Hcomma.
    destruct (NextSymbol_state_type lx sy Hsy) as [Hst _].
    destruct (NextSymbol_cases lx sy Hsy) as [Hrun _].
    rewrite E in Hst. simpl in Hst, Hlen.
    rewrite (bool_decide_eq_true_2 (state lx = 0 \/ state lx = 1)) by done.
    assert (type sy = END_OF_FILE \/
            (String.length (stream lx') < String.length (stream lx))%nat)
      as [He|Hlt].
    { destruct (decide (type sy = END_OF_FILE)) as [|Hne]; [by left|right].
      pose proof (NextSymbol_makes_progress_aux lx sy Hsy Hcomma Hne) as H.
      by rewrite E in H. }
    + rewrite He in Hst. simpl in Hst.
      rewrite bool_decide_eq_false_2 by lia.
      split; [lia|]. intros _ _. lia.
    + split; [case_bool_decide; lia|]. intros _ _. case_bool_decide; lia.
  - assert ((NextSymbol lx).1 = None) as E' by (by rewrite E).
    apply NextSymbol_None in E' as (H0 & H1 & H2).
    rewrite E in H2. simpl in H2. subst lx'. simpl.
    split; [|done]. lia.
Qed.

Lemma within_mono n n' kf : within n kf -> (n <= n')%nat -> within n' kf.
Proof. intros [H1 H2] Hn. split; [done|lia]. Qed.

Lemma within_lexer n kf kf' :
  lexer kf' = lexer kf -> within n kf -> within n kf'.
Proof.
  intros Hl [(lx & Hlx & Hc) Hr]. split.
  - exists lx. by rewrite Hl.
  - unfold remaining in *. by rewrite Hl.
Qed.

Lemma ends_bind {A C} n (m : M KeyFile A) (k : A -> M KeyFile C) :
  ends_within n m -> (forall a, ends_within n (k a)) ->
  ends_within n (bind m k).
Proof.
  intros Hm Hk kf Hw. unfold bind. destruct (Hm kf Hw) as [H1 H2].
  destruct (m kf) as [[a|e| |] s']; simpl in *; [by apply Hk|done..].
Qed.

Lemma ends_lexer_same {A} n (m : M KeyFile A) :
  (forall kf, (m kf).1 <> OutOfFuel /\ lexer (m kf).2 = lexer kf) ->
  ends_within n m.
Proof.
  intros H kf Hw. destruct (H kf) as [H1 H2]. split; [done|].
  by apply (within_lexer n kf).
Qed.

Lemma ends_ret {A} n (a : A) : ends_within n (ret a).
Proof. by apply ends_lexer_same. Qed.

Lemma ends_throw {A} n e : ends_within n (throw (A := A) e).
Proof. by apply ends_lexer_same. Qed.

Lemma ends_modify n (f : KeyFile -> KeyFile) :
  (forall kf, lexer (f kf) = lexer kf) -> ends_within n (modify f).
Proof. intros H. apply ends_lexer_same. intros kf. by split; [|apply H]. Qed.

Lemma ends_state_same {A} n (m : M KeyFile A) :
  (forall kf, (m kf).1 <> OutOfFuel /\ (m kf).2 = kf) -> ends_within n m.
Proof. intros H kf Hw. destruct (H kf) as [H1 H2]. by rewrite H2. Qed.

Lemma ends_GetCurrentSymbol n : ends_within n lexer_GetCurrentSymbol.
Proof.
  apply ends_state_same. intros kf. unfold lexer_GetCurrentSymbol.
  destruct (lexer kf) as [lx|]; [destruct (currentSymbol lx)|]; done.
Qed.

Lemma ends_GetCurrentLine n : ends_within n lexer_GetCurrentLine.
Proof.
  apply ends_state_same. intros kf. unfold lexer_GetCurrentLine.
  by destruct (lexer kf).
Qed.

Lemma ends_cast_int n s : ends_within n (cast_int s).
Proof.
  unfold cast_int. destruct (lexical_cast_int s);
    [apply ends_ret|apply ends_throw].
Qed.

Lemma ends_cast_double n s : ends_within n (cast_double s).
Proof.
  unfold cast_double. destruct (lexical_cast_double s);
    [apply ends_ret|apply ends_throw].
Qed.

Lemma lexer_NextSymbol_not_OutOfFuel kf :
  (lexer_NextSymbol kf).1 <> OutOfFuel.
Proof.
  unfold lexer_NextSymbol. destruct (lexer kf) as [lx|]; [|done].
  by destruct (NextSymbol lx) as [[sy|] lx'].
Qed.

Lemma ends_NextSymbol n : ends_within n lexer_NextSymbol.
Proof.
  intros kf [Hc Hr]. split; [apply lexer_NextSymbol_not_OutOfFuel|].
  destruct (lexer_NextSymbol_remaining kf Hc) as (H1 & H2 & _).
  split; [done|lia].
Qed.

(** After a call of [NextSymbol] that returns a symbol, one call less
    remains. *)
Lemma lexer_NextSymbol_within n kf sy kf' :
  within n kf -> lexer_NextSymbol kf = (Normal sy, kf') ->
  exists n', n = S n' /\ within n' kf'.
Proof.
  intros [Hc Hr] E.
  destruct (lexer_NextSymbol_remaining kf Hc) as (H1 & _ & H3).
  rewrite E in H1, H3. simpl in *. specialize (H3 sy eq_refl).
  destruct n as [|n']; [lia|]. exists n'. split; [done|].
  split; [done|lia].
Qed.

Ltac ends_step :=
  first
    [ apply ends_bind | apply ends_ret | apply ends_throw
    | apply ends_NextSymbol
    | apply ends_GetCurrentSymbol | apply ends_GetCurrentLine
    | apply ends_cast_int | apply ends_cast_double
    | assumption
    | match goal with
      | |- ends_within _ (if ?b then _ else _) => destruct b
      end ].

Ltac ends :=
  repeat first
    [ match goal with |- forall _, _ => intro end
    | progress cbv beta
    | ends_step ].

Lemma ends_expect_separator n : ends_within n expect_separator.
Proof. unfold expect_separator. ends. Qed.

Lemma ends_expect_number n : ends_within n expect_number.
Proof. unfold expect_number. ends. Qed.

Lemma ends_read_connectivity n k : ends_within n (read_connectivity k).
Proof.
  induction k as [|k IH]; simpl; ends;
    auto using ends_expect_separator, ends_expect_number.
Qed.

Lemma ends_read_element_record n : ends_within n read_element_record.
Proof.
  unfold read_element_record. ends;
    auto using ends_expect_separator, ends_expect_number,
      ends_read_connectivity.
Qed.

Lemma ends_AcceptElement n : ends_within n AcceptElement.
Proof.
  unfold AcceptElement. apply ends_bind; [apply ends_read_element_record|].
  intros [[eid pid] e].
  apply ends_bind; [|intro; apply ends_bind; [|intro]].
  - apply ends_lexer_same. intros kf. unfold obj_AddElement, AddElement.
    by case_bool_decide.
  - by apply ends_modify.
  - apply ends_lexer_same. intros kf. unfold parts_AddElement, AddElement.
    destruct (map_index _ _ _). by case_bool_decide.
Qed.

(** The loops of the parser end when they have more fuel than calls of
    [NextSymbol] remain. *)
Lemma ends_skip_until fuel t : forall n,
  (n < fuel)%nat -> ends_within n (skip_until fuel t).
Proof.
  induction fuel as [|fuel IH]; intros n Hn kf Hw; [lia|].
  simpl. unfold bind.
  destruct (ends_NextSymbol n kf Hw) as [Hne Hw'].
  destruct (lexer_NextSymbol kf) as [[sy|e| |] kf'] eqn:E; simpl in *;
    try done.
  destruct (lexer_NextSymbol_within n kf sy kf' Hw E) as (n' & -> & Hw'').
  case_bool_decide; [done|].
  destruct (IH n' ltac:(lia) kf' Hw'') as [H1 H2].
  split; [done|]. eapply within_mono; [done|lia].
Qed.

Lemma ends_read_part_name fuel : forall name n,
  (n < fuel)%nat -> ends_within n (read_part_name fuel name).
Proof.
  induction fuel as [|fuel IH]; intros name n Hn kf Hw; [lia|].
  simpl. unfold bind.
  destruct (ends_NextSymbol n kf Hw) as [Hne Hw'].
  destruct (lexer_NextSymbol kf) as [[sy|e| |] kf'] eqn:E; simpl in *;
    try done.
  destruct (lexer_NextSymbol_within n kf sy kf' Hw E) as (n' & -> & Hw'').
  case_bool_decide; [done|].
  destruct (IH (name +:+ symbol sy) n' ltac:(lia) kf' Hw'') as [H1 H2].
  split; [done|]. eapply within_mono; [done|lia].
Qed.

Lemma ends_AcceptNode fuel n :
  (n < fuel)%nat -> ends_within n (AcceptNode fuel).
Proof.
  intros Hn. unfold AcceptNode. ends;
    auto using ends_expect_separator, ends_skip_until, ends_modify.
Qed.

Lemma ends_AcceptPart fuel n :
  (n < fuel)%nat -> ends_within n (AcceptPart fuel).
Proof.
  intros Hn. unfold AcceptPart. ends;
    auto using ends_read_part_name, ends_skip_until, ends_modify.
Qed.

Lemma ends_Parse_step fuel sy st n :
  (n < fuel)%nat -> ends_within n (Parse_step fuel sy st).
Proof.
  intros Hn. unfold Parse_step.
  repeat match goal with
         | |- ends_within _ (if ?b then _ else _) => destruct b
         | |- ends_within _ (match type ?s with _ => _ end) =>
             destruct (type s)
         | |- ends_within _ (ret _) => apply ends_ret
         | |- ends_within _ (bind _ _) => apply ends_bind; [|intro]
         end;
    auto using ends_AcceptNode, ends_AcceptElement, ends_AcceptPart.
Qed.

Lemma ends_Parse_loop fuel : forall sy st n,
  (n + 1 < fuel)%nat -> ends_within n (Parse_loop fuel sy st).
Proof.
  induction fuel as [|fuel IH]; intros sy st n Hn kf Hw; [lia|].
  simpl. case_bool_decide; [done|].
  unfold bind.
  destruct (ends_Parse_step fuel sy st n ltac:(lia) kf Hw) as [H1 Hw1].
  destruct (Parse_step fuel sy st kf) as [[st'|e| |] kf1]; simpl in *;
    try done.
  destruct (ends_NextSymbol n kf1 Hw1) as [H2 Hw2].
  destruct (lexer_NextSymbol kf1) as [[sy'|e| |] kf2] eqn:E; simpl in *;
    try done.
  destruct (lexer_NextSymbol_within n kf1 sy' kf2 Hw1 E) as (n' & -> & Hw3).
  destruct (IH sy' st' n' ltac:(lia) kf2 Hw3) as [H3 H4].
  split; [done|]. eapply within_mono; [done|lia].
Qed.


End Remaining.

Lemma NextSymbol_makes_progress_witness :
  (String.length (stream (NextSymbol (new_KeyFileLexer "*NODE")).2)
   < String.length (stream (new_KeyFileLexer "*NODE")))%nat.
Proof.
  apply (proj2 (NextSymbol_makes_progress (new_KeyFileLexer "*NODE"))
           (mkSymbol ASTERISK "*") eq_refl); discriminate.
Defined.

